(** * FlagScatter: the ring-and-gap elimination round

    A shallow embedding of [src/components/FlagScatter.tsx] (with the types
    of [types.ts] that the same file carries): the geometry helpers, the
    round state held in [physicsRef], the React state of the component, the
    two [setTimeout] callbacks and the per-frame physics pass.

    Numbers are JavaScript numbers read as exact reals ([R]); where the
    rounding of binary64 decides what holds, as it does for the range of
    [normalizeAngle], the function is given a second time on the machine's
    floats (module [Binary64]) and with the rounding left open
    ([normalizeAngleRounded]).  The calls of
    [Math.random] are draws from an oracle stream indexed by the number of
    calls made so far.  Flag objects live in an object store ([heap]) and
    arrays hold addresses, so that the array kept in [physicsRef] and the
    array kept in the React state share their elements as they do in the
    source.  The per-flag [MotionValue]s (position, scale and opacity handed
    to the renderer) are only ever written by the loop and are left out. *)

From stdpp Require Import base list strings.
From Stdlib Require Import Reals Lra Lia ZArith Permutation Sorted.
From Corelib Require PrimFloat FloatOps SpecFloat.

Local Open Scope R_scope.

(** ** Configuration (lines 6-15) *)

Definition BOUNDARY_RADIUS : R := 160.
Definition INITIAL_RADIUS : R := 95.
Definition FLAG_RADIUS : R := 12.
Definition BASE_SPEED : R := 2.
Definition ROTATION_SPEED : R := 8 / 10.
Definition FORMATION_SPIN_SPEED : R := 5 / 1000.
Definition GAP_TOLERANCE : R := 4.

Record Country := { country_code : string; country_name : string }.

Definition countriesList : list Country :=
  [ {| country_code := "us"; country_name := "USA" |};
    {| country_code := "gb"; country_name := "UK" |};
    {| country_code := "jp"; country_name := "Japan" |};
    {| country_code := "de"; country_name := "Germany" |};
    {| country_code := "fr"; country_name := "France" |};
    {| country_code := "ca"; country_name := "Canada" |};
    {| country_code := "au"; country_name := "Australia" |};
    {| country_code := "it"; country_name := "Italy" |};
    {| country_code := "es"; country_name := "Spain" |};
    {| country_code := "nl"; country_name := "Netherlands" |};
    {| country_code := "se"; country_name := "Sweden" |};
    {| country_code := "ch"; country_name := "Switzerland" |};
    {| country_code := "kr"; country_name := "South Korea" |};
    {| country_code := "sg"; country_name := "Singapore" |};
    {| country_code := "br"; country_name := "Brazil" |};
    {| country_code := "in"; country_name := "India" |};
    {| country_code := "cn"; country_name := "China" |};
    {| country_code := "ru"; country_name := "Russia" |};
    {| country_code := "mx"; country_name := "Mexico" |};
    {| country_code := "za"; country_name := "South Africa" |};
    {| country_code := "tr"; country_name := "Turkey" |};
    {| country_code := "id"; country_name := "Indonesia" |};
    {| country_code := "sa"; country_name := "Saudi Arabia" |};
    {| country_code := "ar"; country_name := "Argentina" |};
    {| country_code := "pl"; country_name := "Poland" |};
    {| country_code := "be"; country_name := "Belgium" |};
    {| country_code := "no"; country_name := "Norway" |};
    {| country_code := "dk"; country_name := "Denmark" |};
    {| country_code := "fi"; country_name := "Finland" |};
    {| country_code := "nz"; country_name := "New Zealand" |};
    {| country_code := "pt"; country_name := "Portugal" |};
    {| country_code := "gr"; country_name := "Greece" |};
    {| country_code := "ie"; country_name := "Ireland" |};
    {| country_code := "at"; country_name := "Austria" |};
    {| country_code := "cz"; country_name := "Czechia" |};
    {| country_code := "hu"; country_name := "Hungary" |};
    {| country_code := "ro"; country_name := "Romania" |};
    {| country_code := "ua"; country_name := "Ukraine" |};
    {| country_code := "cl"; country_name := "Chile" |};
    {| country_code := "co"; country_name := "Colombia" |};
    {| country_code := "pe"; country_name := "Peru" |};
    {| country_code := "ve"; country_name := "Venezuela" |};
    {| country_code := "eg"; country_name := "Egypt" |};
    {| country_code := "ng"; country_name := "Nigeria" |};
    {| country_code := "ke"; country_name := "Kenya" |};
    {| country_code := "th"; country_name := "Thailand" |};
    {| country_code := "vn"; country_name := "Vietnam" |};
    {| country_code := "my"; country_name := "Malaysia" |};
    {| country_code := "ph"; country_name := "Philippines" |};
    {| country_code := "pk"; country_name := "Pakistan" |} ].

(** ** Geometry helpers *)

(** Comparisons of numbers are decidable on reals (classically). *)
#[global] Instance Rlt_decision (a b : R) : Decision (a < b) := Rlt_dec a b.
#[global] Instance Rle_decision (a b : R) : Decision (a <= b) := Rle_dec a b.
#[global] Instance Rgt_decision (a b : R) : Decision (a > b) := Rgt_dec a b.
#[global] Instance Rge_decision (a b : R) : Decision (a >= b) := Rge_dec a b.

(** Truncation toward zero, the rounding of JavaScript's [%]. *)
Definition Rtrunc (r : R) : Z :=
  if decide (0 <= r) then Int_part r else (- Int_part (- r))%Z.

(** [a % m] on numbers: the remainder carries the sign of the dividend. *)
Definition Rrem (a m : R) : R := a - IZR (Rtrunc (a / m)) * m.

(** Lines 37-42. *)
Definition normalizeAngle (angle : R) : R :=
  let a := Rrem angle 360 in
  if decide (a < 0) then a + 360 else a.

(** Lines 37-42 with the rounding of the sum of line 40 made explicit:
    [rnd] takes the exact sum to the number the machine stores.  The
    remainder of line 39 needs no rounding, [%] is exact on floats. *)
Definition normalizeAngleRounded (rnd : R -> R) (angle : R) : R :=
  let a := Rrem angle 360 in
  if decide (a < 0) then rnd (a + 360) else a.

(** A rounding to try [normalizeAngleRounded] with: to the nearest whole
    number, halves upward. *)
Definition roundToInteger (r : R) : R := IZR (Int_part (r + 1 / 2)).

(** The same helper on binary64 numbers, as the program runs it. *)
Module Binary64.

Import PrimFloat.

(** [a % m] on floats: the remainder of the truncated division, computed
    exactly on the mantissas; it carries the sign of the dividend, also
    when it is zero. *)
Definition fmod (a m : float) : float :=
  match FloatOps.Prim2SF a, FloatOps.Prim2SF m with
  | SpecFloat.S754_finite sa ma ea, SpecFloat.S754_finite _ mm em =>
    let e := Z.min ea em in
    let r := Z.rem (Z.pos ma * 2 ^ (ea - e)) (Z.pos mm * 2 ^ (em - e)) in
    FloatOps.SF2Prim
      (SpecFloat.binary_normalize FloatOps.prec FloatOps.emax
         (if sa then - r else r) e sa)
  | SpecFloat.S754_zero _, SpecFloat.S754_finite _ _ _ => a
  | (SpecFloat.S754_zero _ | SpecFloat.S754_finite _ _ _),
    SpecFloat.S754_infinity _ => a
  | _, _ => nan
  end.

(** Lines 37-42. *)
Definition normalizeAngle (angle : float) : float :=
  let a := fmod angle 360%float in
  if ltb a 0%float then add a 360%float else a.

Definition zero : float := 0%float.

Definition fullTurn : float := 360%float.

(** The float nearest to -1e-20, the value of the literal [-1e-20]. *)
Definition minusTiny : float := (-0x1.79ca10c924223p-67)%float.

End Binary64.

(** [Math.atan2(y, x)] on reals: the argument of the point [(x, y)] in
    (-PI, PI], and 0 at the origin. *)
Definition atan2 (y x : R) : R :=
  if decide (0 < x) then atan (y / x)
  else if decide (x < 0) then
    (if decide (0 <= y) then atan (y / x) + PI else atan (y / x) - PI)
  else if decide (0 < y) then PI / 2
  else if decide (y < 0) then - (PI / 2)
  else 0.

(** Lines 284-296: the live gap test of a boundary event. *)
Definition isInsideGap (gapS gapE ringAng flagAngle : R) : bool :=
  let currentGapStart := normalizeAngle (gapS + ringAng - GAP_TOLERANCE) in
  let currentGapEnd := normalizeAngle (gapE + ringAng + GAP_TOLERANCE) in
  if decide (currentGapStart < currentGapEnd) then
    bool_decide (flagAngle >= currentGapStart) && bool_decide (flagAngle <= currentGapEnd)
  else
    bool_decide (flagAngle >= currentGapStart) || bool_decide (flagAngle <= currentGapEnd).

(** ** Data model ([types.ts] and the interfaces of lines 53-57, 120-134) *)

Inductive FlagStatus := active | exiting | eliminated | winner.

#[global] Instance FlagStatus_eq_dec : EqDecision FlagStatus.
Proof. solve_decision. Defined.

Record PhysicsState := {
  x : R; y : R;
  vx : R; vy : R;
  angle : R;      (* visual rotation of the flag itself *)
  vAngle : R      (* rotational velocity *)
}.

Record CountryFlag := {
  code : string;
  name : string;
  status : FlagStatus;
  physics : PhysicsState
}.

Record LeaderboardEntry := {
  entry_code : string;
  entry_name : string;
  wins : Z
}.

Inductive Phase := formation | scatter.

#[global] Instance Phase_eq_dec : EqDecision Phase.
Proof. solve_decision. Defined.

(** Address of a flag object in the object store. *)
Abbreviation addr := nat (only parsing).

(** The value of [physicsRef.current]; [flags] is an array of references. *)
Record PhysicsRef := {
  flags : list addr;
  ringAngle : R;
  isRunning : bool;
  phase : Phase;
  gapStart : R;
  gapEnd : R
}.

(** The two callbacks the component hands to [setTimeout]: the one of line
    207 (phase becomes scatter) and the one of line 367 (a new round). *)
Inductive Callback := StartScatter | AutoRestart.

#[global] Instance Callback_eq_dec : EqDecision Callback.
Proof. solve_decision. Defined.

(** A pending timer of the host: its handle, the time (ms) from which it may
    fire, and what it runs. *)
Record Timer := { tid : nat; due : N; callback : Callback }.

(** The component instance together with the part of the host it uses. *)
Record World := {
  heap : list CountryFlag;              (* flag objects, by address *)
  st_flags : list addr;                 (* useState: flags *)
  st_winner : option addr;              (* useState: winner *)
  st_visualPathLength : R;              (* useState: visualPathLength *)
  st_leaderboard : list LeaderboardEntry; (* useState: leaderboard *)
  ringRotation : R;                     (* MotionValue *)
  ringOpacity : R;                      (* MotionValue *)
  physicsRef : PhysicsRef;
  startTimeoutRef : option nat;
  timers : list Timer;                  (* pending timers of the host *)
  nextTimer : nat;                      (* next handle setTimeout returns *)
  clock : N;                            (* host time, ms *)
  rng : nat                             (* calls of Math.random so far *)
}.

(** *** Field updates *)

Definition set_status (s : FlagStatus) (f : CountryFlag) : CountryFlag :=
  {| code := code f; name := name f; status := s; physics := physics f |}.

Definition set_physics (p : PhysicsState) (f : CountryFlag) : CountryFlag :=
  {| code := code f; name := name f; status := status f; physics := p |}.

Definition set_phase (ph : Phase) (r : PhysicsRef) : PhysicsRef :=
  {| flags := flags r; ringAngle := ringAngle r; isRunning := isRunning r;
     phase := ph; gapStart := gapStart r; gapEnd := gapEnd r |}.

Definition set_isRunning (b : bool) (r : PhysicsRef) : PhysicsRef :=
  {| flags := flags r; ringAngle := ringAngle r; isRunning := b;
     phase := phase r; gapStart := gapStart r; gapEnd := gapEnd r |}.

Definition set_ringAngle (a : R) (r : PhysicsRef) : PhysicsRef :=
  {| flags := flags r; ringAngle := a; isRunning := isRunning r;
     phase := phase r; gapStart := gapStart r; gapEnd := gapEnd r |}.

Definition set_physicsRef (r : PhysicsRef) (w : World) : World :=
  {| heap := heap w; st_flags := st_flags w; st_winner := st_winner w;
     st_visualPathLength := st_visualPathLength w;
     st_leaderboard := st_leaderboard w;
     ringRotation := ringRotation w; ringOpacity := ringOpacity w;
     physicsRef := r; startTimeoutRef := startTimeoutRef w;
     timers := timers w; nextTimer := nextTimer w; clock := clock w;
     rng := rng w |}.

Definition set_timers (ts : list Timer) (w : World) : World :=
  {| heap := heap w; st_flags := st_flags w; st_winner := st_winner w;
     st_visualPathLength := st_visualPathLength w;
     st_leaderboard := st_leaderboard w;
     ringRotation := ringRotation w; ringOpacity := ringOpacity w;
     physicsRef := physicsRef w; startTimeoutRef := startTimeoutRef w;
     timers := ts; nextTimer := nextTimer w; clock := clock w;
     rng := rng w |}.

Definition set_clock (t : N) (w : World) : World :=
  {| heap := heap w; st_flags := st_flags w; st_winner := st_winner w;
     st_visualPathLength := st_visualPathLength w;
     st_leaderboard := st_leaderboard w;
     ringRotation := ringRotation w; ringOpacity := ringOpacity w;
     physicsRef := physicsRef w; startTimeoutRef := startTimeoutRef w;
     timers := timers w; nextTimer := nextTimer w; clock := t;
     rng := rng w |}.

(** ** The host's timers *)

(** [setTimeout(cb, delay)]: a new pending timer; returns its handle. *)
Definition setTimeout (cb : Callback) (delay : N) (w : World) : nat * World :=
  (nextTimer w,
   {| heap := heap w; st_flags := st_flags w; st_winner := st_winner w;
      st_visualPathLength := st_visualPathLength w;
      st_leaderboard := st_leaderboard w;
      ringRotation := ringRotation w; ringOpacity := ringOpacity w;
      physicsRef := physicsRef w; startTimeoutRef := startTimeoutRef w;
      timers := timers w ++
                [ {| tid := nextTimer w; due := (clock w + delay)%N;
                     callback := cb |} ];
      nextTimer := S (nextTimer w); clock := clock w; rng := rng w |}).

(** [clearTimeout(id)]: the timer with that handle, if pending, is dropped. *)
Definition clearTimeout (id : nat) (w : World) : World :=
  set_timers (filter (fun t => tid t <> id) (timers w)) w.

(** Line 140, and again line 217 in the cleanup of the mount effect:
    [if (startTimeoutRef.current) clearTimeout(startTimeoutRef.current)].
    A handle is a positive number, and 0 would not pass the test. *)
Definition cancelStartTimeout (w : World) : World :=
  match startTimeoutRef w with
  | Some (S _ as id) => clearTimeout id w
  | _ => w
  end.

(** ** The leaderboard updater (lines 348-358) *)

(** [Array.prototype.sort] with a comparator: a stable sort; [cmp a b <= 0]
    keeps [a] before [b]. *)
Fixpoint sort_insert {A} (cmp : A -> A -> Z) (a : A) (l : list A) : list A :=
  match l with
  | [] => [a]
  | b :: l' => if (cmp a b <=? 0)%Z then a :: b :: l' else b :: sort_insert cmp a l'
  end.

Definition sort {A} (cmp : A -> A -> Z) (l : list A) : list A :=
  foldr (sort_insert cmp) [] l.

Definition bump (wcode : string) (p : LeaderboardEntry) : LeaderboardEntry :=
  if String.eqb (entry_code p) wcode
  then {| entry_code := entry_code p; entry_name := entry_name p;
          wins := (wins p + 1)%Z |}
  else p.

Definition updateLeaderboard (w : CountryFlag) (prev : list LeaderboardEntry)
  : list LeaderboardEntry :=
  let existing := List.find (fun p => String.eqb (entry_code p) (code w)) prev in
  let newState :=
    match existing with
    | Some _ => map (bump (code w)) prev
    | None => prev ++ [ {| entry_code := code w; entry_name := name w; wins := 1 |} ]
    end in
  sort (fun a b => (wins b - wins a)%Z) newState.

(** ** The physics of one flag (lines 243-248, 259-261, 300-316) *)

(** Formation phase: the position turns by a fixed small angle. *)
Definition formationStep (p : PhysicsState) : PhysicsState :=
  let c := cos FORMATION_SPIN_SPEED in
  let s := sin FORMATION_SPIN_SPEED in
  let nx := x p * c - y p * s in
  let ny := x p * s + y p * c in
  {| x := nx; y := ny; vx := vx p; vy := vy p;
     angle := angle p; vAngle := vAngle p |}.

(** Scatter phase: position and heading advance by their velocities. *)
Definition integrate (p : PhysicsState) : PhysicsState :=
  {| x := x p + vx p; y := y p + vy p; vx := vx p; vy := vy p;
     angle := angle p + vAngle p; vAngle := vAngle p |}.

Definition distance (p : PhysicsState) : R := sqrt (x p * x p + y p * y p).

Definition speed (p : PhysicsState) : R := sqrt (vx p * vx p + vy p * vy p).

(** Lines 301-304; [r1], [r2] are the two draws of line 304. *)
Definition exitBoost (r1 r2 : R) (p : PhysicsState) : PhysicsState :=
  {| x := x p; y := y p; vx := vx p * (16 / 10); vy := vy p * (16 / 10);
     angle := angle p;
     vAngle := (if decide (r1 > 5 / 10) then 12 else -12) + r2 * 8 |}.

(** Lines 307-311: the velocity mirrored at the normal [(nx, ny)]. *)
Definition reflect (dist : R) (p : PhysicsState) : PhysicsState :=
  let nx := x p / dist in
  let ny := y p / dist in
  let dotProduct := vx p * nx + vy p * ny in
  {| x := x p; y := y p;
     vx := vx p - 2 * dotProduct * nx; vy := vy p - 2 * dotProduct * ny;
     angle := angle p; vAngle := vAngle p |}.

(** Lines 307-308, 312-314: the position pushed back by the overlap. *)
Definition pushBack (dist : R) (p : PhysicsState) : PhysicsState :=
  let nx := x p / dist in
  let ny := y p / dist in
  let overlap := (dist + FLAG_RADIUS) - BOUNDARY_RADIUS in
  {| x := x p - nx * overlap; y := y p - ny * overlap;
     vx := vx p; vy := vy p; angle := angle p; vAngle := vAngle p |}.

(** Lines 315-316; [r1], [r2] are the two draws. *)
Definition perturb (r1 r2 : R) (p : PhysicsState) : PhysicsState :=
  {| x := x p; y := y p;
     vx := vx p + (r1 - 5 / 10) * (5 / 10);
     vy := vy p + (r2 - 5 / 10) * (5 / 10);
     angle := angle p; vAngle := vAngle p |}.

(** The bounce branch, lines 306-316. *)
Definition bounce (dist r1 r2 : R) (p : PhysicsState) : PhysicsState :=
  perturb r1 r2 (pushBack dist (reflect dist p)).

(** Lines 360-362: [flags.map(f => f.code === w.code ? {...f, status:
    'winner'} : f)]; every copy is a new object. Returns the store and the
    new array.  An address with no object behind it, which the array never
    holds, is carried over as it is. *)
Fixpoint markWinner (wcode : string) (h : list CountryFlag) (l : list addr)
  : list CountryFlag * list addr :=
  match l with
  | [] => (h, [])
  | a :: l' =>
    match h !! a with
    | Some f =>
      if String.eqb (code f) wcode then
        let '(h', r) := markWinner wcode (h ++ [set_status winner f]) l' in
        (h', length h :: r)
      else
        let '(h', r) := markWinner wcode h l' in (h', a :: r)
    | None => let '(h', r) := markWinner wcode h l' in (h', a :: r)
    end
  end.

(** The state of one [forEach] pass of the physics loop (lines 230-338). *)
Record Pass := {
  pass_heap : list CountryFlag;
  activeCount : nat;
  potentialWinner : option addr;
  pass_rng : nat
}.

Section Component.

(** [random k] is the result of the [k]-th call of [Math.random]. *)
Variable random : nat -> R.

(** Line 164, [[...countriesList].sort(() => Math.random() - 0.5)]: what a
    sort with a random comparator returns is left to the engine; given the
    number of draws made before, the oracle gives the resulting order and
    the number of draws the sort made. *)
Variable sortRandomly : nat -> list Country -> list Country * nat.

(** Lines 167-189, the callback of [shuffledList.map]; [r0] is the number of
    draws made before the map started. *)
Definition initialFlag (total r0 i : nat) (c : Country) : CountryFlag :=
  let theta := (INR i / INR total) * 2 * PI in
  let x0 := INITIAL_RADIUS * cos theta in
  let y0 := INITIAL_RADIUS * sin theta in
  let velocityAngle := random (r0 + 2 * i) * PI * 2 in
  {| code := country_code c; name := country_name c; status := active;
     physics :=
       {| x := x0; y := y0;
          vx := cos velocityAngle * BASE_SPEED;
          vy := sin velocityAngle * BASE_SPEED;
          angle := 0;
          vAngle := (random (r0 + 2 * i + 1) - 5 / 10) * 10 |} |}.

(** Lines 139-211. *)
Definition initializeGame (w : World) : World :=
  let w1 := cancelStartTimeout w in
  let gapDegrees := 45 in
  let pathLen := (360 - gapDegrees) / 360 in
  let '(shuffledList, draws) := sortRandomly (rng w1) countriesList in
  let r0 := (rng w1 + draws)%nat in
  let total := length shuffledList in
  let initialFlags := seq (length (heap w1)) total in
  let w2 :=
    {| heap := heap w1 ++ imap (initialFlag total r0) shuffledList;
       st_flags := initialFlags;
       st_winner := None;
       st_visualPathLength := pathLen;
       st_leaderboard := st_leaderboard w1;
       ringRotation := 0;
       ringOpacity := 1;
       physicsRef :=
         {| flags := initialFlags; ringAngle := 0; isRunning := true;
            phase := formation;
            gapStart := 360 - gapDegrees; gapEnd := 360 |};
       startTimeoutRef := startTimeoutRef w1;
       timers := timers w1; nextTimer := nextTimer w1; clock := clock w1;
       rng := (r0 + 2 * total)%nat |} in
  let '(id, w3) := setTimeout StartScatter 2000 w2 in
  {| heap := heap w3; st_flags := st_flags w3; st_winner := st_winner w3;
     st_visualPathLength := st_visualPathLength w3;
     st_leaderboard := st_leaderboard w3;
     ringRotation := ringRotation w3; ringOpacity := ringOpacity w3;
     physicsRef := physicsRef w3; startTimeoutRef := Some id;
     timers := timers w3; nextTimer := nextTimer w3; clock := clock w3;
     rng := rng w3 |}.

(** The callback of [forEach] at line 233, applied to the flag stored at
    [a]; [ref] is [physicsRef.current], which the pass does not change.
    The array only ever holds addresses of allocated flags; at any other
    address the visit does nothing. *)
Definition visit (ref : PhysicsRef) (st : Pass) (a : addr) : Pass :=
  match pass_heap st !! a with
  | None => st
  | Some flag =>
    if decide (status flag = eliminated) then st else
    let activeCount' :=
      if decide (status flag = active) then S (activeCount st)
      else activeCount st in
    let potentialWinner' :=
      if decide (status flag = active) then Some a else potentialWinner st in
    let p := physics flag in
    match phase ref with
    | formation =>
      {| pass_heap := <[a := set_physics (formationStep p) flag]> (pass_heap st);
         activeCount := activeCount'; potentialWinner := potentialWinner';
         pass_rng := pass_rng st |}
    | scatter =>
      let p1 := integrate p in
      match status flag with
      | active =>
        let dist := distance p1 in
        if decide (dist + FLAG_RADIUS >= BOUNDARY_RADIUS) then
          let flagAngle := normalizeAngle (atan2 (y p1) (x p1) * (180 / PI)) in
          let r1 := random (pass_rng st) in
          let r2 := random (S (pass_rng st)) in
          if isInsideGap (gapStart ref) (gapEnd ref) (ringAngle ref) flagAngle
             && bool_decide (1 < activeCount')%nat
          then
            {| pass_heap :=
                 <[a := set_physics (exitBoost r1 r2 p1) (set_status exiting flag)]>
                   (pass_heap st);
               activeCount := activeCount'; potentialWinner := potentialWinner';
               pass_rng := S (S (pass_rng st)) |}
          else
            {| pass_heap :=
                 <[a := set_physics (bounce dist r1 r2 p1) flag]> (pass_heap st);
               activeCount := activeCount'; potentialWinner := potentialWinner';
               pass_rng := S (S (pass_rng st)) |}
        else
          {| pass_heap := <[a := set_physics p1 flag]> (pass_heap st);
             activeCount := activeCount'; potentialWinner := potentialWinner';
             pass_rng := pass_rng st |}
      | exiting =>
        let dist := distance p1 in
        let flag1 := set_physics p1 flag in
        {| pass_heap :=
             <[a := if decide (dist > BOUNDARY_RADIUS * (25 / 10))
                    then set_status eliminated flag1 else flag1]> (pass_heap st);
           activeCount := activeCount'; potentialWinner := potentialWinner';
           pass_rng := pass_rng st |}
      | _ =>
        {| pass_heap := <[a := set_physics p1 flag]> (pass_heap st);
           activeCount := activeCount'; potentialWinner := potentialWinner';
           pass_rng := pass_rng st |}
      end
    end
  end.

(** Lines 342-369, the body of the winner check; [wa] is the address held
    in [potentialWinner] and [wf] the flag object stored there. *)
Definition declareWinner (wa : addr) (wf : CountryFlag) (w : World) : World :=
  let '(h', finalFlags) :=
    markWinner (code wf) (heap w) (flags (physicsRef w)) in
  snd (setTimeout AutoRestart 5000
    {| heap := h'; st_flags := finalFlags; st_winner := Some wa;
       st_visualPathLength := st_visualPathLength w;
       st_leaderboard := updateLeaderboard wf (st_leaderboard w);
       ringRotation := ringRotation w; ringOpacity := 0;
       physicsRef := set_isRunning false (physicsRef w);
       startTimeoutRef := startTimeoutRef w;
       timers := timers w; nextTimer := nextTimer w; clock := clock w;
       rng := rng w |}).

(** Lines 340-370, the winner check, with the counters of the pass.  The
    candidate is an element of the array, so its object is in the store. *)
Definition winnerCheck (count : nat) (candidate : option addr) (w : World)
  : World :=
  match candidate with
  | Some wa =>
    if bool_decide (phase (physicsRef w) = scatter)
       && bool_decide (count = 1%nat) && isRunning (physicsRef w)
    then
      match heap w !! wa with
      | Some wf => declareWinner wa wf w
      | None => w
      end
    else w
  | None => w
  end.

(** Lines 230-231: the counters before the pass. *)
Definition startPass (h : list CountryFlag) (r : nat) : Pass :=
  {| pass_heap := h; activeCount := 0; potentialWinner := None; pass_rng := r |}.

(** The pass over [physicsRef.current.flags]. *)
Definition pass (ref : PhysicsRef) (h : list CountryFlag) (r : nat) : Pass :=
  foldl (visit ref) (startPass h r) (flags ref).

(** Lines 225-338: the ring advanced and the pass made. *)
Definition physicsPass (w : World) : Pass * World :=
  let ringAngle' := Rrem (ringAngle (physicsRef w) + ROTATION_SPEED) 360 in
  let ref := set_ringAngle ringAngle' (physicsRef w) in
  let st := pass ref (heap w) (rng w) in
  (st,
   {| heap := pass_heap st; st_flags := st_flags w; st_winner := st_winner w;
      st_visualPathLength := st_visualPathLength w;
      st_leaderboard := st_leaderboard w;
      ringRotation := ringAngle'; ringOpacity := ringOpacity w;
      physicsRef := ref; startTimeoutRef := startTimeoutRef w;
      timers := timers w; nextTimer := nextTimer w; clock := clock w;
      rng := pass_rng st |}).

(** Lines 222-371, the callback of [useAnimationFrame]. *)
Definition frame (time delta : R) (w : World) : World :=
  if negb (isRunning (physicsRef w))
     || bool_decide (length (flags (physicsRef w)) = 0%nat)
  then w
  else
    let '(st, w1) := physicsPass w in
    winnerCheck (activeCount st) (potentialWinner st) w1.

(** ** The component on the host's event queue *)

(** The state before the first effect runs (lines 101-136). *)
Definition initialWorld : World :=
  {| heap := []; st_flags := []; st_winner := None;
     st_visualPathLength := 85 / 100; st_leaderboard := [];
     ringRotation := 0; ringOpacity := 1;
     physicsRef :=
       {| flags := []; ringAngle := 0; isRunning := true; phase := formation;
          gapStart := 306; gapEnd := 360 |};
     startTimeoutRef := None;
     timers := []; nextTimer := 1; clock := 0; rng := 0 |}.

(** Lines 214-219: the effect run on mount. *)
Definition mount : World := initializeGame initialWorld.

(** Lines 216-218: the cleanup of the mount effect. *)
Definition unmount (w : World) : World := cancelStartTimeout w.

Definition runCallback (cb : Callback) (w : World) : World :=
  match cb with
  | StartScatter => set_physicsRef (set_phase scatter (physicsRef w)) w
  | AutoRestart => initializeGame w
  end.

(** The host runs a pending timer that is due: the timer leaves the queue
    and its callback runs. *)
Definition fireTimer (id : nat) (w : World) : World :=
  match List.find (fun t => Nat.eqb (tid t) id) (timers w) with
  | Some t =>
    if (due t <=? clock w)%N
    then runCallback (callback t) (clearTimeout id w)
    else w
  | None => w
  end.

Inductive Event :=
| AnimationFrame (time delta : R)
| TimerFires (id : nat)
| Elapse (ms : N).

Definition step (w : World) (ev : Event) : World :=
  match ev with
  | AnimationFrame time delta => frame time delta w
  | TimerFires id => fireTimer id w
  | Elapse ms => set_clock (clock w + ms)%N w
  end.

Definition run (w : World) (evs : list Event) : World := foldl step w evs.

(** The events of one round: frames, the passing of time, and the timer of
    line 207; the callback of line 367 starts the next round. *)
Definition withinRound (w : World) (ev : Event) : Prop :=
  match ev with
  | TimerFires id =>
    forall t, List.find (fun t => Nat.eqb (tid t) id) (timers w) = Some t ->
              callback t = StartScatter
  | _ => True
  end.

Fixpoint roundTrace (w : World) (evs : list Event) : Prop :=
  match evs with
  | [] => True
  | ev :: evs' => withinRound w ev /\ roundTrace (step w ev) evs'
  end.

End Component.

(** ** Vocabulary of the properties *)

(** The status of the flag object stored at an address. *)
Definition statusAt (h : list CountryFlag) (a : addr) : option FlagStatus :=
  status <$> h !! a.

(** How many flags of the array [l] have status [s] in the store [h]. *)
Definition countStatus (s : FlagStatus) (h : list CountryFlag) (l : list addr)
  : nat :=
  length (filter (fun a => statusAt h a = Some s) l).

(** One move along active -> exiting -> eliminated, or none. *)
Definition forward (s s' : FlagStatus) : Prop :=
  s' = s \/ (s = active /\ s' = exiting) \/ (s = exiting /\ s' = eliminated).

(** The same with the move active -> winner. *)
Definition forwardShown (s s' : FlagStatus) : Prop :=
  forward s s' \/ (s = active /\ s' = winner).

(** The order generated by the moves: active below everything, exiting
    below eliminated. *)
Definition statusLe (s s' : FlagStatus) : bool :=
  match s, s' with
  | active, _ => true
  | exiting, (exiting | eliminated) => true
  | eliminated, eliminated => true
  | winner, winner => true
  | _, _ => false
  end.

(** The pending timers that run a given callback. *)
Definition pending (cb : Callback) (w : World) : list Timer :=
  filter (fun t => callback t = cb) (timers w).

(** The code of the flag object stored at an address. *)
Definition codeAt (h : list CountryFlag) (a : addr) : option string :=
  code <$> h !! a.

(** What every state of the mounted component satisfies: the array of the
    round holds distinct, allocated flag objects with distinct codes, none
    of them marked winner and one at least active; while the round runs
    the React state shows that very array; at most one shown flag is a
    winner; and a restart is pending only once the round has stopped. *)
Definition roundInvariant (w : World) : Prop :=
  let fl := flags (physicsRef w) in
  NoDup fl /\
  (forall a, a ∈ fl -> (a < length (heap w))%nat) /\
  NoDup (codeAt (heap w) <$> fl) /\
  (forall a, a ∈ fl -> statusAt (heap w) a <> Some winner) /\
  (1 <= countStatus active (heap w) fl)%nat /\
  (isRunning (physicsRef w) = true -> st_flags w = fl) /\
  (countStatus winner (heap w) (st_flags w) <= 1)%nat /\
  (length (pending AutoRestart w) <= 1)%nat /\
  (pending AutoRestart w <> [] -> isRunning (physicsRef w) = false).

(** Between two states the winner check has not run: what it would write
    is as it was. *)
Definition sameOutcome (w w' : World) : Prop :=
  st_leaderboard w' = st_leaderboard w /\
  st_winner w' = st_winner w /\
  nextTimer w' = nextTimer w /\
  (length (pending AutoRestart w') <= length (pending AutoRestart w))%nat /\
  isRunning (physicsRef w') = isRunning (physicsRef w).

(** Between two states the winner check has run once: one winner set, one
    leaderboard update, one restart scheduled, and the round stopped. *)
Definition wonOnce (w w' : World) : Prop :=
  exists wa wf,
    st_leaderboard w' = updateLeaderboard wf (st_leaderboard w) /\
    st_winner w' = Some wa /\
    nextTimer w' = S (nextTimer w) /\
    (length (pending AutoRestart w') <= S (length (pending AutoRestart w)))%nat /\
    isRunning (physicsRef w) = true /\
    isRunning (physicsRef w') = false.

(** ** Concrete runs *)

(** An oracle whose every draw is one half, and a sort of line 164 that
    happens to keep the order and makes no draw. *)
Definition fairCoin : nat -> R := fun _ => 1 / 2.

Definition keepOrder : nat -> list Country -> list Country * nat :=
  fun _ l => (l, 0%nat).

(** A flag one step inside the boundary, heading out along the x axis. *)
Definition outbound : PhysicsState :=
  {| x := 149; y := 0; vx := 1; vy := 0; angle := 0; vAngle := 0 |}.

(** The same flag at the boundary, where the step has taken it. *)
Definition atBoundary : PhysicsState :=
  {| x := 150; y := 0; vx := 1; vy := 0; angle := 0; vAngle := 0 |}.

Definition outboundFlag : CountryFlag :=
  {| code := "us"; name := "USA"; status := active; physics := outbound |}.

(** [physicsRef.current] of a round in its scatter phase, the ring at 0. *)
Definition scatterRef (fl : list addr) : PhysicsRef :=
  {| flags := fl; ringAngle := 0; isRunning := true; phase := scatter;
     gapStart := 315; gapEnd := 360 |}.

(** Late in a first round, a minute after mount: the timer of line 207
    (handle 1) has fired, the first flag of the roster is the only one
    still active, the others have left and are eliminated. *)
Definition lateRound : World :=
  {| heap :=
       imap (fun i c =>
               {| code := country_code c; name := country_name c;
                  status := if Nat.eqb i 0 then active else eliminated;
                  physics :=
                    {| x := if Nat.eqb i 0 then 0 else 500; y := 0;
                       vx := 2; vy := 0; angle := 0; vAngle := 0 |} |})
            countriesList;
     st_flags := seq 0 (length countriesList);
     st_winner := None;
     st_visualPathLength := (360 - 45) / 360;
     st_leaderboard := [];
     ringRotation := 0; ringOpacity := 1;
     physicsRef := scatterRef (seq 0 (length countriesList));
     startTimeoutRef := Some 1%nat;
     timers := []; nextTimer := 2; clock := 60000; rng := 100 |}.

(** An active flag at rest at the centre. *)
Definition restingFlag : CountryFlag :=
  {| code := "gb"; name := "UK"; status := active;
     physics := {| x := 0; y := 0; vx := 0; vy := 0;
                   angle := 0; vAngle := 0 |} |}.

(** Leaderboard entries and winners for codes A and B. *)
Definition flagOf (c : string) : CountryFlag :=
  {| code := c; name := c; status := active; physics := outbound |}.

(** ** What the loop and the component hand to the renderer *)

(** Lines 324-327: how far an exiting flag has faded, from 0 at the
    boundary to 1 at two and a half times its radius. *)
Definition fadeProgress (dist : R) : R :=
  let startFade := BOUNDARY_RADIUS in
  let endFade := BOUNDARY_RADIUS * (25 / 10) in
  let progress := (dist - startFade) / (endFade - startFade) in
  Rmax 0 (Rmin 1 progress).

(** Lines 329-330. *)
Definition exitOpacity (dist : R) : R := 1 - fadeProgress dist.

Definition exitScale (dist : R) : R := 1 - fadeProgress dist * (3 / 10).

(** Line 274: the scale pulse of an active flag. *)
Definition breathe (time px : R) : R :=
  1 + sin (time / 600 + px * (5 / 100)) * (1 / 10).

(** What one visit writes to the MotionValues of a flag, when it has them;
    [None] in a field is a value the visit leaves as it was. *)
Record MotionWrite := {
  mv_x : R; mv_y : R; mv_angle : R;
  mv_scale : option R; mv_opacity : option R
}.

(** Lines 239-336, the writes to [mv] alone: in the scatter phase the
    position is written right after the step, before a bounce corrects it. *)
Definition motionWrite (ph : Phase) (time : R) (flag : CountryFlag)
  : option MotionWrite :=
  if decide (status flag = eliminated) then None else
  let p := physics flag in
  match ph with
  | formation =>
    let p' := formationStep p in
    Some {| mv_x := x p'; mv_y := y p'; mv_angle := 0;
            mv_scale := Some 1; mv_opacity := Some 1 |}
  | scatter =>
    let p1 := integrate p in
    match status flag with
    | active =>
      Some {| mv_x := x p1; mv_y := y p1; mv_angle := angle p1;
              mv_scale := Some (breathe time (x p1)); mv_opacity := None |}
    | exiting =>
      let dist := distance p1 in
      Some {| mv_x := x p1; mv_y := y p1; mv_angle := angle p1;
              mv_scale := Some (exitScale dist);
              mv_opacity := Some (exitOpacity dist) |}
    | _ =>
      Some {| mv_x := x p1; mv_y := y p1; mv_angle := angle p1;
              mv_scale := None; mv_opacity := None |}
    end
  end.

(** The elements the flag list renders (lines 60-98, 425-445, 471-510). *)
Inductive FlagElement :=
| PhysicsFlagElement (flag : CountryFlag) (zIndex : Z) (tint : bool)
| WinnerFlagElement (flag : CountryFlag).

(** Lines 60-98: [zIndex] from line 81, the cyan tint from line 93. *)
Definition PhysicsFlag (flag : CountryFlag) : FlagElement :=
  PhysicsFlagElement flag
    (if decide (status flag = winner) then 100 else 10)%Z
    (bool_decide (status flag = exiting)).

(** Lines 425-445, the callback of [flags.map]; [hasMotion c] tells whether
    [flagMotionValues] has an entry for the code [c]. *)
Definition renderFlag (hasMotion : string -> bool) (flag : CountryFlag)
  : option FlagElement :=
  if decide (status flag = eliminated) then None
  else if negb (hasMotion (code flag)) then None
  else if decide (status flag = winner) then Some (WinnerFlagElement flag)
  else Some (PhysicsFlag flag).

(** One row of the leaderboard (lines 391-410): the rank shown, whether it
    is drawn in yellow, and the entry. *)
Record LeaderboardRow := {
  row_rank : nat; row_first : bool; row_entry : LeaderboardEntry
}.

Inductive LeaderboardView :=
| AwaitingData
| Rows (rows : list LeaderboardRow).

(** Lines 386-411. *)
Definition renderLeaderboard (leaderboard : list LeaderboardEntry)
  : LeaderboardView :=
  if Nat.eqb (length leaderboard) 0 then AwaitingData
  else Rows (imap (fun i entry =>
                     {| row_rank := i + 1; row_first := Nat.eqb i 0;
                        row_entry := entry |})
                  (take 5 leaderboard)).

(** A flag on its way out, 200 from the centre. *)
Definition leavingFlag : CountryFlag :=
  {| code := "gb"; name := "UK"; status := exiting;
     physics := {| x := 200; y := 0; vx := 32 / 10; vy := 0;
                   angle := 0; vAngle := 14 |} |}.

(** Earlier in such a round: the first flag of the roster active at the
    centre, the second on its way out, the others eliminated. *)
Definition midRound : World :=
  {| heap :=
       imap (fun i c =>
               if Nat.eqb i 1 then leavingFlag else
               {| code := country_code c; name := country_name c;
                  status := if Nat.eqb i 0 then active else eliminated;
                  physics :=
                    {| x := if Nat.eqb i 0 then 0 else 500; y := 0;
                       vx := 2; vy := 0; angle := 0; vAngle := 0 |} |})
            countriesList;
     st_flags := seq 0 (length countriesList);
     st_winner := None;
     st_visualPathLength := (360 - 45) / 360;
     st_leaderboard := [];
     ringRotation := 0; ringOpacity := 1;
     physicsRef := scatterRef (seq 0 (length countriesList));
     startTimeoutRef := Some 1%nat;
     timers := []; nextTimer := 2; clock := 30000; rng := 100 |}.

(** A flag on its way out, one step short of two and a half radii. *)
Definition departingFlag : CountryFlag :=
  {| code := "jp"; name := "Japan"; status := exiting;
     physics := {| x := 399; y := 0; vx := 32 / 10; vy := 0;
                   angle := 0; vAngle := 14 |} |}.

(** A round with two flags still active, at rest at the centre, the third
    flag of the roster on its way out and the others eliminated. *)
Definition busyRound : World :=
  {| heap :=
       imap (fun i c =>
               if Nat.eqb i 2 then departingFlag else
               {| code := country_code c; name := country_name c;
                  status := if Nat.ltb i 2 then active else eliminated;
                  physics :=
                    {| x := if Nat.ltb i 2 then 0 else 500; y := 0;
                       vx := 0; vy := 0; angle := 0; vAngle := 0 |} |})
            countriesList;
     st_flags := seq 0 (length countriesList);
     st_winner := None;
     st_visualPathLength := (360 - 45) / 360;
     st_leaderboard := [];
     ringRotation := 0; ringOpacity := 1;
     physicsRef := scatterRef (seq 0 (length countriesList));
     startTimeoutRef := Some 1%nat;
     timers := []; nextTimer := 2; clock := 30000; rng := 100 |}.

(** ** Further invariants of the mounted component *)

(** The ring and its gap: the angle within one turn and mirrored in the
    MotionValue the ring is drawn from, the gap at its place, and the arc
    drawn ending where the gap starts. *)
Definition ringInvariant (w : World) : Prop :=
  0 <= ringAngle (physicsRef w) < 360 /\
  ringRotation w = ringAngle (physicsRef w) /\
  gapStart (physicsRef w) = 315 /\
  gapEnd (physicsRef w) = 360 /\
  st_visualPathLength w * 360 = gapStart (physicsRef w).

(** Where the flags of the round are: an active one never beyond the
    boundary less its radius, and in the formation phase all of them active
    on the circle of the initial radius. *)
Definition placed (w : World) : Prop :=
  forall a f,
    a ∈ flags (physicsRef w) -> heap w !! a = Some f ->
    (status f = active ->
     distance (physics f) <= BOUNDARY_RADIUS - FLAG_RADIUS) /\
    (phase (physicsRef w) = formation ->
     status f = active /\ distance (physics f) = INITIAL_RADIUS).

(** The pending timers: handles positive, below the next one and distinct;
    a pending timer is the change to scatter exactly when its handle is the
    one in [startTimeoutRef]; and one is pending exactly in the formation
    phase. *)
Definition timersInvariant (w : World) : Prop :=
  (1 <= nextTimer w)%nat /\
  (forall t, t ∈ timers w -> (1 <= tid t < nextTimer w)%nat) /\
  NoDup (tid <$> timers w) /\
  (forall t, t ∈ timers w ->
     (callback t = StartScatter <-> startTimeoutRef w = Some (tid t))) /\
  (forall id, startTimeoutRef w = Some id -> (1 <= id < nextTimer w)%nat) /\
  (phase (physicsRef w) = formation <-> pending StartScatter w <> []).

(** The leaderboard: in descending order of wins, one entry a code, every
    entry with a win at least. *)
Definition leaderboardInvariant (l : list LeaderboardEntry) : Prop :=
  StronglySorted (fun a b => (wins a >= wins b)%Z) l /\
  NoDup (entry_code <$> l) /\
  (forall e, e ∈ l -> (1 <= wins e)%Z).

(** The wins of a leaderboard, added up. *)
Definition totalWins (l : list LeaderboardEntry) : Z :=
  foldr (fun e acc => (wins e + acc)%Z) 0%Z l.

(** A round started at host time [c]: no change to scatter is due before
    [c + 2000], and the phase is not scatter before then. *)
Definition startedAt (c : N) (w : World) : Prop :=
  (c <= clock w)%N /\
  (forall t, t ∈ timers w -> callback t = StartScatter ->
             (c + 2000 <= due t)%N) /\
  (phase (physicsRef w) = scatter -> (c + 2000 <= clock w)%N).

(** A winner declared at host time [c], leaving the state [won]: no
    restart is due before [c + 5000], and until then the round is stopped
    and what the win wrote is as the win left it. *)
Definition wonAt (c : N) (won w : World) : Prop :=
  (c <= clock w)%N /\
  (forall t, t ∈ timers w -> callback t = AutoRestart ->
             (c + 5000 <= due t)%N) /\
  ((clock w < c + 5000)%N ->
   isRunning (physicsRef w) = false /\
   st_winner w = st_winner won /\
   st_leaderboard w = st_leaderboard won /\
   st_flags w = st_flags won /\
   heap w = heap won /\
   ringOpacity w = 0).

(** A code and a name that are those of one country of the roster. *)
Definition fromRoster (c n : string) : Prop :=
  exists co, co ∈ countriesList /\ c = country_code co /\ n = country_name co.

(** The flags of the round are countries of the roster, and so are the
    entries of the leaderboard, which is in order. *)
Definition rosterInvariant (w : World) : Prop :=
  leaderboardInvariant (st_leaderboard w) /\
  (forall e, e ∈ st_leaderboard w -> fromRoster (entry_code e) (entry_name e)) /\
  (forall a f, a ∈ flags (physicsRef w) -> heap w !! a = Some f ->
     fromRoster (code f) (name f)).

(** The winner and the state of the round: while the round runs no winner
    is set, the ring is shown and no restart is pending; once it has stopped
    the phase is scatter, the ring is faded out, one restart is pending, the
    winner state points at a flag of the round, still active there, and the
    array shown holds its copy of status winner. *)
Definition winnerInvariant (w : World) : Prop :=
  if isRunning (physicsRef w) then
    st_winner w = None /\ ringOpacity w = 1 /\ pending AutoRestart w = []
  else
    phase (physicsRef w) = scatter /\ ringOpacity w = 0 /\
    length (pending AutoRestart w) = 1%nat /\
    exists wa wf a',
      st_winner w = Some wa /\ wa ∈ flags (physicsRef w) /\
      heap w !! wa = Some wf /\ status wf = active /\
      a' ∈ st_flags w /\ heap w !! a' = Some (set_status winner wf).

(** Lines 450-462: the banner under the ring, shown when a winner is set,
    with the winner's name. *)
Definition championBanner (w : World) : option string :=
  wa ← st_winner w; name <$> heap w !! wa.

(** Lines 425-445 on the array shown, React skipping the nulls: the
    elements that a render made in the state [w] returns.  React evaluates
    these lines when a state of the component was set, which the component
    does in [initializeGame] and in the winner block only; in between, the
    screen keeps the elements of the last render, whatever the loop writes
    to the statuses since. *)
Definition renderFlags (hasMotion : string -> bool) (w : World)
  : list FlagElement :=
  omap (fun a => heap w !! a ≫= renderFlag hasMotion) (st_flags w).

Definition isWinnerElement (e : FlagElement) : bool :=
  match e with WinnerFlagElement _ => true | _ => false end.

(** Animation frames one after the other, each with its time and delta. *)
Definition frames (random : nat -> R) (ts : list (R * R)) (w : World)
  : World :=
  foldl (fun w td => frame random td.1 td.2 w) w ts.

(** Lines 319-335 at an exiting flag: what one visit makes of it. *)
Definition fly (f : CountryFlag) : CountryFlag :=
  let flag1 := set_physics (integrate (physics f)) f in
  if decide (distance (integrate (physics f)) > BOUNDARY_RADIUS * (25 / 10))
  then set_status eliminated flag1 else flag1.

(** * Properties *)

(** ** Angle normalization *)

Lemma Int_part_bounds (r : R) : IZR (Int_part r) <= r < IZR (Int_part r) + 1.
Proof. destruct (base_Int_part r) as [H1 H2]. lra. Qed.

(** The normalized angle is the remainder of the floored division. *)
Lemma normalizeAngle_floor (a : R) :
  normalizeAngle a = a - 360 * IZR (Int_part (a / 360)).
Proof.
  unfold normalizeAngle, Rrem, Rtrunc.
  destruct (decide (0 <= a / 360)) as [Hpos | Hneg].
  - pose proof (Int_part_bounds (a / 360)) as [Hlo Hhi].
    destruct (decide (a - IZR (Int_part (a / 360)) * 360 < 0)); lra.
  - pose proof (Int_part_bounds (- (a / 360))) as [Hlo Hhi].
    rewrite opp_IZR.
    set (m := Int_part (- (a / 360))) in *.
    destruct (decide (a - - IZR m * 360 < 0)) as [Hlt | Hge].
    + assert (Hk : (- m - 1)%Z = Int_part (a / 360)).
      { apply Int_part_spec. rewrite minus_IZR, opp_IZR. simpl. lra. }
      rewrite <- Hk, minus_IZR, opp_IZR. simpl. lra.
    + assert (Hk : (- m)%Z = Int_part (a / 360)).
      { apply Int_part_spec. rewrite opp_IZR. lra. }
      rewrite <- Hk, opp_IZR. lra.
Qed.

Lemma normalizeAngle_range (a : R) : 0 <= normalizeAngle a < 360.
Proof.
  rewrite normalizeAngle_floor.
  pose proof (Int_part_bounds (a / 360)). lra.
Qed.

(** The only number of [0, 360) that differs from [a] by whole turns. *)
Lemma normalizeAngle_unique (a r : R) (k : Z) :
  0 <= r < 360 -> a = r + 360 * IZR k -> normalizeAngle a = r.
Proof.
  intros Hr ->. rewrite normalizeAngle_floor.
  assert (Hk : k = Int_part ((r + 360 * IZR k) / 360)).
  { apply Int_part_spec. lra. }
  rewrite <- Hk. lra.
Qed.

Lemma normalizeAngle_turns (a : R) :
  exists k : Z, a = normalizeAngle a + 360 * IZR k.
Proof.
  exists (Int_part (a / 360)). rewrite normalizeAngle_floor. lra.
Qed.

(** The claim C8 fails on the program: on binary64 numbers the remainder of
    -1e-20 by 360 is -1e-20 itself, negative, and the sum of line 40,
    -1e-20 + 360, rounds to 360; so [normalizeAngle(-1e-20)] is 360, which
    is not below 360. *)
Lemma normalizeAngle_binary64_reaches_360 :
  PrimFloat.ltb Binary64.minusTiny Binary64.zero = true /\
  Binary64.fmod Binary64.minusTiny Binary64.fullTurn = Binary64.minusTiny /\
  PrimFloat.add Binary64.minusTiny Binary64.fullTurn = Binary64.fullTurn /\
  Binary64.normalizeAngle Binary64.minusTiny = Binary64.fullTurn /\
  PrimFloat.ltb (Binary64.normalizeAngle Binary64.minusTiny) Binary64.fullTurn
  = false.
Proof. vm_compute. repeat split. Qed.

Lemma Int_part_le (r s : R) : r <= s -> (Int_part r <= Int_part s)%Z.
Proof.
  intros Hrs. pose proof (Int_part_bounds r). pose proof (Int_part_bounds s).
  assert (Hlt : (Int_part r < Int_part s + 1)%Z).
  { apply lt_IZR. rewrite plus_IZR. lra. }
  lia.
Qed.

Lemma roundToInteger_monotone (r s : R) :
  r <= s -> roundToInteger r <= roundToInteger s.
Proof.
  intros Hrs. unfold roundToInteger. apply IZR_le, Int_part_le. lra.
Qed.

Lemma roundToInteger_whole (k : Z) : roundToInteger (IZR k) = IZR k.
Proof.
  unfold roundToInteger. f_equal. symmetry. apply Int_part_spec. lra.
Qed.

(** C8, as the code has it: in exact real arithmetic [normalizeAngle] maps
    every number into [0, 360) and adding any whole number of turns,
    [360 * k] with [k] an integer, does not change its result.  With the sum
    of line 40 rounded, by any rounding that keeps the order and leaves 0
    and 360 as they are (as rounding to the nearest float does), the result
    is within [0, 360], it is the exact one whenever the input is not
    negative, and 360 itself can only come from a negative input. *)
Theorem normalizeAngle_range_periodic :
  (forall a : R, 0 <= normalizeAngle a < 360) /\
  (forall (a : R) (k : Z), normalizeAngle (a + 360 * IZR k) = normalizeAngle a) /\
  (forall a : R, normalizeAngleRounded (fun r => r) a = normalizeAngle a) /\
  (forall rnd : R -> R,
     (forall r s : R, r <= s -> rnd r <= rnd s) ->
     rnd 0 = 0 -> rnd 360 = 360 ->
     forall a : R,
       0 <= normalizeAngleRounded rnd a <= 360 /\
       (0 <= a -> normalizeAngleRounded rnd a = normalizeAngle a) /\
       (normalizeAngleRounded rnd a = 360 -> a < 0)).
Proof.
  split; [exact normalizeAngle_range |].
  split.
  { intros a k.
    destruct (normalizeAngle_turns a) as [j Hj].
    apply (normalizeAngle_unique _ _ (j + k)%Z); [apply normalizeAngle_range |].
    rewrite plus_IZR. lra. }
  split; [reflexivity |].
  intros rnd Hmono H0 H360 a.
  pose proof (normalizeAngle_range a) as Hrange.
  assert (Hnonneg : 0 <= a -> normalizeAngleRounded rnd a = normalizeAngle a).
  { intros Ha. unfold normalizeAngleRounded, normalizeAngle, Rrem, Rtrunc.
    pose proof (Int_part_bounds (a / 360)).
    destruct (decide (0 <= a / 360)); [| lra].
    destruct (decide (_ < 0)); [lra | reflexivity]. }
  split; [| split; [exact Hnonneg |]].
  - unfold normalizeAngleRounded. unfold normalizeAngle in Hrange.
    destruct (decide (Rrem a 360 < 0)); [| lra].
    pose proof (Hmono 0 (Rrem a 360 + 360)) as Hlo.
    pose proof (Hmono (Rrem a 360 + 360) 360) as Hhi.
    rewrite H0 in Hlo. rewrite H360 in Hhi. lra.
  - intros Heq. destruct (Rlt_le_dec a 0) as [Hneg | Hpos]; [done |].
    rewrite (Hnonneg Hpos) in Heq. lra.
Qed.

(** A hundredth of a degree below zero, the sum rounded to the nearest
    whole number: the result is 360. *)
Lemma normalizeAngle_range_periodic_witness :
  normalizeAngleRounded roundToInteger (- (1 / 100)) = 360 /\
  0 <= normalizeAngleRounded roundToInteger (- (1 / 100)) <= 360.
Proof.
  destruct normalizeAngle_range_periodic as (_ & _ & _ & Hrounded).
  destruct (Hrounded roundToInteger roundToInteger_monotone
              (roundToInteger_whole 0) (roundToInteger_whole 360)
              (- (1 / 100))) as (Hrange & _).
  split; [| exact Hrange].
  unfold normalizeAngleRounded, Rrem, Rtrunc.
  destruct (decide (0 <= - (1 / 100) / 360)); [lra |].
  assert (Hz : 0%Z = Int_part (- (- (1 / 100) / 360)))
    by (apply Int_part_spec; simpl; lra).
  rewrite <- Hz. change (IZR (- 0)) with 0.
  destruct (decide (_ < 0)); [| lra].
  unfold roundToInteger. f_equal. symmetry. apply Int_part_spec. lra.
Defined.

(** ** The live gap test *)

Lemma isInsideGap_true_iff (gapS gapE ringAng a : R) :
  isInsideGap gapS gapE ringAng a = true <->
  (let s := normalizeAngle (gapS + ringAng - GAP_TOLERANCE) in
   let e := normalizeAngle (gapE + ringAng + GAP_TOLERANCE) in
   if decide (s < e) then a >= s /\ a <= e else a >= s \/ a <= e).
Proof.
  unfold isInsideGap. cbv zeta.
  destruct (decide (_ < _)).
  - rewrite andb_true_iff, !bool_decide_eq_true. reflexivity.
  - rewrite orb_true_iff, !bool_decide_eq_true. reflexivity.
Qed.





(** ** The bounce *)

Lemma distance_nonneg (p : PhysicsState) : 0 <= distance p.
Proof. apply sqrt_pos. Qed.

Lemma distance_sqr (p : PhysicsState) :
  distance p * distance p = x p * x p + y p * y p.
Proof. unfold distance. apply sqrt_def. nra. Qed.

(** At a boundary event the flag is well away from the centre, so the
    normal [(x / dist, y / dist)] is a unit vector. *)
Lemma boundary_event_pos (p : PhysicsState) :
  distance p + FLAG_RADIUS >= BOUNDARY_RADIUS -> 0 < distance p.
Proof. unfold FLAG_RADIUS, BOUNDARY_RADIUS. lra. Qed.

Lemma unit_normal (p : PhysicsState) :
  0 < distance p ->
  (x p / distance p) * (x p / distance p)
  + (y p / distance p) * (y p / distance p) = 1.
Proof.
  intros Hd. pose proof (distance_sqr p) as Hsq.
  set (d := distance p) in *.
  replace (x p / d * (x p / d) + y p / d * (y p / d))
    with ((x p * x p + y p * y p) / (d * d)) by (field; lra).
  rewrite <- Hsq. field. lra.
Qed.

Lemma reflect_speed (p : PhysicsState) :
  0 < distance p -> speed (reflect (distance p) p) = speed p.
Proof.
  intros Hd. pose proof (unit_normal p Hd) as Hn.
  unfold speed, reflect. cbn [vx vy].
  set (nx := x p / distance p) in *. set (ny := y p / distance p) in *.
  set (d := vx p * nx + vy p * ny).
  f_equal.
  replace ((vx p - 2 * d * nx) * (vx p - 2 * d * nx)
           + (vy p - 2 * d * ny) * (vy p - 2 * d * ny))
    with (vx p * vx p + vy p * vy p
          + 4 * d * d * (nx * nx + ny * ny - 1)) by (unfold d; ring).
  rewrite Hn. ring.
Qed.

(** C5: at a boundary event, mirroring the velocity at the outward unit
    normal, [v' = v - 2 (v . n) n], keeps the speed: [|v'| = |v|], exactly;
    the push-back of the position leaves that velocity as it is, and the
    bounce is this followed by the random nudge, so with a zero nudge (both
    draws one half) the whole bounce keeps the speed. *)
Theorem bounce_reflection_preserves_speed (p : PhysicsState) :
  distance p + FLAG_RADIUS >= BOUNDARY_RADIUS ->
  let dist := distance p in
  let n := (x p / dist, y p / dist) in
  let dot := vx p * fst n + vy p * snd n in
  vx (reflect dist p) = vx p - 2 * dot * fst n /\
  vy (reflect dist p) = vy p - 2 * dot * snd n /\
  fst n * fst n + snd n * snd n = 1 /\
  speed (reflect dist p) = speed p /\
  speed (pushBack dist (reflect dist p)) = speed p /\
  (forall r1 r2,
     bounce dist r1 r2 p = perturb r1 r2 (pushBack dist (reflect dist p))) /\
  speed (bounce dist (1 / 2) (1 / 2) p) = speed p.
Proof.
  intros Hev. pose proof (boundary_event_pos p Hev) as Hd. cbv zeta.
  cbn [fst snd].
  split; [reflexivity |]. split; [reflexivity |].
  split; [exact (unit_normal p Hd) |].
  split; [exact (reflect_speed p Hd) |].
  split; [exact (reflect_speed p Hd) |].
  split; [reflexivity |].
  rewrite <- (reflect_speed p Hd).
  unfold speed, bounce, perturb, pushBack. cbn [vx vy].
  f_equal. field.
Qed.

Lemma pushBack_distance (p : PhysicsState) :
  distance p + FLAG_RADIUS >= BOUNDARY_RADIUS ->
  distance (pushBack (distance p) p) = BOUNDARY_RADIUS - FLAG_RADIUS.
Proof.
  intros Hev. pose proof (boundary_event_pos p Hev) as Hd.
  pose proof (distance_sqr p) as Hsq.
  unfold distance at 1. unfold pushBack. cbn [x y].
  set (d := distance p) in *.
  set (k := BOUNDARY_RADIUS - FLAG_RADIUS).
  replace ((x p - x p / d * (d + FLAG_RADIUS - BOUNDARY_RADIUS))
           * (x p - x p / d * (d + FLAG_RADIUS - BOUNDARY_RADIUS))
           + (y p - y p / d * (d + FLAG_RADIUS - BOUNDARY_RADIUS))
             * (y p - y p / d * (d + FLAG_RADIUS - BOUNDARY_RADIUS)))
    with ((x p * x p + y p * y p) / (d * d) * (k * k))
    by (unfold k; field; lra).
  rewrite <- Hsq.
  replace (d * d / (d * d) * (k * k)) with (k * k) by (field; lra).
  apply sqrt_square. unfold k, BOUNDARY_RADIUS, FLAG_RADIUS. lra.
Qed.

(** ** One visit of the pass *)

Section Visit.

Variable random : nat -> R.

Implicit Types (ref : PhysicsRef) (st : Pass) (a b : addr).

Ltac visit_cases :=
  unfold visit;
  repeat first [ case_match | case_decide ]; simplify_eq/=.

Lemma visit_length ref st a :
  length (pass_heap (visit random ref st a)) = length (pass_heap st).
Proof. visit_cases; rewrite ?length_insert; reflexivity. Qed.

Lemma visit_other ref st a b :
  a <> b -> pass_heap (visit random ref st a) !! b = pass_heap st !! b.
Proof.
  intros Hne. visit_cases; rewrite ?list_lookup_insert_ne by done; reflexivity.
Qed.

Lemma visit_activeCount ref st a :
  activeCount (visit random ref st a) =
  (activeCount st +
   if bool_decide (statusAt (pass_heap st) a = Some active) then 1 else 0)%nat.
Proof.
  unfold statusAt, visit.
  destruct (pass_heap st !! a) as [flag |] eqn:Hflag; simpl.
  - destruct (status flag) eqn:Hs; simpl;
      repeat first [ case_match | case_decide ]; simplify_eq/=; lia.
  - lia.
Qed.

Lemma forward_refl (s : FlagStatus) : forward s s.
Proof. left. reflexivity. Qed.

(** What a visit leaves at the visited address: the same participant, one
    move further at most. *)
Lemma visit_at ref st a f :
  pass_heap st !! a = Some f ->
  exists f', pass_heap (visit random ref st a) !! a = Some f'
             /\ code f' = code f /\ name f' = name f
             /\ forward (status f) (status f').
Proof.
  intros Hf. pose proof (lookup_lt_Some _ _ _ Hf) as Hlt.
  unfold visit. rewrite Hf.
  destruct (status f) eqn:Hs;
    repeat first [ case_match | case_decide ]; simplify_eq;
    cbn [pass_heap];
    rewrite ?list_lookup_insert_eq by done; rewrite ?Hf;
    eexists; (split; [reflexivity |]);
    cbn [code name status set_status set_physics]; rewrite ?Hs;
    unfold forward; intuition auto.
Qed.

(** The active flag in the scatter phase, in full. *)
Lemma visit_active_scatter ref st a f :
  phase ref = scatter ->
  pass_heap st !! a = Some f ->
  status f = active ->
  let p1 := integrate (physics f) in
  let dist := distance p1 in
  let flagAngle := normalizeAngle (atan2 (y p1) (x p1) * (180 / PI)) in
  let r1 := random (pass_rng st) in
  let r2 := random (S (pass_rng st)) in
  pass_heap (visit random ref st a) !! a =
  Some (if decide (dist + FLAG_RADIUS >= BOUNDARY_RADIUS) then
          if isInsideGap (gapStart ref) (gapEnd ref) (ringAngle ref) flagAngle
             && bool_decide (1 < S (activeCount st))%nat
          then set_physics (exitBoost r1 r2 p1) (set_status exiting f)
          else set_physics (bounce dist r1 r2 p1) f
        else set_physics p1 f).
Proof.
  intros Hph Hf Hs. pose proof (lookup_lt_Some _ _ _ Hf) as Hlt.
  cbv zeta. unfold visit. rewrite Hf, Hph, Hs.
  repeat first [ case_match | case_decide ]; simplify_eq;
    cbn [pass_heap activeCount] in *;
    rewrite ?list_lookup_insert_eq by done; congruence.
Qed.

Lemma visit_potentialWinner ref st a :
  potentialWinner (visit random ref st a) =
  if bool_decide (statusAt (pass_heap st) a = Some active) then Some a
  else potentialWinner st.
Proof.
  unfold statusAt, visit.
  destruct (pass_heap st !! a) as [flag |] eqn:Hflag; simpl.
  - destruct (status flag) eqn:Hs; simpl;
      repeat first [ case_match | case_decide ]; simplify_eq/=; reflexivity.
  - reflexivity.
Qed.

(** The guard of line 298 at the first active flag of a pass: with no
    active flag counted before it, it stays active. *)
Lemma visit_sole_active ref st a :
  statusAt (pass_heap st) a = Some active ->
  activeCount st = 0%nat ->
  statusAt (pass_heap (visit random ref st a)) a = Some active.
Proof.
  unfold statusAt. intros Hs Hc.
  destruct (pass_heap st !! a) as [f |] eqn:Hf; [| discriminate].
  injection Hs as Hs.
  destruct (phase ref) eqn:Hph.
  - pose proof (lookup_lt_Some _ _ _ Hf) as Hlt.
    unfold visit. rewrite Hf, Hph.
    rewrite decide_False by congruence. cbn [pass_heap].
    rewrite list_lookup_insert_eq by done. simpl. congruence.
  - rewrite (visit_active_scatter ref st a f Hph Hf Hs). rewrite Hc.
    rewrite (bool_decide_eq_false_2 (1 < 1)%nat) by lia.
    rewrite andb_false_r. case_decide; simpl; congruence.
Qed.

End Visit.

(** ** The pass over the array *)

Section PassInvariant.

Variable random : nat -> R.

Implicit Types (ref : PhysicsRef) (h : list CountryFlag) (l : list addr).
Implicit Types (a b : addr) (s : FlagStatus).

Lemma countStatus_app s h l1 l2 :
  countStatus s h (l1 ++ l2) = (countStatus s h l1 + countStatus s h l2)%nat.
Proof. unfold countStatus. rewrite filter_app, length_app. reflexivity. Qed.

Lemma countStatus_cons s h a l :
  countStatus s h (a :: l) =
  ((if bool_decide (statusAt h a = Some s) then 1 else 0) + countStatus s h l)%nat.
Proof.
  unfold countStatus. rewrite filter_cons.
  case_decide; case_bool_decide; simpl; try reflexivity; contradiction.
Qed.

Lemma countStatus_snoc s h l a :
  countStatus s h (l ++ [a]) =
  (countStatus s h l + if bool_decide (statusAt h a = Some s) then 1 else 0)%nat.
Proof.
  rewrite countStatus_app, countStatus_cons.
  replace (countStatus s h []) with 0%nat by reflexivity. lia.
Qed.

Lemma countStatus_pos s h l b :
  b ∈ l -> statusAt h b = Some s -> (1 <= countStatus s h l)%nat.
Proof.
  intros Hin Hb. induction Hin as [b l | b c l Hin IH];
    rewrite countStatus_cons.
  - rewrite bool_decide_eq_true_2 by done. lia.
  - specialize (IH Hb). lia.
Qed.

Lemma countStatus_le s h h' l :
  (forall b, b ∈ l -> statusAt h' b = Some s -> statusAt h b = Some s) ->
  (countStatus s h' l <= countStatus s h l)%nat.
Proof.
  induction l as [| a l IH]; intros Himp; [reflexivity |].
  rewrite !countStatus_cons.
  assert (countStatus s h' l <= countStatus s h l)%nat as Hle.
  { apply IH. intros b Hb. apply Himp. by right. }
  repeat case_bool_decide; try lia.
  exfalso. match goal with H : ¬ _ |- _ => apply H end.
  apply Himp; [by left | done].
Qed.

(** Two distinct places of an array that hold status [s]. *)
Lemma countStatus_two s h pre a post b :
  b ∈ pre -> statusAt h b = Some s -> statusAt h a = Some s ->
  (2 <= countStatus s h (pre ++ a :: post))%nat.
Proof.
  intros Hb Hsb Hsa. rewrite countStatus_app, countStatus_cons.
  pose proof (countStatus_pos s h pre b Hb Hsb).
  rewrite bool_decide_eq_true_2 by done. lia.
Qed.

Lemma forward_to_active s s' : forward s s' -> s' = active -> s = active.
Proof. unfold forward. intros [-> | [[-> ->] | [-> ->]]]; congruence. Qed.

(** What holds after any prefix [l] of the pass, started on the store [h]. *)
Lemma pass_prefix ref h r l :
  NoDup l ->
  let st := foldl (visit random ref) (startPass h r) l in
  length (pass_heap st) = length h /\
  (forall b, b ∉ l -> pass_heap st !! b = h !! b) /\
  (forall b f, h !! b = Some f ->
     exists f', pass_heap st !! b = Some f' /\ code f' = code f
                /\ name f' = name f /\ forward (status f) (status f')) /\
  activeCount st = countStatus active h l /\
  (1 <= activeCount st ->
     exists b, b ∈ l /\ statusAt (pass_heap st) b = Some active)%nat /\
  (activeCount st = 0%nat -> potentialWinner st = None) /\
  (activeCount st = 1%nat ->
     exists b, potentialWinner st = Some b /\ b ∈ l
               /\ statusAt (pass_heap st) b = Some active).
Proof.
  induction l as [| a l IH] using rev_ind; intros Hnd; cbv zeta.
  - simpl. repeat split; try done.
    + intros b f Hf. exists f. repeat split; try done. apply forward_refl.
    + intros H. lia.
  - apply NoDup_app in Hnd as (Hnd & Hdisj & _).
    assert (Ha : a ∉ l).
    { intros Hin. apply (Hdisj a Hin). by left. }
    specialize (IH Hnd). cbv zeta in IH.
    rewrite foldl_snoc.
    set (st := foldl (visit random ref) (startPass h r) l) in *.
    destruct IH as (Hlen & Hout & Hfwd & Hcnt & Hpos & Hnone & Hone).
    assert (Hsa : statusAt (pass_heap st) a = statusAt h a).
    { unfold statusAt. by rewrite Hout. }
    assert (Hkeep : forall b, b ∈ l ->
              statusAt (pass_heap (visit random ref st a)) b
              = statusAt (pass_heap st) b).
    { intros b Hb. unfold statusAt. rewrite visit_other; [done |].
      intros ->. contradiction. }
    split; [by rewrite visit_length |].
    split.
    { intros b Hb. rewrite visit_other.
      - apply Hout. intros Hin. apply Hb. apply elem_of_app. by left.
      - intros ->. apply Hb. apply elem_of_app. right. by left. }
    split.
    { intros b f Hf. destruct (decide (a = b)) as [-> | Hne].
      - apply visit_at. by rewrite Hout.
      - rewrite visit_other by done. by apply Hfwd. }
    split.
    { rewrite visit_activeCount, countStatus_snoc, Hsa, Hcnt. reflexivity. }
    rewrite visit_activeCount, visit_potentialWinner.
    destruct (bool_decide (statusAt (pass_heap st) a = Some active)) eqn:Hact.
    + apply bool_decide_eq_true in Hact.
      split; [| split].
      * intros _. destruct (decide (activeCount st = 0%nat)) as [Hz | Hnz].
        -- exists a. split; [apply elem_of_app; right; by left |].
           by apply visit_sole_active.
        -- destruct Hpos as (b & Hb & Hsb); [lia |].
           exists b. split; [apply elem_of_app; by left |].
           by rewrite Hkeep.
      * intros H. lia.
      * intros H. exists a. split; [done |].
        split; [apply elem_of_app; right; by left |].
        apply visit_sole_active; [done | lia].
    + rewrite Nat.add_0_r.
      split; [| split].
      * intros H. destruct (Hpos H) as (b & Hb & Hsb).
        exists b. split; [apply elem_of_app; by left |]. by rewrite Hkeep.
      * done.
      * intros H. destruct (Hone H) as (b & Hw & Hb & Hsb).
        exists b. split; [done |].
        split; [apply elem_of_app; by left |]. by rewrite Hkeep.
Qed.

End PassInvariant.

(** ** Marking the winner *)

Lemma markWinner_spec (wcode : string) (l : list addr) :
  forall (h h' : list CountryFlag) (r : list addr),
  (forall a, a ∈ l -> (a < length h)%nat) ->
  markWinner wcode h l = (h', r) ->
  (exists ext, h' = h ++ ext) /\
  length r = length l /\
  forall i a, l !! i = Some a ->
    exists a' f, r !! i = Some a' /\ h !! a = Some f /\
      ((a' = a /\ code f <> wcode) \/
       (code f = wcode /\ (length h <= a')%nat
        /\ h' !! a' = Some (set_status winner f))).
Proof.
  induction l as [| a l IH]; intros h h' r Hval Hmw; cbn [markWinner] in Hmw.
  - injection Hmw as <- <-. split; [exists []; by rewrite app_nil_r |].
    split; [done |]. intros i a Hi. by rewrite lookup_nil in Hi.
  - assert (Ha : (a < length h)%nat) by (apply Hval; by left).
    assert (Hval' : forall b, b ∈ l -> (b < length h)%nat).
    { intros b Hb. apply Hval. by right. }
    destruct (lookup_lt_is_Some_2 h a Ha) as [f Hf]. rewrite Hf in Hmw.
    destruct (String.eqb_spec (code f) wcode) as [Hc | Hc].
    + destruct (markWinner wcode (h ++ [set_status winner f]) l)
        as [h0 r0] eqn:Hrec.
      injection Hmw as <- <-.
      assert (Hval1 : forall b, b ∈ l ->
                (b < length (h ++ [set_status winner f]))%nat).
      { intros b Hb. rewrite length_app. specialize (Hval' b Hb). lia. }
      destruct (IH _ _ _ Hval1 Hrec) as ((ext & Hext) & Hlen & Hpt).
      split; [exists (set_status winner f :: ext);
              by rewrite Hext, <- app_assoc |].
      split; [simpl; by rewrite Hlen |].
      intros [| i] b Hb; simpl in Hb.
      * injection Hb as <-. exists (length h), f.
        split; [done |]. split; [done |]. right.
        split; [done |]. split; [done |].
        rewrite Hext, <- app_assoc. by apply list_lookup_middle.
      * destruct (Hpt i b Hb) as (a' & g & Hr & Hg & Hcase).
        assert (Hb' : (b < length h)%nat).
        { apply Hval'. by eapply list_elem_of_lookup_2. }
        rewrite lookup_app_l in Hg by done.
        exists a', g. split; [done |]. split; [done |].
        destruct Hcase as [[-> Hne] | (He & Hle & Hlk)]; [by left |].
        right. split; [done |]. split; [| done].
        rewrite length_app in Hle. lia.
    + destruct (markWinner wcode h l) as [h0 r0] eqn:Hrec.
      injection Hmw as <- <-.
      destruct (IH _ _ _ Hval' Hrec) as (Hext & Hlen & Hpt).
      split; [done |]. split; [simpl; by rewrite Hlen |].
      intros [| i] b Hb; simpl in Hb.
      * injection Hb as <-. exists a, f. split; [done |]. split; [done |].
        by left.
      * by apply Hpt.
Qed.

(** ** One frame *)

Section Frame.

Variable random : nat -> R.

Implicit Types (w : World) (st : Pass) (a b : addr).

Lemma frame_stopped time delta w :
  isRunning (physicsRef w) = false -> frame random time delta w = w.
Proof. intros H. unfold frame. by rewrite H. Qed.

(** The frame either returns at line 223, or makes the pass and then,
    under the test of line 341, declares the winner. *)
Lemma frame_cases time delta w :
  frame random time delta w = w \/
  isRunning (physicsRef w) = true /\
  let st := (physicsPass random w).1 in
  let w1 := (physicsPass random w).2 in
  (frame random time delta w = w1 \/
   exists wa wf,
     potentialWinner st = Some wa /\ activeCount st = 1%nat /\
     phase (physicsRef w) = scatter /\ heap w1 !! wa = Some wf /\
     frame random time delta w = declareWinner wa wf w1).
Proof.
  unfold frame.
  destruct (isRunning (physicsRef w)) eqn:Hrun; cbn [negb orb]; [| by left].
  case_bool_decide; [by left |]. right. split; [done |].
  destruct (physicsPass random w) as [st w1] eqn:Hpp. cbn [fst snd].
  assert (Hph : phase (physicsRef w1) = phase (physicsRef w)).
  { unfold physicsPass in Hpp. by injection Hpp as <- <-. }
  assert (Hr1 : isRunning (physicsRef w1) = true).
  { unfold physicsPass in Hpp. by injection Hpp as <- <-. }
  unfold winnerCheck.
  destruct (potentialWinner st) as [wa |]; [| by left].
  rewrite Hr1, Hph, andb_true_r.
  destruct (bool_decide (phase (physicsRef w) = scatter)) eqn:Hs;
    [| by left].
  destruct (bool_decide (activeCount st = 1%nat)) eqn:Hc; [| by left].
  apply bool_decide_eq_true in Hs, Hc. simpl.
  destruct (heap w1 !! wa) as [wf |] eqn:Hwf; [| by left].
  right. by exists wa, wf.
Qed.

(** The pass seen from the world: what it leaves alone. *)
Lemma physicsPass_frame w :
  let w1 := (physicsPass random w).2 in
  flags (physicsRef w1) = flags (physicsRef w) /\
  isRunning (physicsRef w1) = isRunning (physicsRef w) /\
  phase (physicsRef w1) = phase (physicsRef w) /\
  gapStart (physicsRef w1) = gapStart (physicsRef w) /\
  gapEnd (physicsRef w1) = gapEnd (physicsRef w) /\
  st_flags w1 = st_flags w /\ st_winner w1 = st_winner w /\
  st_leaderboard w1 = st_leaderboard w /\
  timers w1 = timers w /\ nextTimer w1 = nextTimer w /\
  clock w1 = clock w /\ startTimeoutRef w1 = startTimeoutRef w.
Proof. cbv zeta. unfold physicsPass. simpl. repeat split. Qed.

(** The pass seen from the world: what it does to the flags. *)
Lemma physicsPass_heap w :
  NoDup (flags (physicsRef w)) ->
  let st := (physicsPass random w).1 in
  let w1 := (physicsPass random w).2 in
  let fl := flags (physicsRef w) in
  heap w1 = pass_heap st /\
  length (heap w1) = length (heap w) /\
  (forall b, b ∉ fl -> heap w1 !! b = heap w !! b) /\
  (forall b f, heap w !! b = Some f ->
     exists f', heap w1 !! b = Some f' /\ code f' = code f
                /\ name f' = name f /\ forward (status f) (status f')) /\
  activeCount st = countStatus active (heap w) fl /\
  (1 <= activeCount st ->
     exists b, b ∈ fl /\ statusAt (heap w1) b = Some active)%nat /\
  (activeCount st = 1%nat ->
     exists b, potentialWinner st = Some b /\ b ∈ fl
               /\ statusAt (heap w1) b = Some active).
Proof.
  intros Hnd. cbv zeta. unfold physicsPass, pass. cbn [fst snd heap].
  set (ref := set_ringAngle _ _).
  change (flags (physicsRef w)) with (flags ref) in *.
  destruct (pass_prefix random ref (heap w) (rng w) (flags ref) Hnd)
    as (H1 & H2 & H3 & H4 & H5 & _ & H7).
  repeat split; assumption.
Qed.

Lemma statusAt_app_l (h ext : list CountryFlag) a :
  (a < length h)%nat -> statusAt (h ++ ext) a = statusAt h a.
Proof. intros H. unfold statusAt. by rewrite lookup_app_l. Qed.

Lemma codeAt_app_l (h ext : list CountryFlag) a :
  (a < length h)%nat -> codeAt (h ++ ext) a = codeAt h a.
Proof. intros H. unfold codeAt. by rewrite lookup_app_l. Qed.

Lemma countStatus_ext s (h h' : list CountryFlag) (l : list addr) :
  (forall b, b ∈ l -> statusAt h' b = statusAt h b) ->
  countStatus s h' l = countStatus s h l.
Proof.
  intros Heq. apply Nat.le_antisymm; apply countStatus_le; intros b Hb.
  - by rewrite Heq.
  - by rewrite <- Heq.
Qed.

Lemma countStatus_none s (h : list CountryFlag) (l : list addr) :
  (forall b, b ∈ l -> statusAt h b <> Some s) -> countStatus s h l = 0%nat.
Proof.
  induction l as [| a l IH]; intros Hno; [reflexivity |].
  rewrite countStatus_cons, IH.
  - rewrite bool_decide_eq_false_2; [done |]. apply Hno. by left.
  - intros b Hb. apply Hno. by right.
Qed.

Lemma filter_none {A} (P : A -> Prop) `{!forall x, Decision (P x)}
    (l : list A) :
  (forall y, y ∈ l -> ~ P y) -> filter P l = [].
Proof.
  induction l as [| x l IH]; intros Hno; [reflexivity |].
  rewrite filter_cons_False by (apply Hno; by left).
  apply IH. intros y Hy. apply Hno. by right.
Qed.

(** At most one place of an array satisfies a property that no two of its
    indices share. *)
Lemma filter_at_most_one {A} (P : A -> Prop) `{!forall x, Decision (P x)}
    (l : list A) :
  (forall i j x y, l !! i = Some x -> l !! j = Some y -> P x -> P y -> i = j) ->
  (length (filter P l) <= 1)%nat.
Proof.
  induction l as [| x l IH]; intros Huniq; [simpl; lia |].
  rewrite filter_cons. case_decide as Hx.
  - assert (Hnil : filter P l = []).
    { apply filter_none. intros y Hy Py.
      apply list_elem_of_lookup in Hy as [j Hj].
      specialize (Huniq 0%nat (S j) x y eq_refl Hj Hx Py). discriminate. }
    rewrite Hnil. simpl. lia.
  - apply IH. intros i j y z Hi Hj Py Pz.
    specialize (Huniq (S i) (S j) y z Hi Hj Py Pz). lia.
Qed.

End Frame.

(** ** The invariant of the mounted component *)

Section Invariant.

Variable random : nat -> R.
Variable sortRandomly : nat -> list Country -> list Country * nat.

Implicit Types (w : World) (st : Pass) (a b : addr).

Lemma forward_not_winner s s' : forward s s' -> s <> winner -> s' <> winner.
Proof. unfold forward. intros [-> | [[-> ->] | [-> ->]]]; congruence. Qed.

Lemma physicsPass_invariant w :
  roundInvariant w -> isRunning (physicsRef w) = true ->
  roundInvariant (physicsPass random w).2.
Proof.
  intros (Hnd & Hval & Hcodes & Hnw & Hact & Hshow & Hwin & Htl & Htr) Hrun.
  cbv zeta in *.
  destruct (physicsPass_frame random w)
    as (Hfl & Hr & _ & _ & _ & Hsf & _ & _ & Htm & _).
  destruct (physicsPass_heap random w Hnd)
    as (_ & Hlen & _ & Hfwd & Hcnt & Hpos & _).
  cbv zeta in *.
  set (w1 := (physicsPass random w).2) in *.
  assert (Hst : forall b, b ∈ flags (physicsRef w) ->
            exists f f', heap w !! b = Some f /\ heap w1 !! b = Some f'
                         /\ code f' = code f
                         /\ forward (status f) (status f')).
  { intros b Hb. destruct (lookup_lt_is_Some_2 _ _ (Hval b Hb)) as [f Hf].
    destruct (Hfwd b f Hf) as (f' & Hf' & Hc & _ & Hfw). by exists f, f'. }
  unfold roundInvariant. cbv zeta. rewrite Hfl, Hr, Hsf.
  assert (Hnw1 : forall b, b ∈ flags (physicsRef w) ->
            statusAt (heap w1) b <> Some winner).
  { intros b Hb. destruct (Hst b Hb) as (f & f' & Hf & Hf' & _ & Hfw).
    unfold statusAt. rewrite Hf'. simpl. intros [= Hw].
    apply (forward_not_winner _ _ Hfw); [| done].
    intros Hs. apply (Hnw b Hb). unfold statusAt. rewrite Hf. simpl.
    by rewrite Hs. }
  split; [done |].
  split; [intros b Hb; rewrite Hlen; by apply Hval |].
  split.
  { replace (codeAt (heap w1) <$> flags (physicsRef w))
      with (codeAt (heap w) <$> flags (physicsRef w)); [done |].
    apply list_fmap_ext. intros i b Hb.
    apply list_elem_of_lookup_2 in Hb.
    destruct (Hst b Hb) as (f & f' & Hf & Hf' & Hc & _).
    unfold codeAt. rewrite Hf, Hf'. simpl. by rewrite Hc. }
  split; [done |].
  split.
  { destruct Hpos as (b & Hb & Hsb); [by rewrite Hcnt |].
    by eapply countStatus_pos. }
  split; [done |].
  split.
  { rewrite (Hshow Hrun). rewrite countStatus_none; [lia | exact Hnw1]. }
  unfold pending. by rewrite Htm.
Qed.

Lemma declareWinner_fields wa wf w h' r :
  markWinner (code wf) (heap w) (flags (physicsRef w)) = (h', r) ->
  declareWinner wa wf w =
  {| heap := h'; st_flags := r; st_winner := Some wa;
     st_visualPathLength := st_visualPathLength w;
     st_leaderboard := updateLeaderboard wf (st_leaderboard w);
     ringRotation := ringRotation w; ringOpacity := 0;
     physicsRef := set_isRunning false (physicsRef w);
     startTimeoutRef := startTimeoutRef w;
     timers := timers w ++
               [ {| tid := nextTimer w; due := (clock w + 5000)%N;
                    callback := AutoRestart |} ];
     nextTimer := S (nextTimer w); clock := clock w; rng := rng w |}.
Proof. intros H. unfold declareWinner. rewrite H. reflexivity. Qed.

Lemma declareWinner_invariant wa wf w :
  roundInvariant w -> isRunning (physicsRef w) = true ->
  roundInvariant (declareWinner wa wf w).
Proof.
  intros (Hnd & Hval & Hcodes & Hnw & Hact & Hshow & Hwin & Htl & Htr) Hrun.
  cbv zeta in *.
  destruct (markWinner (code wf) (heap w) (flags (physicsRef w)))
    as [h' r] eqn:Hmw.
  rewrite (declareWinner_fields _ _ _ _ _ Hmw).
  destruct (markWinner_spec _ _ _ _ _ Hval Hmw) as ((ext & ->) & Hlen & Hpt).
  unfold roundInvariant. cbv zeta.
  cbn [heap st_flags physicsRef flags set_isRunning isRunning].
  assert (Hsame : forall b, b ∈ flags (physicsRef w) ->
            statusAt (heap w ++ ext) b = statusAt (heap w) b).
  { intros b Hb. apply statusAt_app_l. by apply Hval. }
  split; [done |].
  split; [intros b Hb; rewrite length_app; specialize (Hval b Hb); lia |].
  split.
  { replace (codeAt (heap w ++ ext) <$> flags (physicsRef w))
      with (codeAt (heap w) <$> flags (physicsRef w)); [done |].
    apply list_fmap_ext. intros i b Hb. symmetry. apply codeAt_app_l.
    apply Hval. by eapply list_elem_of_lookup_2. }
  split; [intros b Hb; rewrite Hsame by done; by apply Hnw |].
  split; [by rewrite (countStatus_ext _ _ _ _ Hsame) |].
  split; [done |].
  split.
  { unfold countStatus.
    apply filter_at_most_one. intros i j a1 a2 Hi Hj Hw1 Hw2.
    assert (Hcode : forall k a', r !! k = Some a' ->
              statusAt (heap w ++ ext) a' = Some winner ->
              (codeAt (heap w) <$> flags (physicsRef w)) !! k
              = Some (Some (code wf))).
    { intros k a' Hk Hw.
      destruct (lookup_lt_is_Some_2 (flags (physicsRef w)) k) as [b Hb].
      { rewrite <- Hlen. by eapply lookup_lt_Some. }
      destruct (Hpt k b Hb) as (a'' & f & Hr & Hf & Hcase).
      rewrite Hk in Hr. injection Hr as <-.
      rewrite list_lookup_fmap, Hb. simpl. unfold codeAt. rewrite Hf. simpl.
      destruct Hcase as [[-> Hne] | (Hc & _)]; [| by rewrite Hc].
      exfalso. apply (Hnw b); [by eapply list_elem_of_lookup_2 |].
      rewrite <- Hsame; [done | by eapply list_elem_of_lookup_2]. }
    eapply NoDup_lookup; [exact Hcodes | by eapply Hcode | by eapply Hcode]. }
  unfold pending. cbn [timers].
  assert (Hp : pending AutoRestart w = []).
  { destruct (pending AutoRestart w) eqn:Hp; [done |].
    rewrite Htr in Hrun; [discriminate | done]. }
  unfold pending in Hp. rewrite filter_app, Hp.
  rewrite filter_cons_True by reflexivity. rewrite filter_nil.
  cbn [app length]. split; [lia | done].
Qed.

Lemma frame_invariant time delta w :
  roundInvariant w -> roundInvariant (frame random time delta w).
Proof.
  intros Hinv.
  destruct (frame_cases random time delta w)
    as [-> | (Hrun & [-> | (wa & wf & _ & _ & _ & _ & ->)])]; [done | |].
  - by apply physicsPass_invariant.
  - apply declareWinner_invariant.
    + by apply physicsPass_invariant.
    + by destruct (physicsPass_frame random w) as (_ & -> & _).
Qed.

End Invariant.

(** ** Starting a round *)

Section StartRound.

Variable random : nat -> R.
Variable sortRandomly : nat -> list Country -> list Country * nat.

Implicit Types (w : World) (a b : addr).

Lemma cancelStartTimeout_fields w :
  let w1 := cancelStartTimeout w in
  heap w1 = heap w /\ rng w1 = rng w /\ st_leaderboard w1 = st_leaderboard w /\
  nextTimer w1 = nextTimer w /\ clock w1 = clock w /\
  startTimeoutRef w1 = startTimeoutRef w /\
  st_flags w1 = st_flags w /\ physicsRef w1 = physicsRef w /\
  timers w1 = match startTimeoutRef w with
              | Some (S _ as id) => filter (fun t => tid t <> id) (timers w)
              | _ => timers w
              end.
Proof.
  cbv zeta. unfold cancelStartTimeout.
  destruct (startTimeoutRef w) as [[| n] |] eqn:E; repeat split;
    try reflexivity; exact E.
Qed.

(** [initializeGame] field by field. *)
Lemma initializeGame_fields w :
  let shuffledList := (sortRandomly (rng w) countriesList).1 in
  let r0 := (rng w + (sortRandomly (rng w) countriesList).2)%nat in
  let total := length shuffledList in
  let initialFlags := seq (length (heap w)) total in
  initializeGame random sortRandomly w =
  {| heap := heap w ++ imap (initialFlag random total r0) shuffledList;
     st_flags := initialFlags;
     st_winner := None;
     st_visualPathLength := (360 - 45) / 360;
     st_leaderboard := st_leaderboard w;
     ringRotation := 0;
     ringOpacity := 1;
     physicsRef :=
       {| flags := initialFlags; ringAngle := 0; isRunning := true;
          phase := formation; gapStart := 360 - 45; gapEnd := 360 |};
     startTimeoutRef := Some (nextTimer w);
     timers := timers (cancelStartTimeout w) ++
               [ {| tid := nextTimer w; due := (clock w + 2000)%N;
                    callback := StartScatter |} ];
     nextTimer := S (nextTimer w); clock := clock w;
     rng := (r0 + 2 * total)%nat |}.
Proof.
  cbv zeta. unfold initializeGame.
  destruct (cancelStartTimeout_fields w)
    as (Hh & Hr & Hl & Hn & Hc & _).
  cbv zeta in *. rewrite Hr.
  destruct (sortRandomly (rng w) countriesList) as [shuffledList draws].
  unfold setTimeout. cbn [fst snd heap st_flags st_winner st_visualPathLength
    st_leaderboard ringRotation ringOpacity physicsRef timers nextTimer
    clock rng]. rewrite Hh, Hl, Hn, Hc. reflexivity.
Qed.

(** The flag objects of the new round, by address. *)
Lemma initializeGame_flag_at w a :
  let w' := initializeGame random sortRandomly w in
  let shuffledList := (sortRandomly (rng w) countriesList).1 in
  let r0 := (rng w + (sortRandomly (rng w) countriesList).2)%nat in
  a ∈ flags (physicsRef w') ->
  exists i c, a = (length (heap w) + i)%nat /\ shuffledList !! i = Some c /\
              flags (physicsRef w') !! i = Some a /\
              heap w' !! a
              = Some (initialFlag random (length shuffledList) r0 i c).
Proof.
  cbv zeta. rewrite initializeGame_fields.
  cbn [physicsRef flags heap]. intros Ha.
  apply elem_of_seq in Ha as [Hlo Hhi].
  set (sl := (sortRandomly (rng w) countriesList).1) in *.
  destruct (lookup_lt_is_Some_2 sl (a - length (heap w))) as [c Hc]; [lia |].
  exists (a - length (heap w))%nat, c.
  split; [lia |]. split; [done |].
  split; [rewrite lookup_seq; lia |].
  rewrite lookup_app_r by lia. rewrite list_lookup_imap, Hc. reflexivity.
Qed.

Lemma countriesList_codes : NoDup (country_code <$> countriesList).
Proof. apply (bool_decide_unpack _). vm_compute. exact I. Qed.

Lemma filter_filter_sub {A} (P Q : A -> Prop)
    `{!forall x, Decision (P x)} `{!forall x, Decision (Q x)} (l : list A) :
  filter P (filter Q l) = filter Q (filter P l).
Proof.
  induction l as [| x l IH]; [reflexivity |].
  rewrite !filter_cons.
  destruct (decide (Q x)), (decide (P x));
    rewrite ?filter_cons_True, ?filter_cons_False by done; by rewrite ?IH.
Qed.

Lemma pending_clearTimeout cb id w :
  pending cb (clearTimeout id w)
  = filter (fun t => tid t <> id) (pending cb w).
Proof. unfold pending, clearTimeout. cbn [timers set_timers]. apply filter_filter_sub. Qed.

Lemma pending_cancelStartTimeout_nil cb w :
  pending cb w = [] -> pending cb (cancelStartTimeout w) = [].
Proof.
  intros Hp. unfold cancelStartTimeout.
  destruct (startTimeoutRef w) as [[| n] |]; try done.
  by rewrite pending_clearTimeout, Hp.
Qed.

Section Shuffled.

(** The sort of line 164 returns the elements it was given, in some order. *)
Hypothesis sortRandomly_perm :
  forall k l, Permutation (sortRandomly k l).1 l.

Lemma initializeGame_invariant w :
  pending AutoRestart w = [] ->
  roundInvariant (initializeGame random sortRandomly w).
Proof.
  intros Hp.
  pose proof (initializeGame_flag_at w) as Hat. cbv zeta in Hat.
  assert (Hact : forall a,
            a ∈ flags (physicsRef (initializeGame random sortRandomly w)) ->
            statusAt (heap (initializeGame random sortRandomly w)) a
            = Some active).
  { intros a Ha. destruct (Hat a Ha) as (i & c & _ & _ & _ & Hf).
    unfold statusAt. by rewrite Hf. }
  revert Hat Hact. rewrite initializeGame_fields.
  set (sl := (sortRandomly (rng w) countriesList).1).
  set (r0 := (rng w + (sortRandomly (rng w) countriesList).2)%nat).
  assert (Hperm : Permutation sl countriesList) by apply sortRandomly_perm.
  intros Hat Hact. unfold roundInvariant. cbv zeta.
  cbn [heap st_flags physicsRef flags isRunning] in *.
  split; [apply NoDup_seq |].
  split.
  { intros a Ha. apply elem_of_seq in Ha.
    rewrite length_app, length_imap. lia. }
  split.
  { replace (codeAt (heap w ++ imap (initialFlag random (length sl) r0) sl)
               <$> seq (length (heap w)) (length sl))
      with (Some <$> (country_code <$> sl)).
    - apply NoDup_fmap_2; [apply _ |].
      rewrite Hperm. apply countriesList_codes.
    - apply list_eq. intros i. rewrite !list_lookup_fmap.
      destruct (decide (i < length sl)%nat) as [Hlt | Hge].
      + rewrite lookup_seq_lt by done.
        destruct (lookup_lt_is_Some_2 sl i Hlt) as [c Hc]. rewrite Hc.
        simpl. unfold codeAt. rewrite lookup_app_r by lia.
        replace (length (heap w) + i - length (heap w))%nat with i by lia.
        by rewrite list_lookup_imap, Hc.
      + rewrite lookup_seq_ge by lia. by rewrite lookup_ge_None_2 by lia. }
  split; [intros a Ha; by rewrite Hact |].
  split.
  { assert (Hne : (0 < length sl)%nat).
    { rewrite (Permutation_length Hperm). vm_compute. lia. }
    apply (countStatus_pos _ _ _ (length (heap w))).
    - apply elem_of_seq. lia.
    - apply Hact. apply elem_of_seq. lia. }
  split; [done |].
  split.
  { rewrite countStatus_none; [lia |]. intros b Hb. by rewrite Hact. }
  unfold pending. cbn [timers]. rewrite filter_app.
  rewrite filter_cons_False by done. rewrite filter_nil, app_nil_r.
  fold (pending AutoRestart (cancelStartTimeout w)).
  rewrite pending_cancelStartTimeout_nil by done. split; [simpl; lia | done].
Qed.

End Shuffled.

End StartRound.

(** ** Every state of the mounted component *)

Section Reachable.

Variable random : nat -> R.
Variable sortRandomly : nat -> list Country -> list Country * nat.

Hypothesis sortRandomly_perm :
  forall k l, Permutation (sortRandomly k l).1 l.

Implicit Types (w : World) (ev : Event) (evs : list Event).

Lemma find_timer id w t :
  List.find (fun t => Nat.eqb (tid t) id) (timers w) = Some t ->
  t ∈ timers w /\ tid t = id.
Proof.
  intros H. apply find_some in H as [Hin Heq].
  split; [by apply list_elem_of_In | by apply Nat.eqb_eq].
Qed.

(** What firing a timer amounts to. *)
Lemma fireTimer_cases id w :
  fireTimer random sortRandomly id w = w \/
  exists t, t ∈ timers w /\ tid t = id /\ (due t <= clock w)%N /\
    List.find (fun t => Nat.eqb (tid t) id) (timers w) = Some t /\
    fireTimer random sortRandomly id w
    = runCallback random sortRandomly (callback t) (clearTimeout id w).
Proof.
  unfold fireTimer.
  destruct (List.find _ (timers w)) as [t |] eqn:Hfind; [| by left].
  destruct (due t <=? clock w)%N eqn:Hdue; [| by left].
  right. exists t. destruct (find_timer id w t Hfind) as [Hin Hid].
  apply N.leb_le in Hdue. done.
Qed.

Lemma startScatter_invariant id w :
  roundInvariant w ->
  roundInvariant (runCallback random sortRandomly StartScatter
                    (clearTimeout id w)).
Proof.
  intros (Hnd & Hval & Hcodes & Hnw & Hact & Hshow & Hwin & Htl & Htr).
  unfold roundInvariant. cbv zeta in *.
  cbn [runCallback set_physicsRef set_phase physicsRef heap st_flags flags
       isRunning clearTimeout set_timers].
  repeat (split; [assumption |]).
  change (pending AutoRestart _)
    with (filter (fun t => callback t = AutoRestart)
            (filter (fun t => tid t <> id) (timers w))).
  rewrite filter_filter_sub. fold (pending AutoRestart w). split.
  - etrans; [apply length_filter | done].
  - intros Hne. apply Htr. intros Hnil. apply Hne. by rewrite Hnil.
Qed.

Lemma fireTimer_invariant id w :
  roundInvariant w -> roundInvariant (fireTimer random sortRandomly id w).
Proof.
  intros Hinv.
  destruct (fireTimer_cases id w)
    as [-> | (t & Hin & Hid & _ & _ & ->)]; [done |].
  destruct (callback t) eqn:Hcb.
  - by apply startScatter_invariant.
  - apply initializeGame_invariant; [done |].
    rewrite pending_clearTimeout.
    destruct Hinv as (_ & _ & _ & _ & _ & _ & _ & Htl & _).
    assert (Ht : t ∈ pending AutoRestart w).
    { apply list_elem_of_filter. done. }
    destruct (pending AutoRestart w) as [| t0 [| t1 rest]];
      [by apply elem_of_nil in Ht | | simpl in Htl; lia].
    apply list_elem_of_singleton in Ht as <-.
    rewrite filter_cons_False; [done |]. intros Hne. by apply Hne.
Qed.

Lemma step_invariant w ev :
  roundInvariant w -> roundInvariant (step random sortRandomly w ev).
Proof.
  intros Hinv. destruct ev as [time delta | id | ms]; simpl.
  - by apply frame_invariant.
  - by apply fireTimer_invariant.
  - exact Hinv.
Qed.

Lemma run_invariant evs : forall w,
  roundInvariant w -> roundInvariant (run random sortRandomly w evs).
Proof.
  induction evs as [| ev evs IH]; intros w Hinv; [done |].
  apply IH. by apply step_invariant.
Qed.

Lemma mount_invariant : roundInvariant (mount random sortRandomly).
Proof. by apply initializeGame_invariant. Qed.

Lemma reachable_invariant evs :
  roundInvariant (run random sortRandomly (mount random sortRandomly) evs).
Proof. apply run_invariant, mount_invariant. Qed.

End Reachable.

(** ** The elimination guard *)

Section Guard.

Variable random : nat -> R.
Variable sortRandomly : nat -> list Country -> list Country * nat.

Implicit Types (w : World) (ref : PhysicsRef) (a b : addr).

(** A boundary event of an active flag, at the moment of its visit: it
    exits exactly when the test of line 298 holds, and then another flag of
    the array is active at that moment. *)
Lemma guard_at_visit ref h r pre a post f :
  NoDup (pre ++ a :: post) ->
  phase ref = scatter ->
  let st := foldl (visit random ref) (startPass h r) pre in
  pass_heap st !! a = Some f ->
  status f = active ->
  let p1 := integrate (physics f) in
  let flagAngle := normalizeAngle (atan2 (y p1) (x p1) * (180 / PI)) in
  let hit := distance p1 + FLAG_RADIUS >= BOUNDARY_RADIUS in
  let inside :=
    isInsideGap (gapStart ref) (gapEnd ref) (ringAngle ref) flagAngle = true in
  let now := countStatus active (pass_heap st) (pre ++ a :: post) in
  exists f',
    pass_heap (visit random ref st a) !! a = Some f' /\
    (status f' = exiting \/ status f' = active) /\
    (status f' = exiting <->
     hit /\ inside /\ (activeCount (visit random ref st a) > 1)%nat) /\
    (status f' = exiting -> (now > 1)%nat) /\
    (now = 1%nat ->
     status f' = active /\
     (hit -> physics f' = bounce (distance p1) (random (pass_rng st))
                            (random (S (pass_rng st))) p1)).
Proof.
  intros Hnd Hph st Hf Hs. cbv zeta.
  apply NoDup_app in Hnd as (Hndpre & Hdisj & _).
  destruct (pass_prefix random ref h r pre Hndpre)
    as (_ & _ & _ & _ & Hpos & _). fold st in Hpos.
  assert (Hsa : statusAt (pass_heap st) a = Some active).
  { unfold statusAt. rewrite Hf. simpl. by rewrite Hs. }
  assert (Htwo : (1 <= activeCount st)%nat ->
            (2 <= countStatus active (pass_heap st) (pre ++ a :: post))%nat).
  { intros H1. destruct (Hpos H1) as (b & Hb & Hsb).
    by apply (countStatus_two _ _ _ _ _ b). }
  rewrite visit_activeCount, (bool_decide_eq_true_2 _ Hsa).
  rewrite (visit_active_scatter random ref st a f Hph Hf Hs).
  set (p1 := integrate (physics f)) in *.
  destruct (decide (distance p1 + FLAG_RADIUS >= BOUNDARY_RADIUS)) as [Hhit | Hno].
  - destruct (isInsideGap _ _ _ _) eqn:Hin; cbn [andb].
    + destruct (decide (1 <= activeCount st)%nat) as [Hc | Hc].
      * rewrite bool_decide_eq_true_2 by lia.
        eexists. split; [reflexivity |]. cbn [status set_status set_physics].
        split; [by left |]. split; [split; [intros _ | done] |].
        { split; [done |]. split; [done | lia]. }
        split; [intros _; specialize (Htwo Hc); lia |].
        intros H1. specialize (Htwo Hc). lia.
      * rewrite bool_decide_eq_false_2 by lia.
        eexists. split; [reflexivity |]. cbn [status physics set_physics].
        rewrite Hs. split; [by right |].
        split; [split; [done | intros (_ & _ & ?); lia] |].
        split; [done |]. intros _. split; [done | done].
    + eexists. split; [reflexivity |]. cbn [status physics set_physics].
      rewrite Hs. split; [by right |].
      split; [split; [done | intros (_ & ? & _); done] |].
      split; [done |]. intros _. split; [done | done].
  - eexists. split; [reflexivity |]. cbn [status physics set_physics].
    rewrite Hs. split; [by right |].
    split; [split; [done | intros (? & _); done] |].
    split; [done |]. intros _. split; [done | intros ?; done].
Qed.

Lemma declareWinner_heap wa wf w :
  (forall a, a ∈ flags (physicsRef w) -> (a < length (heap w))%nat) ->
  flags (physicsRef (declareWinner wa wf w)) = flags (physicsRef w) /\
  exists ext, heap (declareWinner wa wf w) = heap w ++ ext.
Proof.
  intros Hval.
  destruct (markWinner (code wf) (heap w) (flags (physicsRef w)))
    as [h' r] eqn:Hmw.
  rewrite (declareWinner_fields _ _ _ _ _ Hmw).
  destruct (markWinner_spec _ _ _ _ _ Hval Hmw) as (Hext & _).
  split; [reflexivity | exact Hext].
Qed.

(** A frame leaves a flag active if one was. *)
Lemma frame_keeps_active time delta w :
  NoDup (flags (physicsRef w)) ->
  (forall a, a ∈ flags (physicsRef w) -> (a < length (heap w))%nat) ->
  (1 <= countStatus active (heap w) (flags (physicsRef w)))%nat ->
  (1 <= countStatus active (heap (frame random time delta w))
          (flags (physicsRef (frame random time delta w))))%nat.
Proof.
  intros Hnd Hval Hact.
  destruct (physicsPass_frame random w) as (Hfl & _).
  destruct (physicsPass_heap random w Hnd)
    as (_ & Hlen & _ & _ & Hcnt & Hpos & _).
  cbv zeta in *.
  assert (H1 : (1 <= countStatus active (heap (physicsPass random w).2)
                     (flags (physicsRef w)))%nat).
  { destruct Hpos as (b & Hb & Hsb); [by rewrite Hcnt |].
    by eapply countStatus_pos. }
  destruct (frame_cases random time delta w)
    as [-> | (Hrun & [-> | (wa & wf & _ & _ & _ & _ & ->)])]; [done | |].
  - by rewrite Hfl.
  - set (w1 := (physicsPass random w).2) in *.
    assert (Hval1 : forall a, a ∈ flags (physicsRef w1) ->
              (a < length (heap w1))%nat).
    { intros a Ha. rewrite Hlen. apply Hval. by rewrite <- Hfl. }
    destruct (declareWinner_heap wa wf w1 Hval1) as (-> & ext & ->).
    rewrite (countStatus_ext _ (heap w1)).
    + by rewrite Hfl.
    + intros b Hb. apply statusAt_app_l. by apply Hval1.
Qed.

End Guard.

(** ** The winner check within a round *)

Section Round.

Variable random : nat -> R.
Variable sortRandomly : nat -> list Country -> list Country * nat.

Implicit Types (w : World) (ev : Event) (evs : list Event).

Lemma sameOutcome_refl w : sameOutcome w w.
Proof. unfold sameOutcome. repeat split; reflexivity. Qed.

Lemma sameOutcome_trans w1 w2 w3 :
  sameOutcome w1 w2 -> sameOutcome w2 w3 -> sameOutcome w1 w3.
Proof.
  unfold sameOutcome. intros (-> & -> & -> & H4 & ->) (-> & -> & -> & H4' & ->).
  repeat split; try reflexivity. lia.
Qed.

Lemma wonOnce_after w1 w2 w3 :
  wonOnce w1 w2 -> sameOutcome w2 w3 -> wonOnce w1 w3.
Proof.
  unfold sameOutcome. intros (wa & wf & H1 & H2 & H3 & H4 & H5 & H6)
                             (G1 & G2 & G3 & G4 & G5).
  exists wa, wf. rewrite G1, G2, G3, G5. repeat split; try done. lia.
Qed.

Lemma wonOnce_before w1 w2 w3 :
  sameOutcome w1 w2 -> wonOnce w2 w3 -> wonOnce w1 w3.
Proof.
  unfold sameOutcome. intros (G1 & G2 & G3 & G4 & G5)
                             (wa & wf & H1 & H2 & H3 & H4 & H5 & H6).
  exists wa, wf. rewrite <- G1, <- G3, <- G5. repeat split; try done. lia.
Qed.

(** A frame runs the body of the winner check once or not at all; it runs
    it only in the scatter phase, with the round running and the pass
    having counted one active flag. *)
Lemma frame_outcome time delta w :
  sameOutcome w (frame random time delta w) \/
  (wonOnce w (frame random time delta w) /\
   phase (physicsRef w) = scatter /\
   activeCount (physicsPass random w).1 = 1%nat /\
   exists wa wf,
     potentialWinner (physicsPass random w).1 = Some wa /\
     heap (physicsPass random w).2 !! wa = Some wf /\
     frame random time delta w
     = declareWinner wa wf (physicsPass random w).2).
Proof.
  destruct (physicsPass_frame random w)
    as (Hfl & Hr & _ & _ & _ & Hsf & Hsw & Hlb & Htm & Hnt & _).
  cbv zeta in *.
  destruct (frame_cases random time delta w)
    as [-> | (Hrun & [-> | (wa & wf & Hpw & Hc & Hph & Hwf & Heq)])].
  - left. apply sameOutcome_refl.
  - left. unfold sameOutcome, pending. rewrite Hlb, Hsw, Hnt, Htm, Hr. done.
  - right. cbv zeta in *. split; [| split; [done |]; split; [done |]].
    + rewrite Heq. exists wa, wf.
      set (w1 := (physicsPass random w).2) in *.
      destruct (markWinner (code wf) (heap w1) (flags (physicsRef w1)))
        as [h' r] eqn:Hmw.
      rewrite (declareWinner_fields _ _ _ _ _ Hmw). unfold pending.
      cbn [st_leaderboard st_winner nextTimer timers physicsRef
           set_isRunning isRunning].
      rewrite Hlb, Hnt, Htm, filter_app, length_app.
      rewrite filter_cons_True by done. rewrite filter_nil.
      cbn [length]. repeat split; try done. lia.
    + by exists wa, wf.
Qed.

Lemma startScatter_outcome id w :
  sameOutcome w (runCallback random sortRandomly StartScatter
                   (clearTimeout id w)).
Proof.
  unfold sameOutcome. repeat split; try reflexivity.
  unfold pending at 1. cbn [runCallback set_physicsRef timers].
  fold (pending AutoRestart (clearTimeout id w)).
  rewrite pending_clearTimeout. apply length_filter.
Qed.

(** One event of a round. *)
Lemma step_outcome w ev :
  withinRound w ev ->
  sameOutcome w (step random sortRandomly w ev)
  \/ wonOnce w (step random sortRandomly w ev).
Proof.
  intros Hin. destruct ev as [time delta | id | ms]; cbn [step].
  - destruct (frame_outcome time delta w) as [H | [H _]]; [by left | by right].
  - left. destruct (fireTimer_cases random sortRandomly id w)
      as [-> | (t & _ & _ & _ & Hfind & ->)]; [apply sameOutcome_refl |].
    cbn [withinRound] in Hin. rewrite (Hin t Hfind).
    apply startScatter_outcome.
  - left. unfold sameOutcome, pending. cbn. repeat split; reflexivity.
Qed.

(** Once the round has stopped, the rest of it changes nothing of what the
    winner check writes. *)
Lemma stopped_round evs : forall w,
  isRunning (physicsRef w) = false ->
  roundTrace random sortRandomly w evs ->
  sameOutcome w (run random sortRandomly w evs).
Proof.
  induction evs as [| ev evs IH]; intros w Hstop Htr.
  - apply sameOutcome_refl.
  - destruct Htr as [Hin Htr]. cbn [run foldl].
    destruct (step_outcome w ev Hin) as [Hs | Hw].
    + eapply sameOutcome_trans; [exact Hs |]. apply IH; [| done].
      destruct Hs as (_ & _ & _ & _ & ->). done.
    + destruct Hw as (wa & wf & _ & _ & _ & _ & Hrun & _). congruence.
Qed.

(** In one round the body of the winner check runs at most once. *)
Lemma round_outcome evs : forall w,
  roundTrace random sortRandomly w evs ->
  sameOutcome w (run random sortRandomly w evs)
  \/ wonOnce w (run random sortRandomly w evs).
Proof.
  induction evs as [| ev evs IH]; intros w Htr.
  - left. apply sameOutcome_refl.
  - destruct Htr as [Hin Htr]. cbn [run foldl].
    destruct (step_outcome w ev Hin) as [Hs | Hw].
    + destruct (IH _ Htr) as [Hs' | Hw'].
      * left. by eapply sameOutcome_trans.
      * right. by eapply wonOnce_before.
    + right. eapply wonOnce_after; [exact Hw |].
      apply stopped_round; [| done].
      by destruct Hw as (wa & wf & _ & _ & _ & _ & _ & ?).
Qed.

End Round.

(** ** The status of a participant *)

Section Status.

Variable random : nat -> R.
Variable sortRandomly : nat -> list Country -> list Country * nat.

Implicit Types (w : World) (ev : Event) (evs : list Event) (a b : addr).

Lemma markWinner_extends (wcode : string) (l : list addr) :
  forall (h h' : list CountryFlag) (r : list addr),
  markWinner wcode h l = (h', r) -> exists ext, h' = h ++ ext.
Proof.
  induction l as [| a l IH]; intros h h' r Hmw; cbn [markWinner] in Hmw.
  - injection Hmw as <- <-. exists []. by rewrite app_nil_r.
  - destruct (h !! a) as [f |].
    + destruct (String.eqb (code f) wcode).
      * destruct (markWinner wcode (h ++ [set_status winner f]) l)
          as [h0 r0] eqn:Hrec.
        injection Hmw as <- <-. destruct (IH _ _ _ Hrec) as [ext ->].
        exists (set_status winner f :: ext). by rewrite <- app_assoc.
      * destruct (markWinner wcode h l) as [h0 r0] eqn:Hrec.
        injection Hmw as <- <-. by eapply IH.
    + destruct (markWinner wcode h l) as [h0 r0] eqn:Hrec.
      injection Hmw as <- <-. by eapply IH.
Qed.

Lemma declareWinner_extends wa wf w :
  exists ext, heap (declareWinner wa wf w) = heap w ++ ext.
Proof.
  destruct (markWinner (code wf) (heap w) (flags (physicsRef w)))
    as [h' r] eqn:Hmw.
  rewrite (declareWinner_fields _ _ _ _ _ Hmw).
  by apply markWinner_extends in Hmw.
Qed.

(** A frame moves the status of any flag object one step forward at most,
    and never to or from winner. *)
Lemma frame_heap_forward time delta w a f :
  NoDup (flags (physicsRef w)) ->
  heap w !! a = Some f ->
  exists f', heap (frame random time delta w) !! a = Some f'
             /\ code f' = code f /\ name f' = name f
             /\ forward (status f) (status f').
Proof.
  intros Hnd Hf.
  destruct (physicsPass_heap random w Hnd) as (_ & _ & _ & Hfwd & _).
  cbv zeta in Hfwd.
  destruct (frame_cases random time delta w)
    as [-> | (Hrun & [-> | (wa & wf & _ & _ & _ & _ & ->)])].
  - exists f. repeat split; try done. apply forward_refl.
  - by apply Hfwd.
  - destruct (Hfwd a f Hf) as (f' & Hf' & Hrest).
    destruct (declareWinner_extends wa wf (physicsPass random w).2)
      as [ext ->].
    exists f'. split; [by apply lookup_app_l_Some | done].
Qed.

Lemma forwardShown_of_forward s s' : forward s s' -> forwardShown s s'.
Proof. by left. Qed.

(** A frame moves the status of any shown participant one step forward at
    most; the step to winner is taken from active. *)
Lemma frame_shown time delta w i a f :
  roundInvariant w ->
  st_flags w !! i = Some a ->
  heap w !! a = Some f ->
  exists a' f',
    st_flags (frame random time delta w) !! i = Some a' /\
    heap (frame random time delta w) !! a' = Some f' /\
    code f' = code f /\ name f' = name f /\
    forwardShown (status f) (status f').
Proof.
  intros Hinv Hi Hf.
  pose proof Hinv as (Hnd & Hval & Hcodes & Hnw & Hact & Hshow & _).
  cbv zeta in *.
  destruct (physicsPass_frame random w) as (Hfl & Hr & _ & _ & _ & Hsf & _).
  destruct (physicsPass_heap random w Hnd)
    as (_ & Hlen & _ & Hfwd & _ & _ & Hone).
  cbv zeta in *.
  destruct (Hfwd a f Hf) as (f1 & Hf1 & Hc1 & Hn1 & Hfw1).
  destruct (frame_outcome random time delta w)
    as [Hquiet | (_ & _ & Hcount & wa & wf & Hpw & Hwf & Heq)].
  - destruct (frame_cases random time delta w)
      as [Hid | (Hrun & [Hid | (wa & wf & _ & _ & _ & _ & Heq)])].
    + rewrite Hid. exists a, f. repeat split; try done.
      apply forwardShown_of_forward, forward_refl.
    + rewrite Hid, Hsf. exists a, f1. repeat split; try done.
      by apply forwardShown_of_forward.
    + exfalso. destruct Hquiet as (_ & _ & Hnt & _).
      rewrite Heq in Hnt.
      destruct (markWinner (code wf) (heap (physicsPass random w).2)
                  (flags (physicsRef (physicsPass random w).2)))
        as [h' r] eqn:Hmw.
      rewrite (declareWinner_fields _ _ _ _ _ Hmw) in Hnt.
      cbn [nextTimer] in Hnt.
      destruct (physicsPass_frame random w)
        as (_ & _ & _ & _ & _ & _ & _ & _ & _ & Hnt' & _).
      cbv zeta in Hnt'. rewrite Hnt' in Hnt. lia.
  - destruct (frame_cases random time delta w)
      as [Hid | (Hrun & _)].
    { exfalso. rewrite Hid in Heq.
      assert (Hnt : nextTimer w
                    = nextTimer (declareWinner wa wf (physicsPass random w).2))
        by (by rewrite <- Heq).
      destruct (markWinner (code wf) (heap (physicsPass random w).2)
                  (flags (physicsRef (physicsPass random w).2)))
        as [h' r] eqn:Hmw.
      rewrite (declareWinner_fields _ _ _ _ _ Hmw) in Hnt.
      cbn [nextTimer] in Hnt.
      destruct (physicsPass_frame random w)
        as (_ & _ & _ & _ & _ & _ & _ & _ & _ & Hnt' & _).
      cbv zeta in Hnt'. rewrite Hnt' in Hnt. lia. }
    pose proof (physicsPass_invariant random w Hinv Hrun)
      as (_ & Hval1 & Hcodes1 & _).
    cbv zeta in *.
    set (w1 := (physicsPass random w).2) in *.
    set (st := (physicsPass random w).1) in *.
    destruct (Hone Hcount) as (b & Hpb & Hb & Hsb).
    assert (b = wa) as -> by congruence.
    assert (Hswf : status wf = active).
    { unfold statusAt in Hsb. rewrite Hwf in Hsb. by injection Hsb. }
    rewrite Heq.
    destruct (markWinner (code wf) (heap w1) (flags (physicsRef w1)))
      as [h' r] eqn:Hmw.
    rewrite (declareWinner_fields _ _ _ _ _ Hmw). cbn [st_flags heap].
    destruct (markWinner_spec _ _ _ _ _ Hval1 Hmw) as ((ext & ->) & _ & Hpt).
    rewrite (Hshow Hrun), <- Hfl in Hi.
    destruct (Hpt i a Hi) as (a' & g & Hr' & Hg & Hcase).
    assert (g = f1) as -> by congruence.
    destruct Hcase as [[-> Hne] | (Hcw & _ & Hcopy)].
    + exists a, f1. split; [done |].
      split; [by apply lookup_app_l_Some |].
      repeat split; try done. by apply forwardShown_of_forward.
    + exists a', (set_status winner f1). split; [done |]. split; [done |].
      cbn [code name status set_status]. repeat split; try done.
      right. split; [| done].
      assert (a = wa) as ->.
      { apply list_elem_of_lookup_1 in Hb as [j Hj]. rewrite <- Hfl in Hj.
        assert (Hca : codeAt (heap w1) a = Some (code wf)).
        { unfold codeAt. rewrite Hf1. simpl. by rewrite Hcw. }
        assert (Hcb : codeAt (heap w1) wa = Some (code wf)).
        { unfold codeAt. by rewrite Hwf. }
        assert (i = j).
        { apply (NoDup_lookup _ i j (Some (code wf)) Hcodes1).
          - rewrite list_lookup_fmap, Hi.
            change (Some (codeAt (heap w1) a) = Some (Some (code wf))).
            by rewrite Hca.
          - rewrite list_lookup_fmap, Hj.
            change (Some (codeAt (heap w1) wa) = Some (Some (code wf))).
            by rewrite Hcb. }
        subst j. congruence. }
      assert (f1 = wf) as -> by congruence.
      by eapply forward_to_active.
Qed.

End Status.

Section StatusInRound.

Variable random : nat -> R.
Variable sortRandomly : nat -> list Country -> list Country * nat.

Hypothesis sortRandomly_perm :
  forall k l, Permutation (sortRandomly k l).1 l.

Implicit Types (w : World) (ev : Event) (evs : list Event) (a b : addr).

Lemma statusLe_refl s : statusLe s s = true.
Proof. by destruct s. Qed.

Lemma statusLe_trans s1 s2 s3 :
  statusLe s1 s2 = true -> statusLe s2 s3 = true -> statusLe s1 s3 = true.
Proof. by destruct s1, s2, s3. Qed.

Lemma forwardShown_statusLe s s' : forwardShown s s' -> statusLe s s' = true.
Proof.
  unfold forwardShown, forward.
  intros [[-> | [[-> ->] | [-> ->]]] | [-> ->]];
    try reflexivity; apply statusLe_refl.
Qed.

Lemma step_shown w ev i a f :
  roundInvariant w ->
  withinRound w ev ->
  st_flags w !! i = Some a ->
  heap w !! a = Some f ->
  exists a' f',
    st_flags (step random sortRandomly w ev) !! i = Some a' /\
    heap (step random sortRandomly w ev) !! a' = Some f' /\
    code f' = code f /\ name f' = name f /\
    forwardShown (status f) (status f').
Proof.
  intros Hinv Hin Hi Hf.
  assert (Hsame : exists a' f',
            st_flags w !! i = Some a' /\ heap w !! a' = Some f' /\
            code f' = code f /\ name f' = name f /\
            forwardShown (status f) (status f')).
  { exists a, f. repeat split; try done.
    apply forwardShown_of_forward, forward_refl. }
  destruct ev as [time delta | id | ms]; cbn [step].
  - by apply (frame_shown random time delta w i a f).
  - destruct (fireTimer_cases random sortRandomly id w)
      as [-> | (t & _ & _ & _ & Hfind & ->)]; [done |].
    cbn [withinRound] in Hin. rewrite (Hin t Hfind). exact Hsame.
  - exact Hsame.
Qed.

(** Through the events of a round a shown participant stays the same
    participant and its status only climbs. *)
Lemma round_shown evs : forall w i a f,
  roundInvariant w ->
  roundTrace random sortRandomly w evs ->
  st_flags w !! i = Some a ->
  heap w !! a = Some f ->
  exists a' f',
    st_flags (run random sortRandomly w evs) !! i = Some a' /\
    heap (run random sortRandomly w evs) !! a' = Some f' /\
    code f' = code f /\ name f' = name f /\
    statusLe (status f) (status f') = true.
Proof.
  induction evs as [| ev evs IH]; intros w i a f Hinv Htr Hi Hf.
  - exists a, f. repeat split; try done. apply statusLe_refl.
  - destruct Htr as [Hin Htr]. cbn [run foldl].
    destruct (step_shown w ev i a f Hinv Hin Hi Hf)
      as (a1 & f1 & Hi1 & Hf1 & Hc1 & Hn1 & Hs1).
    destruct (IH _ i a1 f1
                (step_invariant random sortRandomly sortRandomly_perm w ev Hinv)
                Htr Hi1 Hf1)
      as (a2 & f2 & Hi2 & Hf2 & Hc2 & Hn2 & Hs2).
    exists a2, f2. split; [done |]. split; [done |].
    split; [congruence |]. split; [congruence |].
    eapply statusLe_trans; [by apply forwardShown_statusLe | done].
Qed.

End StatusInRound.

(** ** The leaderboard *)

Section Leaderboard.

Implicit Types (p q : LeaderboardEntry) (l prev : list LeaderboardEntry).

Lemma sort_insert_perm {A} (cmp : A -> A -> Z) (a : A) (l : list A) :
  Permutation (sort_insert cmp a l) (a :: l).
Proof.
  induction l as [| b l IH]; simpl; [done |].
  destruct (cmp a b <=? 0)%Z; [done |].
  rewrite IH. apply perm_swap.
Qed.

Lemma sort_perm {A} (cmp : A -> A -> Z) (l : list A) :
  Permutation (sort cmp l) l.
Proof.
  induction l as [| a l IH]; simpl; [done |].
  unfold sort in *. simpl. rewrite sort_insert_perm. by constructor.
Qed.

Lemma sort_insert_sorted p l :
  StronglySorted (fun a b => (wins a >= wins b)%Z) l ->
  StronglySorted (fun a b => (wins a >= wins b)%Z)
    (sort_insert (fun a b => (wins b - wins a)%Z) p l).
Proof.
  induction 1 as [| q l Hs IH Hq]; simpl.
  - repeat constructor.
  - destruct (Z.leb_spec (wins q - wins p) 0).
    + constructor; [by constructor |]. constructor; [lia |].
      eapply Forall_impl; [exact Hq |]. simpl. intros. lia.
    + constructor; [exact IH |].
      rewrite (sort_insert_perm _ p l). constructor; [lia | done].
Qed.

Lemma sort_sorted l :
  StronglySorted (fun a b => (wins a >= wins b)%Z)
    (sort (fun a b => (wins b - wins a)%Z) l).
Proof.
  induction l as [| p l IH]; [constructor |].
  unfold sort in *. simpl. by apply sort_insert_sorted.
Qed.

Lemma find_code_Some (c : string) prev p :
  List.find (fun p => String.eqb (entry_code p) c) prev = Some p ->
  p ∈ prev /\ entry_code p = c.
Proof.
  intros H. apply find_some in H as [Hin Heq].
  split; [by apply list_elem_of_In | by apply String.eqb_eq].
Qed.

Lemma find_code_None (c : string) prev :
  List.find (fun p => String.eqb (entry_code p) c) prev = None ->
  forall p, p ∈ prev -> entry_code p <> c.
Proof.
  intros H p Hp. apply list_elem_of_In in Hp.
  pose proof (find_none _ _ H p Hp) as Hne. simpl in Hne.
  by apply String.eqb_neq.
Qed.

End Leaderboard.

(** ** When the winner is declared *)

Section Declared.

Variable random : nat -> R.

Implicit Types (w : World) (a b : addr).

(** With the round running in the scatter phase and exactly one flag of
    the array active, the frame declares that flag the winner. *)
Lemma frame_declares time delta w :
  isRunning (physicsRef w) = true ->
  phase (physicsRef w) = scatter ->
  NoDup (flags (physicsRef w)) ->
  countStatus active (heap w) (flags (physicsRef w)) = 1%nat ->
  exists wa wf,
    wa ∈ flags (physicsRef w) /\
    heap (physicsPass random w).2 !! wa = Some wf /\
    status wf = active /\
    frame random time delta w
    = declareWinner wa wf (physicsPass random w).2.
Proof.
  intros Hrun Hph Hnd Hone.
  destruct (physicsPass_frame random w) as (Hfl & Hr & Hp & _).
  destruct (physicsPass_heap random w Hnd)
    as (_ & _ & _ & _ & Hcnt & _ & Hwin).
  cbv zeta in *. rewrite Hone in Hcnt.
  destruct (Hwin Hcnt) as (wa & Hpw & Hwa & Hs).
  unfold statusAt in Hs.
  destruct (heap (physicsPass random w).2 !! wa) as [wf |] eqn:Hwf;
    [| discriminate].
  injection Hs as Hs. exists wa, wf. repeat split; try done.
  unfold frame. rewrite Hrun. cbn [negb orb].
  rewrite bool_decide_eq_false_2.
  2:{ intros Hlen. apply length_zero_iff_nil in Hlen.
      rewrite Hlen in Hwa. by apply elem_of_nil in Hwa. }
  destruct (physicsPass random w) as [st w1] eqn:Hpp. cbn [fst snd] in *.
  unfold winnerCheck. rewrite Hpw, Hp, Hph, Hr, Hrun, Hcnt, Hwf.
  rewrite !bool_decide_eq_true_2 by done. reflexivity.
Qed.

End Declared.

(** * The claims about the bounce *)

Lemma atBoundary_distance : distance atBoundary = 150.
Proof.
  unfold distance, atBoundary. cbn [x y].
  replace (150 * 150 + 0 * 0) with (150 * 150) by lra.
  apply sqrt_square. lra.
Qed.

Lemma outbound_step : integrate outbound = atBoundary.
Proof. unfold integrate, outbound, atBoundary. cbn [x y vx vy angle vAngle]. f_equal; lra. Qed.

Lemma atBoundary_event : distance atBoundary + FLAG_RADIUS >= BOUNDARY_RADIUS.
Proof. rewrite atBoundary_distance. unfold FLAG_RADIUS, BOUNDARY_RADIUS. lra. Qed.

(** The reflection at a flag on the boundary, 150 from the centre. *)
Lemma bounce_reflection_preserves_speed_witness :
  distance atBoundary + FLAG_RADIUS >= BOUNDARY_RADIUS /\
  speed (reflect (distance atBoundary) atBoundary) = speed atBoundary.
Proof.
  split; [exact atBoundary_event |].
  exact (proj1 (proj2 (proj2 (proj2
           (bounce_reflection_preserves_speed atBoundary atBoundary_event))))).
Defined.

(** C10: when an active flag bounces, the push-back takes out the whole
    overlap: right after the bounce its distance from the centre is the
    boundary radius less the flag radius, so it is not beyond the boundary.
    In the pass: an active flag with a boundary event in the scatter phase
    either exits or is left active at exactly that distance. *)
Theorem bounce_removes_penetration :
  (forall (p : PhysicsState) (r1 r2 : R),
     distance p + FLAG_RADIUS >= BOUNDARY_RADIUS ->
     distance (bounce (distance p) r1 r2 p) = BOUNDARY_RADIUS - FLAG_RADIUS) /\
  (forall (random : nat -> R) (ref : PhysicsRef) (st : Pass) (a : addr)
          (f : CountryFlag),
     phase ref = scatter ->
     pass_heap st !! a = Some f ->
     status f = active ->
     distance (integrate (physics f)) + FLAG_RADIUS >= BOUNDARY_RADIUS ->
     exists f',
       pass_heap (visit random ref st a) !! a = Some f' /\
       (status f' = exiting \/
        (status f' = active /\
         distance (physics f') = BOUNDARY_RADIUS - FLAG_RADIUS /\
         ~ distance (physics f') + FLAG_RADIUS > BOUNDARY_RADIUS))).
Proof.
  assert (Hpure : forall p r1 r2,
            distance p + FLAG_RADIUS >= BOUNDARY_RADIUS ->
            distance (bounce (distance p) r1 r2 p)
            = BOUNDARY_RADIUS - FLAG_RADIUS).
  { intros p r1 r2 Hev. rewrite <- (pushBack_distance p Hev). reflexivity. }
  split; [exact Hpure |].
  intros random ref st a f Hph Hf Hs Hev.
  rewrite (visit_active_scatter random ref st a f Hph Hf Hs).
  rewrite decide_True by exact Hev.
  destruct (isInsideGap _ _ _ _ && bool_decide _).
  - eexists. split; [reflexivity |]. by left.
  - eexists. split; [reflexivity |]. right.
    cbn [status physics set_physics]. split; [done |].
    rewrite (Hpure _ _ _ Hev). split; [reflexivity | lra].
Qed.

(** The bounce of the flag that steps from 149 to 150 on the x axis. *)
Lemma bounce_removes_penetration_witness :
  distance atBoundary + FLAG_RADIUS >= BOUNDARY_RADIUS /\
  distance (bounce (distance atBoundary) (1 / 2) (1 / 2) atBoundary)
  = BOUNDARY_RADIUS - FLAG_RADIUS /\
  exists f',
    pass_heap (visit fairCoin (scatterRef [0%nat])
                 (startPass [outboundFlag] 0) 0) !! 0%nat = Some f' /\
    (status f' = exiting \/
     (status f' = active /\
      distance (physics f') = BOUNDARY_RADIUS - FLAG_RADIUS /\
      ~ distance (physics f') + FLAG_RADIUS > BOUNDARY_RADIUS)).
Proof.
  split; [exact atBoundary_event |].
  split.
  - exact (proj1 bounce_removes_penetration atBoundary (1 / 2) (1 / 2)
             atBoundary_event).
  - apply (proj2 bounce_removes_penetration fairCoin (scatterRef [0%nat])
             (startPass [outboundFlag] 0) 0%nat outboundFlag).
    + reflexivity.
    + reflexivity.
    + reflexivity.
    + change (physics outboundFlag) with outbound.
      rewrite outbound_step. exact atBoundary_event.
Defined.

(** * The claims about the round *)

Section Claims.

Variable random : nat -> R.
Variable sortRandomly : nat -> list Country -> list Country * nat.

(** The sort of line 164 returns the elements it was given, in some order. *)
Hypothesis sortRandomly_perm :
  forall k l, Permutation (sortRandomly k l).1 l.

Local Abbreviation mounted := (mount random sortRandomly).
Local Abbreviation runs := (run random sortRandomly).

(** C1: in a scatter-phase pass an active flag with a boundary event exits
    exactly when its angle is inside the live gap and the count of active
    flags, its own included, is above one, and then more than one flag of
    the array is active at that moment; when it is the only active flag at
    that moment it stays active, and a boundary event makes it bounce.  So
    a frame that starts with an active flag ends with one, and no state of
    the mounted component has zero active flags. *)
Theorem sole_active_flag_never_eliminated :
  (forall (ref : PhysicsRef) (h : list CountryFlag) (r : nat)
          (pre : list addr) (a : addr) (post : list addr) (f : CountryFlag),
     NoDup (pre ++ a :: post) ->
     phase ref = scatter ->
     let st := foldl (visit random ref) (startPass h r) pre in
     pass_heap st !! a = Some f ->
     status f = active ->
     let p1 := integrate (physics f) in
     let flagAngle := normalizeAngle (atan2 (y p1) (x p1) * (180 / PI)) in
     let hit := distance p1 + FLAG_RADIUS >= BOUNDARY_RADIUS in
     let inside :=
       isInsideGap (gapStart ref) (gapEnd ref) (ringAngle ref) flagAngle
       = true in
     let now := countStatus active (pass_heap st) (pre ++ a :: post) in
     exists f',
       pass_heap (visit random ref st a) !! a = Some f' /\
       (status f' = exiting \/ status f' = active) /\
       (status f' = exiting <->
        hit /\ inside /\ (activeCount (visit random ref st a) > 1)%nat) /\
       (status f' = exiting -> (now > 1)%nat) /\
       (now = 1%nat ->
        status f' = active /\
        (hit -> physics f' = bounce (distance p1) (random (pass_rng st))
                               (random (S (pass_rng st))) p1))) /\
  (forall (time delta : R) (w : World),
     NoDup (flags (physicsRef w)) ->
     (forall a, a ∈ flags (physicsRef w) -> (a < length (heap w))%nat) ->
     (1 <= countStatus active (heap w) (flags (physicsRef w)))%nat ->
     (1 <= countStatus active (heap (frame random time delta w))
             (flags (physicsRef (frame random time delta w))))%nat) /\
  (forall evs : list Event,
     let w := runs mounted evs in
     (1 <= countStatus active (heap w) (flags (physicsRef w)))%nat).
Proof.
  split; [exact (guard_at_visit random) |].
  split; [exact (frame_keeps_active random) |].
  intros evs.
  by destruct (reachable_invariant random sortRandomly sortRandomly_perm evs)
    as (_ & _ & _ & _ & H & _).
Qed.

(** C3: a frame runs the body of the winner check once or not at all, and
    runs it only with the phase scatter, the round running and exactly one
    flag of the array active; a frame of a stopped round does nothing; the
    body stops the round, so through the events of one round the winner is
    set, the leaderboard updated and a restart scheduled at most once; and
    in no state of the mounted component do two shown flags hold the
    status winner. *)
Theorem winner_declared_once :
  (forall (time delta : R) (w : World),
     NoDup (flags (physicsRef w)) ->
     sameOutcome w (frame random time delta w) \/
     (wonOnce w (frame random time delta w) /\
      phase (physicsRef w) = scatter /\
      isRunning (physicsRef w) = true /\
      countStatus active (heap w) (flags (physicsRef w)) = 1%nat)) /\
  (forall (time delta : R) (w : World),
     isRunning (physicsRef w) = false -> frame random time delta w = w) /\
  (forall (w : World) (evs : list Event),
     roundTrace random sortRandomly w evs ->
     sameOutcome w (runs w evs) \/ wonOnce w (runs w evs)) /\
  (forall (w : World) (evs : list Event),
     isRunning (physicsRef w) = false ->
     roundTrace random sortRandomly w evs ->
     sameOutcome w (runs w evs)) /\
  (forall evs : list Event,
     let w := runs mounted evs in
     (countStatus winner (heap w) (st_flags w) <= 1)%nat /\
     countStatus winner (heap w) (flags (physicsRef w)) = 0%nat).
Proof.
  split.
  { intros time delta w Hnd.
    destruct (frame_outcome random time delta w)
      as [H | (Hwon & Hph & Hc & _)]; [by left |].
    right. split; [done |]. split; [done |].
    split; [by destruct Hwon as (? & ? & _ & _ & _ & _ & ? & _) |].
    destruct (physicsPass_heap random w Hnd) as (_ & _ & _ & _ & Hcnt & _).
    cbv zeta in Hcnt. by rewrite <- Hcnt. }
  split; [exact (frame_stopped random) |].
  split; [intros w evs; apply round_outcome |].
  split; [intros w evs Hstop Htr; by apply stopped_round |].
  intros evs.
  destruct (reachable_invariant random sortRandomly sortRandomly_perm evs)
    as (_ & _ & _ & Hnw & _ & _ & Hwin & _).
  cbv zeta in *. split; [done |]. by apply countStatus_none.
Qed.

(** C9: a frame moves the status of a flag object by one step of
    active -> exiting -> eliminated at most, so nothing goes back to
    active, an eliminated flag stays eliminated and a winner stays a
    winner; through the events of one round every shown participant keeps
    its identity while its status only climbs in the order active below
    exiting below eliminated, active below winner, the step to winner
    being taken from active; and a new round shows every participant
    active again. *)
Theorem status_only_moves_forward :
  (forall (time delta : R) (w : World) (a : addr) (f : CountryFlag),
     NoDup (flags (physicsRef w)) ->
     heap w !! a = Some f ->
     exists f',
       heap (frame random time delta w) !! a = Some f' /\
       code f' = code f /\
       forward (status f) (status f') /\
       (status f' = active -> status f = active) /\
       (status f = eliminated -> status f' = eliminated) /\
       (status f = winner -> status f' = winner) /\
       (status f' = winner -> status f = winner)) /\
  (forall (evs0 : list Event) (time delta : R) (i : nat) (a : addr)
          (f : CountryFlag),
     let w := runs mounted evs0 in
     st_flags w !! i = Some a ->
     heap w !! a = Some f ->
     exists a' f',
       st_flags (frame random time delta w) !! i = Some a' /\
       heap (frame random time delta w) !! a' = Some f' /\
       code f' = code f /\
       forwardShown (status f) (status f')) /\
  (forall (evs0 evs : list Event) (i : nat) (a : addr) (f : CountryFlag),
     let w := runs mounted evs0 in
     roundTrace random sortRandomly w evs ->
     st_flags w !! i = Some a ->
     heap w !! a = Some f ->
     exists a' f',
       st_flags (runs w evs) !! i = Some a' /\
       heap (runs w evs) !! a' = Some f' /\
       code f' = code f /\
       statusLe (status f) (status f') = true) /\
  (forall (w : World) (a : addr),
     a ∈ st_flags (initializeGame random sortRandomly w) ->
     statusAt (heap (initializeGame random sortRandomly w)) a = Some active).
Proof.
  split.
  { intros time delta w a f Hnd Hf.
    destruct (frame_heap_forward random time delta w a f Hnd Hf)
      as (f' & Hf' & Hc & _ & Hfw).
    exists f'. split; [done |]. split; [done |]. split; [done |].
    unfold forward in Hfw.
    destruct Hfw as [-> | [[-> ->] | [-> ->]]]; repeat split; congruence. }
  split.
  { intros evs0 time delta i a f w Hi Hf.
    destruct (frame_shown random time delta w i a f
                (reachable_invariant random sortRandomly sortRandomly_perm evs0)
                Hi Hf)
      as (a' & f' & H1 & H2 & H3 & _ & H5).
    by exists a', f'. }
  split.
  { intros evs0 evs i a f w Htr Hi Hf.
    destruct (round_shown random sortRandomly sortRandomly_perm evs w i a f
                (reachable_invariant random sortRandomly sortRandomly_perm evs0)
                Htr Hi Hf)
      as (a' & f' & H1 & H2 & H3 & _ & H5).
    by exists a', f'. }
  intros w a Ha.
  destruct (initializeGame_flag_at random sortRandomly w a)
    as (i & c & _ & _ & _ & Hf).
  { revert Ha. rewrite initializeGame_fields. done. }
  unfold statusAt. by rewrite Hf.
Qed.

End Claims.

(** * The claims about starting a round *)

Lemma formation_radius (t : R) :
  sqrt (INITIAL_RADIUS * cos t * (INITIAL_RADIUS * cos t)
        + INITIAL_RADIUS * sin t * (INITIAL_RADIUS * sin t))
  = INITIAL_RADIUS.
Proof.
  replace (INITIAL_RADIUS * cos t * (INITIAL_RADIUS * cos t)
           + INITIAL_RADIUS * sin t * (INITIAL_RADIUS * sin t))
    with (INITIAL_RADIUS * INITIAL_RADIUS * (Rsqr (sin t) + Rsqr (cos t)))
    by (unfold Rsqr; ring).
  rewrite sin2_cos2, Rmult_1_r. apply sqrt_square.
  unfold INITIAL_RADIUS. lra.
Qed.




(** * The claims about the timers *)

(** The claim C2 fails: a minute into a first round one flag is left, the
    frame declares it winner and schedules the restart (handle 2) for
    65000; a round started now, while that restart is pending, leaves it
    pending; the new round goes on, its own timer (handle 3) takes it to
    scatter, and at 65000 the old restart fires into it: the phase is back
    at formation and the flags of the round are replaced. *)
Lemma restart_timer_survives_initializeGame :
  let won := frame fairCoin 0 16 lateRound in
  let restart := {| tid := 2; due := 65000; callback := AutoRestart |} in
  let forced := initializeGame fairCoin keepOrder won in
  let later :=
    run fairCoin keepOrder forced
      [Elapse 2000; TimerFires 3; Elapse 3000] in
  let wiped := step fairCoin keepOrder later (TimerFires 2) in
  timers won = [restart] /\
  startTimeoutRef won = Some 1%nat /\
  restart ∈ timers forced /\
  (phase (physicsRef later) = scatter /\
   isRunning (physicsRef later) = true /\
   clock later = 65000%N /\
   length (flags (physicsRef later)) = 50%nat) /\
  (phase (physicsRef wiped) = formation /\
   flags (physicsRef wiped) <> flags (physicsRef later)).
Proof.
  cbv zeta.
  destruct (frame_declares fairCoin 0 16 lateRound)
    as (wa & wf & _ & _ & _ & ->);
    [reflexivity | reflexivity | apply NoDup_seq | vm_compute; reflexivity |].
  destruct (markWinner (code wf) (heap (physicsPass fairCoin lateRound).2)
              (flags (physicsRef (physicsPass fairCoin lateRound).2)))
    as [h' r] eqn:Hmw.
  rewrite (declareWinner_fields _ _ _ _ _ Hmw).
  split; [reflexivity |]. split; [reflexivity |].
  split; [apply list_elem_of_In; left; reflexivity |].
  split; [repeat split; reflexivity |].
  split; [reflexivity |].
  match goal with |- ?A <> ?B => set (wipedFlags := A); set (laterFlags := B) end.
  assert (H1 : exists k, wipedFlags = seq (length (h' ++ k)) 50
                         /\ length k = 50%nat)
    by (eexists; split; reflexivity).
  assert (H2 : laterFlags = seq (length h') 50) by reflexivity.
  destruct H1 as (k & H1 & Hk). rewrite H1, H2, length_app, Hk.
  intros Heq. apply (f_equal head) in Heq. simpl in Heq.
  injection Heq as Heq. lia.
Qed.

(** C2, as the code has it: [initializeGame] (and the cleanup of the mount
    effect) cancels the one timer whose handle is in [startTimeoutRef], the
    pending change to scatter, and no other; every other pending timer is
    still pending after it.  The restart is scheduled 5000 ms after the win
    and its handle is kept nowhere.  In the states of the mounted component
    at most one restart is pending, and only while the round is stopped. *)
Theorem initializeGame_cancels_start_timer_only
    (random : nat -> R)
    (sortRandomly : nat -> list Country -> list Country * nat) :
  (forall w : World,
     timers (initializeGame random sortRandomly w)
     = timers (cancelStartTimeout w) ++
       [ {| tid := nextTimer w; due := (clock w + 2000)%N;
            callback := StartScatter |} ]) /\
  (forall w : World,
     unmount w = cancelStartTimeout w /\
     timers (cancelStartTimeout w)
     = match startTimeoutRef w with
       | Some (S _ as id) => filter (fun t => tid t <> id) (timers w)
       | _ => timers w
       end) /\
  (forall (w : World) (id : nat) (t : Timer),
     startTimeoutRef w = Some (S id) ->
     t ∈ timers (cancelStartTimeout w) -> tid t <> S id) /\
  (forall (w : World) (t : Timer),
     t ∈ timers w ->
     startTimeoutRef w <> Some (tid t) ->
     t ∈ timers (initializeGame random sortRandomly w)) /\
  (forall (wa : addr) (wf : CountryFlag) (w : World),
     timers (declareWinner wa wf w)
     = timers w ++
       [ {| tid := nextTimer w; due := (clock w + 5000)%N;
            callback := AutoRestart |} ] /\
     startTimeoutRef (declareWinner wa wf w) = startTimeoutRef w) /\
  ((forall k l, Permutation (sortRandomly k l).1 l) ->
   forall evs : list Event,
     let w := run random sortRandomly (mount random sortRandomly) evs in
     (length (pending AutoRestart w) <= 1)%nat /\
     (pending AutoRestart w <> [] -> isRunning (physicsRef w) = false)).
Proof.
  assert (Hcancel : forall w : World,
            timers (cancelStartTimeout w)
            = match startTimeoutRef w with
              | Some (S _ as id) => filter (fun t => tid t <> id) (timers w)
              | _ => timers w
              end).
  { intros w.
    by destruct (cancelStartTimeout_fields w) as (_ & _ & _ & _ & _ & _ & _ & _ & ?). }
  split; [intros w; by rewrite initializeGame_fields |].
  split; [intros w; split; [reflexivity | apply Hcancel] |].
  split.
  { intros w id t Href Ht. rewrite Hcancel, Href in Ht.
    by apply list_elem_of_filter in Ht as [? _]. }
  split.
  { intros w t Ht Hne. rewrite initializeGame_fields. cbn [timers].
    apply elem_of_app. left. rewrite Hcancel.
    destruct (startTimeoutRef w) as [[| n] |]; try done.
    apply list_elem_of_filter. split; [| done]. congruence. }
  split.
  { intros wa wf w.
    destruct (markWinner (code wf) (heap w) (flags (physicsRef w)))
      as [h' r] eqn:Hmw.
    rewrite (declareWinner_fields _ _ _ _ _ Hmw). split; reflexivity. }
  intros Hperm evs.
  by destruct (reachable_invariant random sortRandomly Hperm evs)
    as (_ & _ & _ & _ & _ & _ & _ & ? & ?).
Qed.

(** * The claims about the leaderboard *)


(** * The claims on concrete runs *)

Lemma keepOrder_perm : forall k l, Permutation (keepOrder k l).1 l.
Proof. intros k l. reflexivity. Qed.

Lemma lateRound_valid :
  forall a, a ∈ flags (physicsRef lateRound) ->
            (a < length (heap lateRound))%nat.
Proof.
  intros a Ha. change (flags (physicsRef lateRound)) with (seq 0 50) in Ha.
  apply elem_of_seq in Ha.
  change (length (heap lateRound)) with 50%nat. lia.
Qed.

Lemma lateRound_active :
  countStatus active (heap lateRound) (flags (physicsRef lateRound)) = 1%nat.
Proof. vm_compute. reflexivity. Qed.

(** The guard at a lone flag that reaches the boundary, the frame of the
    late round, and the component just mounted. *)
Lemma sole_active_flag_never_eliminated_witness :
  (exists f',
     pass_heap (visit fairCoin (scatterRef [0%nat])
                  (startPass [outboundFlag] 0) 0) !! 0%nat = Some f' /\
     (status f' = exiting \/ status f' = active) /\
     (countStatus active [outboundFlag] [0%nat] = 1%nat ->
      status f' = active)) /\
  (1 <= countStatus active (heap (frame fairCoin 0 16 lateRound))
          (flags (physicsRef (frame fairCoin 0 16 lateRound))))%nat /\
  (1 <= countStatus active (heap (mount fairCoin keepOrder))
          (flags (physicsRef (mount fairCoin keepOrder))))%nat.
Proof.
  pose proof (sole_active_flag_never_eliminated fairCoin keepOrder
                keepOrder_perm) as (Hguard & Hframe & Hreach).
  split; [| split].
  - destruct (Hguard (scatterRef [0%nat]) [outboundFlag] 0%nat [] 0%nat []
                outboundFlag)
      as (f' & Hf' & Hst & _ & _ & Hsole).
    + apply NoDup_singleton.
    + reflexivity.
    + reflexivity.
    + reflexivity.
    + exists f'. split; [exact Hf' |]. split; [exact Hst |].
      intros Hone. exact (proj1 (Hsole Hone)).
  - apply Hframe.
    + apply NoDup_seq.
    + exact lateRound_valid.
    + rewrite lateRound_active. lia.
  - exact (Hreach []).
Defined.

(** The winner check on the late round and after it. *)
Lemma winner_declared_once_witness :
  (sameOutcome lateRound (frame fairCoin 0 16 lateRound) \/
   (wonOnce lateRound (frame fairCoin 0 16 lateRound) /\
    phase (physicsRef lateRound) = scatter /\
    isRunning (physicsRef lateRound) = true /\
    countStatus active (heap lateRound) (flags (physicsRef lateRound))
    = 1%nat)) /\
  frame fairCoin 0 16 (winnerCheck 1 (Some 0%nat) lateRound)
  = winnerCheck 1 (Some 0%nat) lateRound /\
  sameOutcome (winnerCheck 1 (Some 0%nat) lateRound)
    (run fairCoin keepOrder (winnerCheck 1 (Some 0%nat) lateRound)
       [AnimationFrame 0 16; Elapse 16; AnimationFrame 16 16]) /\
  (countStatus winner (heap (mount fairCoin keepOrder))
     (st_flags (mount fairCoin keepOrder)) <= 1)%nat.
Proof.
  pose proof (winner_declared_once fairCoin keepOrder keepOrder_perm)
    as (Hframe & Hstop & _ & Hrest & Hreach).
  split; [| split; [| split]].
  - apply Hframe. apply NoDup_seq.
  - apply Hstop. reflexivity.
  - apply Hrest; [reflexivity |]. cbn [roundTrace withinRound]. tauto.
  - exact (proj1 (Hreach [])).
Defined.

(** The first flag of the late round through a frame, the first shown
    participant of the first round, and the flags after a new start. *)
Lemma status_only_moves_forward_witness :
  (exists f',
     heap (frame fairCoin 0 16 lateRound) !! 0%nat = Some f' /\
     code f' = "us" /\
     (status f' = winner -> active = winner)) /\
  (exists a' f',
     st_flags (run fairCoin keepOrder (mount fairCoin keepOrder)
                 [AnimationFrame 0 16]) !! 0%nat = Some a' /\
     heap (run fairCoin keepOrder (mount fairCoin keepOrder)
             [AnimationFrame 0 16]) !! a' = Some f' /\
     code f' = "us" /\
     statusLe active (status f') = true) /\
  statusAt (heap (initializeGame fairCoin keepOrder lateRound)) 50
  = Some active.
Proof.
  pose proof (status_only_moves_forward fairCoin keepOrder keepOrder_perm)
    as (Hheap & _ & Hround & Hreset).
  split; [| split].
  - destruct (Hheap 0 16 lateRound 0%nat
                {| code := "us"; name := "USA"; status := active;
                   physics := {| x := 0; y := 0; vx := 2; vy := 0;
                                 angle := 0; vAngle := 0 |} |})
      as (f' & Hf' & Hc & _ & _ & _ & _ & Hw).
    + apply NoDup_seq.
    + reflexivity.
    + exists f'. split; [exact Hf' |]. split; [exact Hc | exact Hw].
  - destruct (Hround [] [AnimationFrame 0 16] 0%nat 0%nat
                (initialFlag fairCoin 50 0 0
                   {| country_code := "us"; country_name := "USA" |}))
      as (a' & f' & H1 & H2 & H3 & H4).
    + cbn [roundTrace withinRound]. tauto.
    + reflexivity.
    + reflexivity.
    + exists a', f'. split; [exact H1 |]. split; [exact H2 |].
      split; [exact H3 | exact H4].
  - apply Hreset. apply list_elem_of_In. left. reflexivity.
Defined.

(** The timers around the win of the late round. *)
Lemma initializeGame_cancels_start_timer_only_witness :
  {| tid := 2; due := 65000; callback := AutoRestart |}
    ∈ timers (initializeGame fairCoin keepOrder
                (winnerCheck 1 (Some 0%nat) lateRound)) /\
  (forall t, t ∈ timers (cancelStartTimeout (mount fairCoin keepOrder)) ->
             tid t <> 1%nat) /\
  (length (pending AutoRestart (mount fairCoin keepOrder)) <= 1)%nat.
Proof.
  pose proof (initializeGame_cancels_start_timer_only fairCoin keepOrder)
    as (_ & _ & Hcancelled & Hkept & _ & Hreach).
  split; [| split].
  - apply Hkept.
    + apply list_elem_of_In. left. reflexivity.
    + discriminate.
  - intros t. apply (Hcancelled (mount fairCoin keepOrder) 0%nat t).
    reflexivity.
  - exact (proj1 (Hreach keepOrder_perm [])).
Defined.


(** * Further properties of the geometry helpers *)

(** The remainder [a % m] for a positive modulus: it differs from [a] by a
    whole multiple of [m], keeps the sign of [a] and stays below [m] in
    size. *)
Theorem Rrem_sign_magnitude (a m : R) :
  0 < m ->
  (exists k : Z, Rrem a m = a - IZR k * m) /\
  (0 <= a -> 0 <= Rrem a m < m) /\
  (a <= 0 -> - m < Rrem a m <= 0).
Proof.
  intros Hm. unfold Rrem, Rtrunc.
  split; [eexists; reflexivity |].
  assert (Hdiv : a = a / m * m) by (field; lra).
  split.
  - intros Ha.
    assert (0 <= a / m) by (apply Rmult_le_pos; [lra |];
                            left; by apply Rinv_0_lt_compat).
    rewrite decide_True by done.
    pose proof (Int_part_bounds (a / m)) as [Hlo Hhi].
    split; nra.
  - intros Ha. destruct (decide (0 <= a / m)) as [Hq | Hq].
    + assert (a / m <= 0).
      { unfold Rdiv. assert (0 < / m) by (by apply Rinv_0_lt_compat). nra. }
      assert (a / m = 0) by lra.
      assert (Hz : 0%Z = Int_part (a / m)) by (apply Int_part_spec; simpl; lra).
      rewrite <- Hz. simpl. assert (a = 0) by nra. lra.
    + pose proof (Int_part_bounds (- (a / m))) as [Hlo Hhi].
      rewrite opp_IZR. split; nra.
Qed.

Lemma Rrem_sign_magnitude_witness :
  0 < 360 /\ -90 <= 0 /\ - 360 < Rrem (-90) 360 <= 0.
Proof.
  assert (H : 0 < 360) by lra. assert (H' : -90 <= 0) by lra.
  split; [exact H |]. split; [exact H' |].
  exact (proj2 (proj2 (Rrem_sign_magnitude (-90) 360 H)) H').
Defined.

(** In exact real arithmetic [normalizeAngle] leaves the angles of
    [0, 360) as they are, so normalizing twice is normalizing once, and an
    angle of (-360, 0) is moved up by one turn.  On binary64 numbers, as
    the program runs, normalizing twice is not normalizing once: -1e-20
    goes to 360, and 360 goes to 0. *)
Theorem normalizeAngle_idempotent :
  (forall a : R, 0 <= a < 360 -> normalizeAngle a = a) /\
  (forall a : R, normalizeAngle (normalizeAngle a) = normalizeAngle a) /\
  (forall a : R, -360 < a < 0 -> normalizeAngle a = a + 360) /\
  (Binary64.normalizeAngle Binary64.minusTiny = Binary64.fullTurn /\
   Binary64.normalizeAngle (Binary64.normalizeAngle Binary64.minusTiny)
   = Binary64.zero /\
   PrimFloat.eqb
     (Binary64.normalizeAngle (Binary64.normalizeAngle Binary64.minusTiny))
     (Binary64.normalizeAngle Binary64.minusTiny) = false).
Proof.
  split; [| split; [| split]].
  - intros a Ha. apply (normalizeAngle_unique a a 0); [done | lra].
  - intros a. apply (normalizeAngle_unique _ _ 0);
      [apply normalizeAngle_range | lra].
  - intros a Ha. apply (normalizeAngle_unique a (a + 360) (-1)); lra.
  - vm_compute. repeat split.
Qed.

Lemma normalizeAngle_idempotent_witness :
  normalizeAngle 350 = 350 /\ normalizeAngle (-90) = -90 + 360.
Proof.
  split.
  - apply (proj1 normalizeAngle_idempotent). lra.
  - apply (proj1 (proj2 (proj2 normalizeAngle_idempotent))). lra.
Defined.

(** ** The angle of a flag *)

Lemma sqrt_one_plus_pos (t : R) : 0 < sqrt (1 + t²).
Proof. apply sqrt_lt_R0. pose proof (Rle_0_sqr t). lra. Qed.

Lemma radius_factor (px py : R) :
  px <> 0 ->
  sqrt (px * px + py * py) = Rabs px * sqrt (1 + (py / px)²).
Proof.
  intros Hx.
  replace (px * px + py * py) with (px² * (1 + (py / px)²))
    by (unfold Rsqr; field; done).
  rewrite sqrt_mult; [| apply Rle_0_sqr | pose proof (Rle_0_sqr (py / px)); lra].
  by rewrite sqrt_Rsqr_abs.
Qed.

Lemma atan_sign_neg (t : R) : t <= 0 -> atan t <= 0.
Proof.
  intros [Ht | ->]; [| rewrite atan_0; lra].
  left. rewrite <- atan_0. by apply atan_increasing.
Qed.

Lemma atan_sign_pos (t : R) : 0 < t -> 0 < atan t.
Proof. intros Ht. rewrite <- atan_0. by apply atan_increasing. Qed.

(** [atan2 y x] is an argument of the point [(x, y)], in (-PI, PI]. *)
Lemma atan2_polar (px py : R) :
  px <> 0 \/ py <> 0 ->
  - PI < atan2 py px <= PI /\
  px = sqrt (px * px + py * py) * cos (atan2 py px) /\
  py = sqrt (px * px + py * py) * sin (atan2 py px).
Proof.
  intros Hne. unfold atan2. pose proof PI_RGT_0 as Hpi.
  destruct (decide (0 < px)) as [Hpos | Hnpos].
  - pose proof (atan_bound (py / px)) as Hb.
    pose proof (sqrt_one_plus_pos (py / px)) as Hs.
    rewrite radius_factor by lra. rewrite Rabs_right by lra.
    rewrite cos_atan, sin_atan.
    split; [lra |]. split; field; lra.
  - destruct (decide (px < 0)) as [Hneg | Hnneg].
    + pose proof (atan_bound (py / px)) as Hb.
      pose proof (sqrt_one_plus_pos (py / px)) as Hs.
      rewrite radius_factor by lra. rewrite Rabs_left by lra.
      destruct (decide (0 <= py)) as [Hy | Hy].
      * assert (Hat : atan (py / px) <= 0).
        { apply atan_sign_neg. unfold Rdiv.
          assert (/ px < 0) by (by apply Rinv_lt_0_compat). nra. }
        rewrite neg_cos, neg_sin, cos_atan, sin_atan.
        split; [lra |]. split; field; lra.
      * assert (Hat : 0 < atan (py / px)).
        { apply atan_sign_pos. unfold Rdiv.
          assert (/ px < 0) by (by apply Rinv_lt_0_compat). nra. }
        rewrite cos_minus, sin_minus, cos_PI, sin_PI, cos_atan, sin_atan.
        split; [lra |]. split; field; lra.
    + assert (px = 0) as -> by lra.
      replace (0 * 0 + py * py) with (py²) by (unfold Rsqr; ring).
      rewrite sqrt_Rsqr_abs.
      destruct (decide (0 < py)) as [Hy | Hy].
      * rewrite cos_PI2, sin_PI2, Rabs_right by lra. lra.
      * destruct (decide (py < 0)) as [Hy' | Hy'].
        -- rewrite cos_neg, sin_neg, cos_PI2, sin_PI2, Rabs_left by lra. lra.
        -- destruct Hne; lra.
Qed.

(** In exact real arithmetic the angle the gap test is given (lines
    281-282) is the polar angle of the flag in degrees, brought into
    [0, 360): the flag sits at its distance from the centre in that
    direction. *)
Theorem flagAngle_polar (p : PhysicsState) :
  0 < distance p ->
  let flagAngle := normalizeAngle (atan2 (y p) (x p) * (180 / PI)) in
  0 <= flagAngle < 360 /\
  x p = distance p * cos (flagAngle * (PI / 180)) /\
  y p = distance p * sin (flagAngle * (PI / 180)).
Proof.
  intros Hd. cbv zeta. pose proof PI_RGT_0 as Hpi.
  assert (Hne : x p <> 0 \/ y p <> 0).
  { destruct (Req_dec (x p) 0) as [Hx | Hx]; [| by left].
    destruct (Req_dec (y p) 0) as [Hy | Hy]; [| by right].
    exfalso. unfold distance in Hd. rewrite Hx, Hy in Hd.
    replace (0 * 0 + 0 * 0) with 0 in Hd by ring. rewrite sqrt_0 in Hd. lra. }
  destruct (atan2_polar (x p) (y p) Hne) as (Hr & Hx & Hy).
  fold (distance p) in Hx, Hy.
  set (t := atan2 (y p) (x p)) in *.
  split; [apply normalizeAngle_range |].
  assert (Hdeg : -180 < t * (180 / PI) <= 180).
  { replace (t * (180 / PI)) with (t / PI * 180) by (field; lra).
    assert (-1 < t / PI <= 1); [| lra].
    split.
    - apply (Rmult_lt_reg_r PI); [lra |]. field_simplify; lra.
    - apply (Rmult_le_reg_r PI); [lra |]. field_simplify; lra. }
  destruct (Rle_dec 0 (t * (180 / PI))) as [Hnn | Hn].
  - rewrite (normalizeAngle_unique _ (t * (180 / PI)) 0) by lra.
    replace (t * (180 / PI) * (PI / 180)) with t by (field; lra). done.
  - rewrite (normalizeAngle_unique _ (t * (180 / PI) + 360) (-1)) by lra.
    replace ((t * (180 / PI) + 360) * (PI / 180)) with (t + 2 * PI)
      by (field; lra).
    rewrite cos_plus, sin_plus, cos_2PI, sin_2PI. split; lra.
Qed.

Lemma flagAngle_polar_witness :
  0 < distance atBoundary /\
  x atBoundary
  = distance atBoundary
    * cos (normalizeAngle (atan2 (y atBoundary) (x atBoundary) * (180 / PI))
           * (PI / 180)).
Proof.
  assert (H : 0 < distance atBoundary) by (rewrite atBoundary_distance; lra).
  split; [exact H |].
  exact (proj1 (proj2 (flagAngle_polar atBoundary H))).
Defined.

(** * Further properties of the physics of one flag *)

Lemma speed_sqr (p : PhysicsState) :
  speed p * speed p = vx p * vx p + vy p * vy p.
Proof. unfold speed. apply sqrt_def. nra. Qed.

Lemma exitBoost_speed (r1 r2 : R) (p : PhysicsState) :
  speed (exitBoost r1 r2 p) = 16 / 10 * speed p.
Proof.
  unfold speed, exitBoost. cbn [vx vy].
  replace (vx p * (16 / 10) * (vx p * (16 / 10))
           + vy p * (16 / 10) * (vy p * (16 / 10)))
    with ((16 / 10) * (16 / 10) * (vx p * vx p + vy p * vy p)) by ring.
  rewrite sqrt_mult by nra. rewrite sqrt_square by lra. reflexivity.
Qed.

(** An active flag that leaves through the gap (lines 299-304) leaves from
    where its step took it and, in exact real arithmetic, 1.6 times as fast
    in the same direction and, the draws being in [0, 1), with a spin
    within [12, 20) or [-12, -4). *)
Theorem exit_boost_speed_and_spin
    (random : nat -> R) (ref : PhysicsRef) (st : Pass) (a : addr)
    (f : CountryFlag) :
  phase ref = scatter ->
  pass_heap st !! a = Some f ->
  status f = active ->
  0 <= random (S (pass_rng st)) < 1 ->
  exists f',
    pass_heap (visit random ref st a) !! a = Some f' /\
    (status f' = exiting ->
     x (physics f') = x (physics f) + vx (physics f) /\
     y (physics f') = y (physics f) + vy (physics f) /\
     vx (physics f') = 16 / 10 * vx (physics f) /\
     vy (physics f') = 16 / 10 * vy (physics f) /\
     speed (physics f') = 16 / 10 * speed (physics f) /\
     (12 <= vAngle (physics f') < 20 \/ -12 <= vAngle (physics f') < -4)).
Proof.
  intros Hph Hf Hs Hr.
  rewrite (visit_active_scatter random ref st a f Hph Hf Hs).
  destruct (decide _) as [Hhit | Hno].
  - destruct (_ && _).
    + eexists. split; [reflexivity |]. intros _.
      cbn [physics set_physics set_status].
      rewrite exitBoost_speed.
      unfold exitBoost, integrate. cbn [x y vx vy vAngle].
      split; [reflexivity |]. split; [reflexivity |].
      split; [ring |]. split; [ring |].
      split.
      * f_equal.
      * destruct (decide (random (pass_rng st) > 5 / 10)); lra.
    + eexists. split; [reflexivity |].
      cbn [status set_physics]. rewrite Hs. discriminate.
  - eexists. split; [reflexivity |].
    cbn [status set_physics]. rewrite Hs. discriminate.
Qed.

(** A flag on the positive x axis faces the gap of a ring at angle 0. *)
Lemma atBoundary_inside_gap :
  isInsideGap 315 360 0
    (normalizeAngle (atan2 (y atBoundary) (x atBoundary) * (180 / PI))) = true.
Proof.
  assert (Hangle : normalizeAngle
                     (atan2 (y atBoundary) (x atBoundary) * (180 / PI)) = 0).
  { unfold atan2, atBoundary. cbn [x y].
    rewrite decide_True by lra.
    replace (0 / 150) with 0 by lra. rewrite atan_0.
    apply (normalizeAngle_unique _ _ 0); lra. }
  rewrite Hangle. apply isInsideGap_true_iff. cbv zeta.
  unfold GAP_TOLERANCE.
  rewrite (normalizeAngle_unique (315 + 0 - 4) 311 0) by lra.
  rewrite (normalizeAngle_unique (360 + 0 + 4) 4 1) by lra.
  rewrite decide_False by lra. right. lra.
Qed.

(** A pass over two active flags, the first at rest at the centre, the
    second stepping onto the boundary where the gap is: the second one
    leaves, boosted. *)
Lemma exit_boost_speed_and_spin_witness :
  let ref := scatterRef [0%nat; 1%nat] in
  let st := visit fairCoin ref (startPass [restingFlag; outboundFlag] 0) 0 in
  exists f',
    pass_heap (visit fairCoin ref st 1) !! 1%nat = Some f' /\
    status f' = exiting /\
    speed (physics f') = 16 / 10 * speed (physics outboundFlag) /\
    (12 <= vAngle (physics f') < 20 \/ -12 <= vAngle (physics f') < -4).
Proof.
  intros ref st.
  assert (Hr : 0 <= fairCoin (S (pass_rng st)) < 1) by (unfold fairCoin; lra).
  assert (Hf : pass_heap st !! 1%nat = Some outboundFlag).
  { unfold st. rewrite visit_other by done. reflexivity. }
  destruct (exit_boost_speed_and_spin fairCoin ref st 1%nat outboundFlag
              eq_refl Hf eq_refl Hr) as (f' & Hf' & H).
  assert (Hexit : status f' = exiting).
  { destruct (guard_at_visit fairCoin ref [restingFlag; outboundFlag] 0%nat
                [0%nat] 1%nat [] outboundFlag)
      as (g & Hg & _ & Hiff & _);
      [apply (NoDup_seq 0 2) | reflexivity | exact Hf | reflexivity |].
    cbv zeta in Hiff.
    change (foldl (visit fairCoin ref)
              (startPass [restingFlag; outboundFlag] 0) [0%nat])
      with st in Hg, Hiff.
    assert (g = f') by congruence. subst g.
    apply Hiff. split; [| split].
    - change (physics outboundFlag) with outbound.
      rewrite outbound_step. exact atBoundary_event.
    - change (physics outboundFlag) with outbound.
      rewrite outbound_step. exact atBoundary_inside_gap.
    - rewrite visit_activeCount. unfold st at 1. rewrite visit_activeCount.
      rewrite (bool_decide_eq_true_2
                 (statusAt (pass_heap
                    (startPass [restingFlag; outboundFlag] 0)) 0%nat
                  = Some active)) by reflexivity.
      rewrite (bool_decide_eq_true_2
                 (statusAt (pass_heap st) 1%nat = Some active))
        by (unfold statusAt; by rewrite Hf).
      cbn [startPass activeCount]. lia. }
  exists f'. split; [exact Hf' |]. split; [exact Hexit |].
  destruct (H Hexit) as (_ & _ & _ & _ & Hspeed & Hspin).
  split; [exact Hspeed | exact Hspin].
Defined.

(** In exact real arithmetic the mirroring of lines 307-311 turns the
    velocity component along the normal into its opposite, whatever its
    sign, and keeps the component along the boundary: a flag caught at the
    boundary while already moving inward is sent outward. *)
Theorem reflect_flips_radial (p : PhysicsState) :
  0 < distance p ->
  let nx := x p / distance p in
  let ny := y p / distance p in
  let q := reflect (distance p) p in
  vx q * nx + vy q * ny = - (vx p * nx + vy p * ny) /\
  vx q * (- ny) + vy q * nx = vx p * (- ny) + vy p * nx.
Proof.
  intros Hd. cbv zeta. pose proof (unit_normal p Hd) as Hn.
  unfold reflect. cbn [vx vy].
  set (nx := x p / distance p) in *. set (ny := y p / distance p) in *.
  set (d := vx p * nx + vy p * ny).
  split.
  - replace ((vx p - 2 * d * nx) * nx + (vy p - 2 * d * ny) * ny)
      with (d - 2 * d * (nx * nx + ny * ny)) by (unfold d; ring).
    rewrite Hn. ring.
  - ring.
Qed.

Lemma reflect_flips_radial_witness :
  0 < distance atBoundary /\
  vx (reflect (distance atBoundary) atBoundary)
    * (x atBoundary / distance atBoundary)
  + vy (reflect (distance atBoundary) atBoundary)
    * (y atBoundary / distance atBoundary)
  = - (vx atBoundary * (x atBoundary / distance atBoundary)
       + vy atBoundary * (y atBoundary / distance atBoundary)).
Proof.
  assert (H : 0 < distance atBoundary) by (rewrite atBoundary_distance; lra).
  split; [exact H |].
  exact (proj1 (reflect_flips_radial atBoundary H)).
Defined.

(** ** The values handed to the renderer *)

Lemma fadeProgress_range (dist : R) : 0 <= fadeProgress dist <= 1.
Proof.
  unfold fadeProgress. cbv zeta. split.
  - apply Rmax_l.
  - apply Rmax_lub; [lra | apply Rmin_l].
Qed.

Lemma fadeProgress_mono (d1 d2 : R) :
  d1 <= d2 -> fadeProgress d1 <= fadeProgress d2.
Proof.
  intros Hle. unfold fadeProgress, BOUNDARY_RADIUS. cbv zeta.
  apply Rle_max_compat_l. apply Rle_min_compat_l. lra.
Qed.

Lemma exitFade_range (dist : R) :
  0 <= exitOpacity dist <= 1 /\ 7 / 10 <= exitScale dist <= 1.
Proof.
  pose proof (fadeProgress_range dist). unfold exitOpacity, exitScale. lra.
Qed.

Lemma exitFade_near (dist : R) :
  dist <= BOUNDARY_RADIUS -> exitOpacity dist = 1 /\ exitScale dist = 1.
Proof.
  intros Hd.
  assert (fadeProgress dist = 0).
  { unfold fadeProgress, BOUNDARY_RADIUS in *. cbv zeta.
    rewrite Rmin_right by lra. rewrite Rmax_left by lra. reflexivity. }
  unfold exitOpacity, exitScale. lra.
Qed.

Lemma exitFade_far (dist : R) :
  BOUNDARY_RADIUS * (25 / 10) <= dist ->
  exitOpacity dist = 0 /\ exitScale dist = 7 / 10.
Proof.
  intros Hd.
  assert (fadeProgress dist = 1).
  { unfold fadeProgress, BOUNDARY_RADIUS in *. cbv zeta.
    rewrite Rmin_left by lra. rewrite Rmax_right by lra. reflexivity. }
  unfold exitOpacity, exitScale. lra.
Qed.

(** The fade of an exiting flag (lines 324-330): opacity within [0, 1] and
    scale within [0.7, 1]; full size and opaque up to the boundary radius,
    gone and at 0.7 from two and a half radii on; never brighter further
    out. *)
Theorem exit_fade_bounds :
  (forall dist : R,
     0 <= exitOpacity dist <= 1 /\ 7 / 10 <= exitScale dist <= 1) /\
  (forall dist : R,
     dist <= BOUNDARY_RADIUS -> exitOpacity dist = 1 /\ exitScale dist = 1) /\
  (forall dist : R,
     BOUNDARY_RADIUS * (25 / 10) <= dist ->
     exitOpacity dist = 0 /\ exitScale dist = 7 / 10) /\
  (forall d1 d2 : R,
     d1 <= d2 ->
     exitOpacity d2 <= exitOpacity d1 /\ exitScale d2 <= exitScale d1).
Proof.
  split; [exact exitFade_range |].
  split; [exact exitFade_near |].
  split; [exact exitFade_far |].
  intros d1 d2 Hle. pose proof (fadeProgress_mono d1 d2 Hle).
  unfold exitOpacity, exitScale. lra.
Qed.

Lemma exit_fade_bounds_witness :
  100 <= BOUNDARY_RADIUS /\ exitOpacity 100 = 1 /\
  BOUNDARY_RADIUS * (25 / 10) <= 400 /\ exitOpacity 400 = 0 /\
  exitOpacity 300 <= exitOpacity 200.
Proof.
  assert (H1 : 100 <= BOUNDARY_RADIUS) by (unfold BOUNDARY_RADIUS; lra).
  assert (H2 : BOUNDARY_RADIUS * (25 / 10) <= 400)
    by (unfold BOUNDARY_RADIUS; lra).
  assert (H3 : 200 <= 300) by lra.
  split; [exact H1 |].
  split; [exact (proj1 (proj1 (proj2 exit_fade_bounds) 100 H1)) |].
  split; [exact H2 |].
  split; [exact (proj1 (proj1 (proj2 (proj2 exit_fade_bounds)) 400 H2)) |].
  exact (proj1 (proj2 (proj2 (proj2 exit_fade_bounds)) 200 300 H3)).
Defined.

(** What the loop writes for a flag stays in range: nothing at all for an
    eliminated flag; otherwise a scale within [0.7, 1.1] and an opacity
    within [0, 1] when it sets them; in the formation phase heading 0,
    scale 1 and opacity 1.  And an exiting flag is marked eliminated
    exactly when its step takes it beyond 400, at which point the opacity
    just written is 0 and the scale 0.7. *)
Theorem motion_values_in_range :
  (forall (ph : Phase) (time : R) (flag : CountryFlag),
     status flag = eliminated <-> motionWrite ph time flag = None) /\
  (forall (ph : Phase) (time : R) (flag : CountryFlag) (m : MotionWrite),
     motionWrite ph time flag = Some m ->
     (forall s, mv_scale m = Some s -> 7 / 10 <= s <= 11 / 10) /\
     (forall o, mv_opacity m = Some o -> 0 <= o <= 1) /\
     (ph = formation ->
      mv_angle m = 0 /\ mv_scale m = Some 1 /\ mv_opacity m = Some 1)) /\
  (forall (random : nat -> R) (ref : PhysicsRef) (st : Pass) (a : addr)
          (f : CountryFlag) (time : R),
     phase ref = scatter ->
     pass_heap st !! a = Some f ->
     status f = exiting ->
     exists f' m,
       pass_heap (visit random ref st a) !! a = Some f' /\
       motionWrite scatter time f = Some m /\
       mv_x m = x (physics f') /\ mv_y m = y (physics f') /\
       (status f' = eliminated \/ status f' = exiting) /\
       (status f' = eliminated <->
        distance (physics f') > BOUNDARY_RADIUS * (25 / 10)) /\
       (status f' = eliminated ->
        mv_opacity m = Some 0 /\ mv_scale m = Some (7 / 10))).
Proof.
  split; [| split].
  - intros ph time flag. unfold motionWrite.
    destruct (decide (status flag = eliminated)) as [He | Hne].
    + split; done.
    + split; [done |]. destruct ph; [discriminate |].
      destruct (status flag); discriminate.
  - intros ph time flag m Hm. unfold motionWrite in Hm.
    destruct (decide (status flag = eliminated)) as [He | Hne];
      [discriminate |].
    destruct ph.
    + injection Hm as <-. cbn [mv_scale mv_opacity mv_angle].
      split; [intros s [= <-]; lra |]. split; [intros o [= <-]; lra |].
      done.
    + destruct (status flag) eqn:Hs; injection Hm as <-;
        cbn [mv_scale mv_opacity mv_angle];
        (split; [| split; [| discriminate]]);
        try (intros ? [= <-]); try discriminate.
      * unfold breathe.
        match goal with |- context [sin ?t] => pose proof (SIN_bound t) end.
        lra.
      * destruct (exitFade_range (distance (integrate (physics flag))))
          as [_ ?]. lra.
      * by destruct (exitFade_range (distance (integrate (physics flag))))
          as [? _].
  - intros random ref st a f time Hph Hf Hs.
    pose proof (lookup_lt_Some _ _ _ Hf) as Hlt.
    unfold visit, motionWrite. rewrite Hf, Hph, Hs.
    rewrite !decide_False by discriminate. cbn [pass_heap].
    rewrite list_lookup_insert_eq by done.
    set (p1 := integrate (physics f)).
    destruct (decide (distance p1 > BOUNDARY_RADIUS * (25 / 10)))
      as [Hfar | Hnear].
    + eexists _, _. split; [reflexivity |]. split; [reflexivity |].
      cbn [mv_x mv_y mv_opacity mv_scale status physics set_status
           set_physics].
      split; [reflexivity |]. split; [reflexivity |].
      split; [by left |]. split; [done |]. intros _.
      destruct (exitFade_far (distance p1)) as [-> ->]; [lra | done].
    + eexists _, _. split; [reflexivity |]. split; [reflexivity |].
      cbn [mv_x mv_y mv_opacity mv_scale status physics set_status
           set_physics].
      rewrite Hs.
      split; [reflexivity |]. split; [reflexivity |].
      split; [by right |]. split; [split; [discriminate | done] |].
      discriminate.
Qed.

(** An exiting flag far out on the x axis, flying on. *)
Lemma motion_values_in_range_witness :
  exists f' m,
    pass_heap (visit fairCoin (scatterRef [0%nat])
                 (startPass [set_status exiting outboundFlag] 0) 0) !! 0%nat
    = Some f' /\
    motionWrite scatter 0 (set_status exiting outboundFlag) = Some m /\
    (forall o, mv_opacity m = Some o -> 0 <= o <= 1) /\
    (status f' = eliminated -> mv_opacity m = Some 0).
Proof.
  pose proof motion_values_in_range as (_ & Hrange & Hexit).
  destruct (Hexit fairCoin (scatterRef [0%nat])
              (startPass [set_status exiting outboundFlag] 0) 0%nat
              (set_status exiting outboundFlag) 0 eq_refl eq_refl eq_refl)
    as (f' & m & Hf' & Hm & _ & _ & _ & _ & Hgone).
  exists f', m. split; [exact Hf' |]. split; [exact Hm |].
  split.
  - exact (proj1 (proj2 (Hrange scatter 0 _ m Hm))).
  - intros He. exact (proj1 (Hgone He)).
Defined.

(** * Further properties of the pass and the frame *)

Section Pointwise.

Variable random : nat -> R.

Implicit Types (w : World) (ref : PhysicsRef) (st : Pass) (a b : addr).

(** A relation between a flag object before and after, kept by doing
    nothing and by any one visit, is kept by the whole pass. *)
Lemma pass_pointwise ref (P : CountryFlag -> CountryFlag -> Prop) h r l :
  (forall f, P f f) ->
  (forall st a f f',
     pass_heap st !! a = Some f ->
     pass_heap (visit random ref st a) !! a = Some f' -> P f f') ->
  NoDup l ->
  forall b f, h !! b = Some f ->
    exists f', pass_heap (foldl (visit random ref) (startPass h r) l) !! b
               = Some f' /\ P f f'.
Proof.
  intros Hrefl Hstep. induction l as [| a l IH] using rev_ind; intros Hnd b f Hf.
  - exists f. split; [done | apply Hrefl].
  - apply NoDup_app in Hnd as (Hnd & Hdisj & _).
    assert (Ha : a ∉ l) by (intros Hin; apply (Hdisj a Hin); by left).
    rewrite foldl_snoc.
    destruct (decide (a = b)) as [-> | Hne].
    + destruct (pass_prefix random ref h r l Hnd) as (_ & Hout & _).
      cbv zeta in Hout. specialize (Hout b Ha). rewrite Hf in Hout.
      destruct (visit_at random ref _ b f Hout) as (f' & Hf' & _).
      exists f'. split; [done |]. by eapply Hstep.
    + rewrite visit_other by done. by apply IH.
Qed.

(** What a frame leaves alone in [physicsRef]. *)
Lemma frame_ref time delta w :
  flags (physicsRef (frame random time delta w)) = flags (physicsRef w) /\
  phase (physicsRef (frame random time delta w)) = phase (physicsRef w) /\
  gapStart (physicsRef (frame random time delta w)) = gapStart (physicsRef w) /\
  gapEnd (physicsRef (frame random time delta w)) = gapEnd (physicsRef w) /\
  startTimeoutRef (frame random time delta w) = startTimeoutRef w /\
  clock (frame random time delta w) = clock w /\
  st_visualPathLength (frame random time delta w) = st_visualPathLength w.
Proof.
  destruct (frame_cases random time delta w)
    as [-> | (Hrun & [-> | (wa & wf & _ & _ & _ & _ & ->)])]; [done | |].
  - unfold physicsPass. cbn. done.
  - destruct (markWinner (code wf) (heap (physicsPass random w).2)
                (flags (physicsRef (physicsPass random w).2)))
      as [h' r] eqn:Hmw.
    rewrite (declareWinner_fields _ _ _ _ _ Hmw).
    unfold physicsPass. cbn. done.
Qed.

(** The same for the whole frame; the visits are those of the round's
    phase. *)
Lemma frame_pointwise (P : CountryFlag -> CountryFlag -> Prop) time delta w :
  (forall f, P f f) ->
  (forall ref st a f f',
     phase ref = phase (physicsRef w) ->
     pass_heap st !! a = Some f ->
     pass_heap (visit random ref st a) !! a = Some f' -> P f f') ->
  NoDup (flags (physicsRef w)) ->
  forall b f, heap w !! b = Some f ->
    exists f', heap (frame random time delta w) !! b = Some f' /\ P f f'.
Proof.
  intros Hrefl Hstep Hnd b f Hf.
  set (ref := set_ringAngle
                (Rrem (ringAngle (physicsRef w) + ROTATION_SPEED) 360)
                (physicsRef w)).
  assert (Hpass : exists f', heap (physicsPass random w).2 !! b = Some f'
                             /\ P f f').
  { unfold physicsPass, pass. cbn [snd heap]. fold ref.
    apply (pass_pointwise ref P); try done.
    intros st a g g'. by apply Hstep. }
  destruct (frame_cases random time delta w)
    as [-> | (Hrun & [-> | (wa & wf & _ & _ & _ & _ & ->)])].
  - exists f. split; [done | apply Hrefl].
  - exact Hpass.
  - destruct Hpass as (f' & Hf' & HP).
    destruct (declareWinner_extends wa wf (physicsPass random w).2)
      as [ext ->].
    exists f'. split; [by apply lookup_app_l_Some | done].
Qed.

Lemma formationStep_distance (p : PhysicsState) :
  distance (formationStep p) = distance p.
Proof.
  unfold distance, formationStep. cbn [x y]. f_equal.
  set (c := cos FORMATION_SPIN_SPEED). set (s := sin FORMATION_SPIN_SPEED).
  assert (Hcs : s * s + c * c = 1).
  { pose proof (sin2_cos2 FORMATION_SPIN_SPEED) as H. unfold Rsqr in H.
    exact H. }
  replace ((x p * c - y p * s) * (x p * c - y p * s)
           + (x p * s + y p * c) * (x p * s + y p * c))
    with ((x p * x p + y p * y p) * (s * s + c * c)) by ring.
  rewrite Hcs. ring.
Qed.

(** What one visit does to a flag, by phase and status. *)
Lemma visit_by_cases ref st a f f' :
  pass_heap st !! a = Some f ->
  pass_heap (visit random ref st a) !! a = Some f' ->
  (status f = eliminated /\ f' = f) \/
  (status f <> eliminated /\ phase ref = formation /\
   f' = set_physics (formationStep (physics f)) f) \/
  (status f = active /\ phase ref = scatter /\
   (f' = set_physics (integrate (physics f)) f /\
    ~ distance (integrate (physics f)) + FLAG_RADIUS >= BOUNDARY_RADIUS
    \/ distance (integrate (physics f)) + FLAG_RADIUS >= BOUNDARY_RADIUS /\
       (status f' = exiting
        \/ exists r1 r2,
             f' = set_physics
                    (bounce (distance (integrate (physics f))) r1 r2
                       (integrate (physics f))) f))) \/
  (status f = exiting /\ phase ref = scatter /\
   physics f' = integrate (physics f) /\
   (status f' = exiting \/ status f' = eliminated)) \/
  (status f = winner /\ phase ref = scatter /\
   f' = set_physics (integrate (physics f)) f).
Proof.
  intros Hf Hf'. pose proof (lookup_lt_Some _ _ _ Hf) as Hlt.
  destruct (decide (status f = eliminated)) as [He | Hne].
  - left. split; [done |]. unfold visit in Hf'. rewrite Hf in Hf'.
    rewrite decide_True in Hf' by done. congruence.
  - right. destruct (phase ref) eqn:Hph.
    + left. split; [done |]. split; [done |].
      unfold visit in Hf'. rewrite Hf, Hph in Hf'.
      rewrite decide_False in Hf' by done. cbn [pass_heap] in Hf'.
      rewrite list_lookup_insert_eq in Hf' by done. congruence.
    + right. destruct (status f) eqn:Hs; [| | done |].
      * left. split; [done |]. split; [done |].
        rewrite (visit_active_scatter random ref st a f Hph Hf Hs) in Hf'.
        injection Hf' as <-.
        destruct (decide _) as [Hhit | Hno]; [right | left; done].
        split; [done |].
        destruct (_ && _); [left; done | right].
        by eexists _, _.
      * right. left. split; [done |]. split; [done |].
        unfold visit in Hf'. rewrite Hf, Hph, Hs in Hf'.
        rewrite decide_False in Hf' by done. cbn [pass_heap] in Hf'.
        rewrite list_lookup_insert_eq in Hf' by done. injection Hf' as <-.
        destruct (decide _); cbn [physics status set_status set_physics];
          rewrite ?Hs; auto.
      * right. right. split; [done |]. split; [done |].
        unfold visit in Hf'. rewrite Hf, Hph, Hs in Hf'.
        rewrite decide_False in Hf' by done. cbn [pass_heap] in Hf'.
        rewrite list_lookup_insert_eq in Hf' by done. congruence.
Qed.

End Pointwise.

(** A frame of the formation phase (lines 241-256) turns the flags about
    the centre and does nothing else: every flag keeps its status, its
    velocity, heading and spin and, in exact real arithmetic, its distance
    from the centre; no draw is made, the phase stays formation and the
    winner check does not run. *)
Theorem formation_frame_rigid (random : nat -> R) (time delta : R)
    (w : World) :
  phase (physicsRef w) = formation ->
  NoDup (flags (physicsRef w)) ->
  (forall a f, heap w !! a = Some f ->
     exists f',
       heap (frame random time delta w) !! a = Some f' /\
       code f' = code f /\ status f' = status f /\
       distance (physics f') = distance (physics f) /\
       vx (physics f') = vx (physics f) /\
       vy (physics f') = vy (physics f) /\
       angle (physics f') = angle (physics f) /\
       vAngle (physics f') = vAngle (physics f) /\
       (f' = f \/
        x (physics f') = x (physics f) * cos FORMATION_SPIN_SPEED
                         - y (physics f) * sin FORMATION_SPIN_SPEED /\
        y (physics f') = x (physics f) * sin FORMATION_SPIN_SPEED
                         + y (physics f) * cos FORMATION_SPIN_SPEED)) /\
  phase (physicsRef (frame random time delta w)) = formation /\
  sameOutcome w (frame random time delta w).
Proof.
  intros Hph Hnd. split; [| split].
  - intros a f Hf.
    apply (frame_pointwise random
             (fun f f' =>
                code f' = code f /\ status f' = status f /\
                distance (physics f') = distance (physics f) /\
                vx (physics f') = vx (physics f) /\
                vy (physics f') = vy (physics f) /\
                angle (physics f') = angle (physics f) /\
                vAngle (physics f') = vAngle (physics f) /\
                (f' = f \/
                 x (physics f') = x (physics f) * cos FORMATION_SPIN_SPEED
                                  - y (physics f) * sin FORMATION_SPIN_SPEED /\
                 y (physics f') = x (physics f) * sin FORMATION_SPIN_SPEED
                                  + y (physics f) * cos FORMATION_SPIN_SPEED)));
      try done.
    + intros g. repeat split; try done. by left.
    + intros ref st b g g' Href Hg Hg'. rewrite Hph in Href.
      destruct (visit_by_cases random ref st b g g' Hg Hg')
        as [[_ ->] | [(_ & _ & ->) | [(_ & Hc & _) | [(_ & Hc & _) | (_ & Hc & _)]]]];
        try congruence.
      * repeat split; try done. by left.
      * cbn [code status physics set_physics].
        rewrite formationStep_distance.
        repeat split; try done. right. done.
  - by destruct (frame_ref random time delta w) as (_ & -> & _).
  - destruct (frame_outcome random time delta w)
      as [H | (_ & Hs & _)]; [done | congruence].
Qed.

(** The flags of the first round, just mounted, through a frame. *)
Lemma formation_frame_rigid_witness :
  exists f',
    heap (frame fairCoin 0 16 (mount fairCoin keepOrder)) !! 0%nat = Some f' /\
    status f' = active /\
    distance (physics f')
    = distance (physics (initialFlag fairCoin 50 0 0
                           {| country_code := "us"; country_name := "USA" |})).
Proof.
  destruct (formation_frame_rigid fairCoin 0 16 (mount fairCoin keepOrder))
    as (Hflags & _).
  - reflexivity.
  - apply NoDup_seq.
  - destruct (Hflags 0%nat
                (initialFlag fairCoin 50 0 0
                   {| country_code := "us"; country_name := "USA" |})
                eq_refl)
      as (f' & Hf' & _ & Hs & Hd & _).
    exists f'. split; [exact Hf' |]. split; [exact Hs | exact Hd].
Defined.

(** In a frame of the scatter phase an exiting flag flies straight on
    (lines 259-261, 319-336): if the frame visits it, it moves by its
    velocity, which stays as it is; it is never turned back and never
    counted as active, and its status stays exiting or becomes
    eliminated. *)
Theorem exiting_flag_flies_straight (random : nat -> R) (time delta : R)
    (w : World) (a : addr) (f : CountryFlag) :
  phase (physicsRef w) = scatter ->
  NoDup (flags (physicsRef w)) ->
  heap w !! a = Some f ->
  status f = exiting ->
  exists f',
    heap (frame random time delta w) !! a = Some f' /\
    (f' = f \/
     (x (physics f') = x (physics f) + vx (physics f) /\
      y (physics f') = y (physics f) + vy (physics f) /\
      angle (physics f') = angle (physics f) + vAngle (physics f) /\
      vx (physics f') = vx (physics f) /\
      vy (physics f') = vy (physics f) /\
      vAngle (physics f') = vAngle (physics f) /\
      (status f' = exiting \/ status f' = eliminated))).
Proof.
  intros Hph Hnd Hf Hs.
  destruct (frame_pointwise random
              (fun f f' =>
                 status f = exiting ->
                 f' = f \/
                 (x (physics f') = x (physics f) + vx (physics f) /\
                  y (physics f') = y (physics f) + vy (physics f) /\
                  angle (physics f') = angle (physics f) + vAngle (physics f) /\
                  vx (physics f') = vx (physics f) /\
                  vy (physics f') = vy (physics f) /\
                  vAngle (physics f') = vAngle (physics f) /\
                  (status f' = exiting \/ status f' = eliminated)))
              time delta w) with (b := a) (f := f) as (f' & Hf' & HP);
    try done.
  - intros g _. by left.
  - intros ref st b g g' Href Hg Hg' Hgs. rewrite Hph in Href.
    destruct (visit_by_cases random ref st b g g' Hg Hg')
      as [[Hc _] | [(_ & Hc & _) | [(Hc & _) | [(_ & _ & Hp & Hst) | (Hc & _)]]]];
      try congruence.
    right. rewrite Hp. unfold integrate. cbn [x y vx vy angle vAngle]. done.
  - exists f'. split; [done |]. by apply HP.
Qed.

(** The exiting flag of a round with one flag active and one on its way
    out, through a frame. *)
Lemma exiting_flag_flies_straight_witness :
  exists f',
    heap (frame fairCoin 0 16 midRound) !! 1%nat = Some f' /\
    (f' = leavingFlag \/
     (x (physics f') = x (physics leavingFlag) + vx (physics leavingFlag) /\
      y (physics f') = y (physics leavingFlag) + vy (physics leavingFlag) /\
      angle (physics f')
      = angle (physics leavingFlag) + vAngle (physics leavingFlag) /\
      vx (physics f') = vx (physics leavingFlag) /\
      vy (physics f') = vy (physics leavingFlag) /\
      vAngle (physics f') = vAngle (physics leavingFlag) /\
      (status f' = exiting \/ status f' = eliminated))).
Proof.
  exact (exiting_flag_flies_straight fairCoin 0 16 midRound 1%nat leavingFlag
           eq_refl (NoDup_seq _ _) eq_refl eq_refl).
Defined.


(** * Further properties of every state of the mounted component *)

Section ReachableInduction.

Variable random : nat -> R.
Variable sortRandomly : nat -> list Country -> list Country * nat.

Hypothesis sortRandomly_perm :
  forall k l, Permutation (sortRandomly k l).1 l.

Implicit Types (w : World) (ev : Event) (evs : list Event).

(** Induction over the runs of the mounted component: what holds at mount
    and is kept by a frame, by each of the two timer callbacks when its
    timer is due, and by the passing of time, holds in every state. *)
Lemma reachable_ind (I : World -> Prop) :
  I (mount random sortRandomly) ->
  (forall w time delta,
     roundInvariant w -> I w -> I (frame random time delta w)) ->
  (forall w t,
     roundInvariant w -> I w ->
     t ∈ timers w -> callback t = StartScatter -> (due t <= clock w)%N ->
     I (runCallback random sortRandomly StartScatter (clearTimeout (tid t) w))) ->
  (forall w t,
     roundInvariant w -> I w ->
     t ∈ timers w -> callback t = AutoRestart -> (due t <= clock w)%N ->
     I (initializeGame random sortRandomly (clearTimeout (tid t) w))) ->
  (forall w ms, I w -> I (set_clock (clock w + ms)%N w)) ->
  forall evs, I (run random sortRandomly (mount random sortRandomly) evs).
Proof.
  intros H0 Hframe Hscatter Hrestart Helapse evs.
  assert (Hgen : forall evs w, roundInvariant w -> I w ->
                   I (run random sortRandomly w evs)).
  { clear evs. induction evs as [| ev evs IH]; intros w Hinv Hw; [done |].
    cbn [run foldl]. apply IH.
    - by apply step_invariant.
    - destruct ev as [time delta | id | ms]; cbn [step].
      + by apply Hframe.
      + destruct (fireTimer_cases random sortRandomly id w)
          as [-> | (t & Hin & <- & Hdue & _ & ->)]; [done |].
        destruct (callback t) eqn:Hcb.
        * by apply Hscatter.
        * by apply Hrestart.
      + by apply Helapse. }
  apply Hgen; [| done]. by apply mount_invariant.
Qed.

(** The same from any state in which the round is in order. *)
Lemma run_ind (I : World -> Prop) :
  (forall w time delta,
     roundInvariant w -> I w -> I (frame random time delta w)) ->
  (forall w t,
     roundInvariant w -> I w ->
     t ∈ timers w -> callback t = StartScatter -> (due t <= clock w)%N ->
     I (runCallback random sortRandomly StartScatter (clearTimeout (tid t) w))) ->
  (forall w t,
     roundInvariant w -> I w ->
     t ∈ timers w -> callback t = AutoRestart -> (due t <= clock w)%N ->
     I (initializeGame random sortRandomly (clearTimeout (tid t) w))) ->
  (forall w ms, I w -> I (set_clock (clock w + ms)%N w)) ->
  forall evs w, roundInvariant w -> I w -> I (run random sortRandomly w evs).
Proof.
  intros Hframe Hscatter Hrestart Helapse.
  induction evs as [| ev evs IH]; intros w Hinv Hw; [done |].
  cbn [run foldl]. apply IH.
  - by apply step_invariant.
  - destruct ev as [time delta | id | ms]; cbn [step].
    + by apply Hframe.
    + destruct (fireTimer_cases random sortRandomly id w)
        as [-> | (t & Hin & <- & Hdue & _ & ->)]; [done |].
      destruct (callback t) eqn:Hcb.
      * by apply Hscatter.
      * by apply Hrestart.
    + by apply Helapse.
Qed.

End ReachableInduction.

Lemma Rrem_turn_range (a : R) : 0 <= a -> 0 <= Rrem a 360 < 360.
Proof.
  intros Ha. unfold Rrem, Rtrunc.
  assert (0 <= a / 360) by lra.
  rewrite decide_True by done.
  pose proof (Int_part_bounds (a / 360)). lra.
Qed.

Lemma ringInvariant_frame (random : nat -> R) (time delta : R) (w : World) :
  ringInvariant w -> ringInvariant (frame random time delta w).
Proof.
  intros (Hr & Hrot & Hs & He & Hv).
  destruct (frame_ref random time delta w) as (_ & _ & Hgs & Hge & _ & _ & Hvp).
  unfold ringInvariant. rewrite Hgs, Hge, Hvp.
  assert (Hring :
    0 <= ringAngle (physicsRef (frame random time delta w)) < 360 /\
    ringRotation (frame random time delta w)
    = ringAngle (physicsRef (frame random time delta w))).
  { assert (Hrem : 0 <= Rrem (ringAngle (physicsRef w) + ROTATION_SPEED) 360
                   < 360).
    { apply Rrem_turn_range. unfold ROTATION_SPEED. lra. }
    destruct (frame_cases random time delta w)
      as [-> | (Hrun & [-> | (wa & wf & _ & _ & _ & _ & ->)])]; [done | |].
    - unfold physicsPass. cbn. done.
    - destruct (markWinner (code wf) (heap (physicsPass random w).2)
                  (flags (physicsRef (physicsPass random w).2)))
        as [h' r] eqn:Hmw.
      rewrite (declareWinner_fields _ _ _ _ _ Hmw).
      unfold physicsPass. cbn. done. }
  destruct Hring as [H1 H2]. done.
Qed.

Lemma ringInvariant_initializeGame
    (random : nat -> R)
    (sortRandomly : nat -> list Country -> list Country * nat) (w : World) :
  ringInvariant (initializeGame random sortRandomly w).
Proof.
  rewrite initializeGame_fields. unfold ringInvariant. cbn.
  repeat split; lra.
Qed.

(** In every state of the mounted component the ring angle is within
    [0, 360) and is the angle the ring is drawn at; the gap is the local
    range 315 to 360 throughout, never changed in a round; and the arc
    drawn, as a fraction of the circle, ends where the gap starts. *)
Theorem ring_and_gap_invariant
    (random : nat -> R)
    (sortRandomly : nat -> list Country -> list Country * nat) :
  (forall k l, Permutation (sortRandomly k l).1 l) ->
  forall evs : list Event,
    let w := run random sortRandomly (mount random sortRandomly) evs in
    0 <= ringAngle (physicsRef w) < 360 /\
    ringRotation w = ringAngle (physicsRef w) /\
    gapStart (physicsRef w) = 315 /\
    gapEnd (physicsRef w) = 360 /\
    st_visualPathLength w * 360 = gapStart (physicsRef w).
Proof.
  intros Hperm evs.
  apply (reachable_ind random sortRandomly Hperm ringInvariant).
  - apply ringInvariant_initializeGame.
  - intros w time delta _. apply ringInvariant_frame.
  - intros w t _ Hw _ _ _. exact Hw.
  - intros w t _ _ _ _ _. apply ringInvariant_initializeGame.
  - intros w ms Hw. exact Hw.
Qed.

Lemma ring_and_gap_invariant_witness :
  let w := run fairCoin keepOrder (mount fairCoin keepOrder)
             [AnimationFrame 0 16; AnimationFrame 16 16] in
  0 <= ringAngle (physicsRef w) < 360 /\
  ringRotation w = ringAngle (physicsRef w) /\
  gapStart (physicsRef w) = 315 /\
  gapEnd (physicsRef w) = 360 /\
  st_visualPathLength w * 360 = gapStart (physicsRef w).
Proof.
  exact (ring_and_gap_invariant fairCoin keepOrder keepOrder_perm
           [AnimationFrame 0 16; AnimationFrame 16 16]).
Defined.

Lemma bounce_distance (p : PhysicsState) (r1 r2 : R) :
  distance p + FLAG_RADIUS >= BOUNDARY_RADIUS ->
  distance (bounce (distance p) r1 r2 p) = BOUNDARY_RADIUS - FLAG_RADIUS.
Proof. intros Hev. rewrite <- (pushBack_distance p Hev). reflexivity. Qed.

Lemma placed_frame (random : nat -> R) (time delta : R) (w : World) :
  roundInvariant w -> placed w -> placed (frame random time delta w).
Proof.
  intros (Hnd & Hval & _) Hpl. cbv zeta in *.
  destruct (frame_ref random time delta w) as (Hfl & Hph & _).
  intros a f' Ha Hf'. rewrite Hfl in Ha. rewrite Hph.
  destruct (lookup_lt_is_Some_2 _ _ (Hval a Ha)) as [f Hf].
  destruct (frame_pointwise random
              (fun f f' =>
                 ((status f = active ->
                   distance (physics f) <= BOUNDARY_RADIUS - FLAG_RADIUS) /\
                  (phase (physicsRef w) = formation ->
                   status f = active /\ distance (physics f) = INITIAL_RADIUS)) ->
                 ((status f' = active ->
                   distance (physics f') <= BOUNDARY_RADIUS - FLAG_RADIUS) /\
                  (phase (physicsRef w) = formation ->
                   status f' = active
                   /\ distance (physics f') = INITIAL_RADIUS)))
              time delta w) with (b := a) (f := f) as (g & Hg & HP);
    try done.
  - intros ref st b g g' Href Hg Hg' [Hin Hform].
    destruct (visit_by_cases random ref st b g g' Hg Hg')
      as [[_ ->] | [(_ & Hc & ->) | [(Hs & Hc & Hcase) | [(_ & Hc & _ & Hst) | (Hw & Hc & ->)]]]].
    + done.
    + cbn [status physics set_physics]. rewrite formationStep_distance. done.
    + split; [| intros; congruence].
      destruct Hcase as [[-> Hno] | (Hhit & [He | (r1 & r2 & ->)])].
      * intros _. cbn [physics set_physics].
        unfold BOUNDARY_RADIUS, FLAG_RADIUS in *. lra.
      * intros; congruence.
      * intros _. cbn [physics set_physics]. rewrite bounce_distance by done.
        lra.
    + split; [| intros; congruence]. destruct Hst; intros; congruence.
    + split; [| intros; congruence]. cbn [status set_physics].
      intros. congruence.
  - assert (g = f') as -> by congruence. apply HP. exact (Hpl a f Ha Hf).
Qed.

Lemma placed_initializeGame
    (random : nat -> R)
    (sortRandomly : nat -> list Country -> list Country * nat) (w : World) :
  placed (initializeGame random sortRandomly w).
Proof.
  intros a f Ha Hf.
  destruct (initializeGame_flag_at random sortRandomly w a Ha)
    as (i & c & _ & _ & _ & Hf0).
  assert (f = initialFlag random
                (length (sortRandomly (rng w) countriesList).1)
                (rng w + (sortRandomly (rng w) countriesList).2) i c)
    as -> by congruence.
  unfold initialFlag. cbn [status physics]. unfold distance. cbn [x y].
  rewrite formation_radius.
  unfold INITIAL_RADIUS, BOUNDARY_RADIUS, FLAG_RADIUS. split; intros; [lra | done].
Qed.

(** In exact real arithmetic, in every state of the mounted component an
    active flag of the round is no further from the centre than the
    boundary radius less the flag radius, and while the phase is formation
    every flag of the round is active and on the circle of the initial
    radius. *)
Theorem active_flags_stay_inside
    (random : nat -> R)
    (sortRandomly : nat -> list Country -> list Country * nat) :
  (forall k l, Permutation (sortRandomly k l).1 l) ->
  forall (evs : list Event) (a : addr) (f : CountryFlag),
    let w := run random sortRandomly (mount random sortRandomly) evs in
    a ∈ flags (physicsRef w) ->
    heap w !! a = Some f ->
    (status f = active ->
     distance (physics f) <= BOUNDARY_RADIUS - FLAG_RADIUS) /\
    (phase (physicsRef w) = formation ->
     status f = active /\ distance (physics f) = INITIAL_RADIUS).
Proof.
  intros Hperm evs.
  apply (reachable_ind random sortRandomly Hperm placed).
  - apply placed_initializeGame.
  - intros w time delta. apply placed_frame.
  - intros w t _ Hw _ _ _ a f Ha Hf.
    destruct (Hw a f Ha Hf) as [H1 _]. split; [exact H1 | discriminate].
  - intros w t _ _ _ _ _. apply placed_initializeGame.
  - intros w ms Hw. exact Hw.
Qed.

(** The first round through its first two seconds. *)
Lemma firstRound_formation :
  let w0 := mount fairCoin keepOrder in
  flags (physicsRef w0) = seq 0 50 /\
  phase (physicsRef w0) = formation /\
  heap w0 !! 0%nat
  = Some (initialFlag fairCoin 50 0 0
            {| country_code := "us"; country_name := "USA" |}) /\
  run fairCoin keepOrder w0 [AnimationFrame 0 16] = frame fairCoin 0 16 w0.
Proof. repeat split. Qed.

Lemma firstRound_scatter :
  let ws := run fairCoin keepOrder (mount fairCoin keepOrder)
              [Elapse 2000; TimerFires 1] in
  flags (physicsRef ws) = seq 0 50 /\
  phase (physicsRef ws) = scatter /\
  heap ws !! 0%nat
  = Some (initialFlag fairCoin 50 0 0
            {| country_code := "us"; country_name := "USA" |}) /\
  run fairCoin keepOrder (mount fairCoin keepOrder)
    [Elapse 2000; TimerFires 1; AnimationFrame 2016 16]
  = frame fairCoin 2016 16 ws.
Proof. repeat split. Qed.

(** The first flag of the first round, after a frame of the formation
    phase and after a frame of the scatter phase. *)
Lemma active_flags_stay_inside_witness :
  let w1 := run fairCoin keepOrder (mount fairCoin keepOrder)
              [AnimationFrame 0 16] in
  let w2 := run fairCoin keepOrder (mount fairCoin keepOrder)
              [Elapse 2000; TimerFires 1; AnimationFrame 2016 16] in
  (exists f, heap w1 !! 0%nat = Some f /\ status f = active /\
             distance (physics f) = INITIAL_RADIUS) /\
  (exists f, heap w2 !! 0%nat = Some f /\
             (status f = active ->
              distance (physics f) <= BOUNDARY_RADIUS - FLAG_RADIUS)).
Proof.
  assert (Hin : 0%nat ∈ seq 0 50) by (apply elem_of_seq; lia).
  cbv zeta. split.
  - destruct firstRound_formation as (Hfl0 & Hph0 & Hh0 & Hrun).
    cbv zeta in Hfl0, Hph0, Hh0, Hrun.
    pose proof (active_flags_stay_inside fairCoin keepOrder keepOrder_perm
                  [AnimationFrame 0 16] 0%nat) as H.
    cbv zeta in H. rewrite Hrun in H |- *.
    destruct (frame_heap_forward fairCoin 0 16 _ 0%nat _
                ltac:(rewrite Hfl0; apply NoDup_seq) Hh0) as (f & Hf & _).
    destruct (frame_ref fairCoin 0 16 (mount fairCoin keepOrder))
      as (Hfl & Hph & _).
    rewrite Hfl, Hfl0, Hph, Hph0 in H.
    destruct (H f Hin Hf) as [_ Hform].
    exists f. split; [exact Hf |]. exact (Hform eq_refl).
  - destruct firstRound_scatter as (Hfls & _ & Hhs & Hrun).
    cbv zeta in Hfls, Hhs, Hrun.
    pose proof (active_flags_stay_inside fairCoin keepOrder keepOrder_perm
                  [Elapse 2000; TimerFires 1; AnimationFrame 2016 16]
                  0%nat) as H.
    cbv zeta in H. rewrite Hrun in H |- *.
    destruct (frame_heap_forward fairCoin 2016 16 _ 0%nat _
                ltac:(rewrite Hfls; apply NoDup_seq) Hhs) as (f & Hf & _).
    destruct (frame_ref fairCoin 2016 16
                (run fairCoin keepOrder (mount fairCoin keepOrder)
                   [Elapse 2000; TimerFires 1])) as (Hfl & _).
    rewrite Hfl, Hfls in H.
    destruct (H f Hin Hf) as [Hact _].
    exists f. split; [exact Hf | exact Hact].
Defined.

(** * Further properties of the timers *)

Section Timers.

Variable random : nat -> R.
Variable sortRandomly : nat -> list Country -> list Country * nat.

Implicit Types (w : World) (t : Timer).

Lemma filter_all {A} (P : A -> Prop) `{!forall x, Decision (P x)}
    (l : list A) :
  (forall y, y ∈ l -> P y) -> filter P l = l.
Proof.
  induction l as [| x l IH]; intros Hall; [reflexivity |].
  rewrite filter_cons_True by (apply Hall; by left).
  f_equal. apply IH. intros y Hy. apply Hall. by right.
Qed.

Lemma NoDup_fmap_filter {A B} (g : A -> B) (P : A -> Prop)
    `{!forall x, Decision (P x)} (l : list A) :
  NoDup (g <$> l) -> NoDup (g <$> filter P l).
Proof.
  induction l as [| x l IH]; [done |].
  rewrite fmap_cons, NoDup_cons. intros [Hx Hnd].
  rewrite filter_cons. case_decide; [| by apply IH].
  rewrite fmap_cons, NoDup_cons. split; [| by apply IH].
  intros Hin. apply Hx.
  apply list_elem_of_fmap in Hin as (y & -> & Hy).
  apply list_elem_of_fmap. exists y. split; [done |].
  by apply list_elem_of_filter in Hy as [_ ?].
Qed.

(** The handles part of the invariant: all of it but the link with the
    phase. *)
Lemma handles_clearTimeout id w :
  (1 <= nextTimer w)%nat ->
  (forall t, t ∈ timers w -> (1 <= tid t < nextTimer w)%nat) ->
  NoDup (tid <$> timers w) ->
  (forall t, t ∈ timers w ->
     (callback t = StartScatter <-> startTimeoutRef w = Some (tid t))) ->
  (forall t, t ∈ timers (clearTimeout id w) ->
     t ∈ timers w /\ tid t <> id) /\
  (forall t, t ∈ timers (clearTimeout id w) ->
     (1 <= tid t < nextTimer (clearTimeout id w))%nat) /\
  NoDup (tid <$> timers (clearTimeout id w)) /\
  (forall t, t ∈ timers (clearTimeout id w) ->
     (callback t = StartScatter <->
      startTimeoutRef (clearTimeout id w) = Some (tid t))).
Proof.
  intros H0 H1 H2 H3.
  assert (Hsub : forall t, t ∈ timers (clearTimeout id w) ->
            t ∈ timers w /\ tid t <> id).
  { intros t Ht. unfold clearTimeout in Ht. cbn [timers set_timers] in Ht.
    apply list_elem_of_filter in Ht. tauto. }
  split; [exact Hsub |]. split; [| split].
  - intros t Ht. apply H1. by apply Hsub.
  - unfold clearTimeout. cbn [timers set_timers]. by apply NoDup_fmap_filter.
  - intros t Ht. apply (H3 t). by apply Hsub.
Qed.

(** No change to scatter is pending once the handle in [startTimeoutRef]
    has been cleared. *)
Lemma cancelStartTimeout_none w :
  (forall t, t ∈ timers w -> (1 <= tid t < nextTimer w)%nat) ->
  (forall t, t ∈ timers w ->
     (callback t = StartScatter <-> startTimeoutRef w = Some (tid t))) ->
  forall t, t ∈ timers (cancelStartTimeout w) ->
    t ∈ timers w /\ callback t <> StartScatter.
Proof.
  intros H1 H3 t Ht.
  destruct (cancelStartTimeout_fields w) as (_ & _ & _ & _ & _ & _ & _ & _ & Htm).
  cbv zeta in Htm. rewrite Htm in Ht.
  destruct (startTimeoutRef w) as [[| n] |] eqn:Href.
  - split; [done |]. intros Hcb. apply (H3 t Ht) in Hcb.
    injection Hcb as Hcb. specialize (H1 t Ht). lia.
  - apply list_elem_of_filter in Ht as [Hne Hin]. split; [done |].
    intros Hcb. apply (H3 t Hin) in Hcb. congruence.
  - split; [done |]. intros Hcb. by apply (H3 t Ht) in Hcb.
Qed.

Lemma timersInvariant_initializeGame w :
  (1 <= nextTimer w)%nat ->
  (forall t, t ∈ timers w -> (1 <= tid t < nextTimer w)%nat) ->
  NoDup (tid <$> timers w) ->
  (forall t, t ∈ timers w ->
     (callback t = StartScatter <-> startTimeoutRef w = Some (tid t))) ->
  timersInvariant (initializeGame random sortRandomly w).
Proof.
  intros H0 H1 H2 H3.
  pose proof (cancelStartTimeout_none w H1 H3) as Hnone.
  assert (Hnd : NoDup (tid <$> timers (cancelStartTimeout w))).
  { destruct (cancelStartTimeout_fields w)
      as (_ & _ & _ & _ & _ & _ & _ & _ & ->).
    destruct (startTimeoutRef w) as [[| n] |]; try done.
    by apply NoDup_fmap_filter. }
  rewrite initializeGame_fields. unfold timersInvariant, pending.
  cbn [timers nextTimer startTimeoutRef physicsRef phase].
  split; [lia |]. split; [| split; [| split; [| split]]].
  - intros t Ht. apply elem_of_app in Ht as [Ht | Ht].
    + destruct (Hnone t Ht) as [Hin _]. specialize (H1 t Hin). lia.
    + apply list_elem_of_singleton in Ht as ->. cbn. lia.
  - rewrite fmap_app. apply NoDup_app. split; [done |].
    split; [| apply NoDup_singleton].
    intros i Hi Hi'. apply list_elem_of_singleton in Hi'.
    apply list_elem_of_fmap in Hi as (t & -> & Ht).
    destruct (Hnone t Ht) as [Hin _]. specialize (H1 t Hin).
    cbn in Hi'. lia.
  - intros t Ht. apply elem_of_app in Ht as [Ht | Ht].
    + destruct (Hnone t Ht) as [Hin Hcb]. specialize (H1 t Hin).
      split; [done |]. intros [= Heq]. lia.
    + apply list_elem_of_singleton in Ht as ->. done.
  - intros id [= <-]. lia.
  - split; [| done]. intros _. rewrite filter_app.
    rewrite (filter_cons_True _ _ []) by done. intros Hnil.
    apply app_eq_nil in Hnil as [_ ?]. discriminate.
Qed.

Lemma timersInvariant_frame time delta w :
  timersInvariant w -> timersInvariant (frame random time delta w).
Proof.
  intros (H0 & H1 & H2 & H3 & H4 & H5).
  destruct (frame_ref random time delta w) as (_ & Hph & _ & _ & Href & _).
  destruct (frame_cases random time delta w)
    as [-> | (Hrun & [Heq | (wa & wf & _ & _ & _ & _ & Heq)])]; [done | |].
  - unfold timersInvariant, pending. rewrite Heq.
    unfold physicsPass. cbn. done.
  - unfold timersInvariant, pending. rewrite Hph, Href.
    assert (Htm : timers (frame random time delta w)
                  = timers w ++ [ {| tid := nextTimer w;
                                     due := (clock w + 5000)%N;
                                     callback := AutoRestart |} ]
                  /\ nextTimer (frame random time delta w) = S (nextTimer w)).
    { rewrite Heq.
      destruct (markWinner (code wf) (heap (physicsPass random w).2)
                  (flags (physicsRef (physicsPass random w).2)))
        as [h' r] eqn:Hmw.
      rewrite (declareWinner_fields _ _ _ _ _ Hmw). split; reflexivity. }
    destruct Htm as [-> ->].
    split; [lia |]. split; [| split; [| split; [| split]]].
    + intros t Ht. apply elem_of_app in Ht as [Ht | Ht].
      * specialize (H1 t Ht). lia.
      * apply list_elem_of_singleton in Ht as ->. cbn. lia.
    + rewrite fmap_app. apply NoDup_app. split; [done |].
      split; [| apply NoDup_singleton].
      intros i Hi Hi'. apply list_elem_of_singleton in Hi'.
      apply list_elem_of_fmap in Hi as (t & -> & Ht).
      specialize (H1 t Ht). cbn in Hi'. lia.
    + intros t Ht. apply elem_of_app in Ht as [Ht | Ht]; [by apply H3 |].
      apply list_elem_of_singleton in Ht as ->. cbn [callback tid].
      split; [discriminate |]. intros Hr. specialize (H4 _ Hr). lia.
    + intros id Hid. specialize (H4 id Hid). lia.
    + rewrite filter_app. rewrite (filter_cons_False _ _ []) by done.
      rewrite filter_nil, app_nil_r. exact H5.
Qed.

Lemma timersInvariant_startScatter w t :
  timersInvariant w -> t ∈ timers w -> callback t = StartScatter ->
  timersInvariant (runCallback random sortRandomly StartScatter
                     (clearTimeout (tid t) w)).
Proof.
  intros (H0 & H1 & H2 & H3 & H4 & H5) Ht Hcb.
  destruct (handles_clearTimeout (tid t) w H0 H1 H2 H3)
    as (Hsub & H1' & H2' & H3').
  unfold timersInvariant. split; [exact H0 |]. split; [exact H1' |].
  split; [exact H2' |]. split; [exact H3' |]. split; [exact H4 |].
  cbn [runCallback set_physicsRef set_phase physicsRef phase].
  split; [discriminate |]. intros Hne. exfalso. apply Hne.
  unfold pending. cbn [timers set_physicsRef]. apply filter_none.
  intros t' Ht' Hcb'. destruct (Hsub t' Ht') as [Hin Hid].
  apply (H3 t' Hin) in Hcb'. apply (H3 t Ht) in Hcb. congruence.
Qed.

Lemma timersInvariant_restart w t :
  timersInvariant w ->
  timersInvariant (initializeGame random sortRandomly (clearTimeout (tid t) w)).
Proof.
  intros (H0 & H1 & H2 & H3 & H4 & H5).
  destruct (handles_clearTimeout (tid t) w H0 H1 H2 H3)
    as (_ & H1' & H2' & H3').
  by apply timersInvariant_initializeGame.
Qed.

Section TimersReachable.

Hypothesis sortRandomly_perm :
  forall k l, Permutation (sortRandomly k l).1 l.

Lemma reachable_timersInvariant evs :
  timersInvariant (run random sortRandomly (mount random sortRandomly) evs).
Proof.
  apply (reachable_ind random sortRandomly sortRandomly_perm timersInvariant).
  - apply timersInvariant_initializeGame; cbn; try done.
    + intros t Ht. by apply elem_of_nil in Ht.
    + apply NoDup_nil_2.
    + intros t Ht. by apply elem_of_nil in Ht.
  - intros w time delta _. apply timersInvariant_frame.
  - intros w t _ Hw Ht Hcb _. by apply timersInvariant_startScatter.
  - intros w t _ Hw _ _ _. by apply timersInvariant_restart.
  - intros w ms Hw. exact Hw.
Qed.

End TimersReachable.

End Timers.

(** In every state of the mounted component the pending timers have
    distinct handles; a pending timer is the change to scatter exactly when
    its handle is the one kept in [startTimeoutRef], so at most one such
    timer is pending; and one is pending exactly while the phase is
    formation. *)
Theorem scatter_timer_tracked
    (random : nat -> R)
    (sortRandomly : nat -> list Country -> list Country * nat) :
  (forall k l, Permutation (sortRandomly k l).1 l) ->
  forall evs : list Event,
    let w := run random sortRandomly (mount random sortRandomly) evs in
    NoDup (tid <$> timers w) /\
    (forall t, t ∈ timers w ->
       (callback t = StartScatter <-> startTimeoutRef w = Some (tid t))) /\
    (length (pending StartScatter w) <= 1)%nat /\
    (phase (physicsRef w) = formation <-> pending StartScatter w <> []).
Proof.
  intros Hperm evs.
  destruct (reachable_timersInvariant random sortRandomly Hperm evs)
    as (_ & _ & H2 & H3 & _ & H5).
  cbv zeta. split; [done |]. split; [done |]. split; [| done].
  apply filter_at_most_one. intros i j t1 t2 Hi Hj Hc1 Hc2.
  apply (NoDup_lookup _ i j (tid t1) H2).
  - by rewrite list_lookup_fmap, Hi.
  - rewrite list_lookup_fmap, Hj. simpl. f_equal.
    apply (H3 t1) in Hc1; [| by eapply list_elem_of_lookup_2].
    apply (H3 t2) in Hc2; [| by eapply list_elem_of_lookup_2].
    congruence.
Qed.

Lemma scatter_timer_tracked_witness :
  let w := run fairCoin keepOrder (mount fairCoin keepOrder)
             [Elapse 2000; TimerFires 1] in
  NoDup (tid <$> timers w) /\
  (length (pending StartScatter w) <= 1)%nat /\
  (phase (physicsRef w) = formation <-> pending StartScatter w <> []).
Proof.
  destruct (scatter_timer_tracked fairCoin keepOrder keepOrder_perm
              [Elapse 2000; TimerFires 1]) as (H1 & _ & H3 & H4).
  split; [exact H1 |]. split; [exact H3 | exact H4].
Defined.

Lemma filter_iff_in {A} (P Q : A -> Prop)
    `{!forall x, Decision (P x)} `{!forall x, Decision (Q x)} (l : list A) :
  (forall x, x ∈ l -> (P x <-> Q x)) -> filter P l = filter Q l.
Proof.
  induction l as [| x l IH]; intros Hiff; [reflexivity |].
  rewrite !filter_cons.
  assert (Hx : P x <-> Q x) by (apply Hiff; by left).
  assert (Hl : filter P l = filter Q l).
  { apply IH. intros y Hy. apply Hiff. by right. }
  destruct (decide (P x)), (decide (Q x)); try tauto; by rewrite Hl.
Qed.

(** The cleanup of the mount effect (lines 216-218), run in any state of
    the mounted component, cancels the pending change to scatter and
    nothing else: the timers left are exactly the pending restarts, and
    such a timer still fires after the unmount. *)
Theorem unmount_leaves_restart_pending
    (random : nat -> R)
    (sortRandomly : nat -> list Country -> list Country * nat) :
  (forall k l, Permutation (sortRandomly k l).1 l) ->
  forall evs : list Event,
    let w := run random sortRandomly (mount random sortRandomly) evs in
    timers (unmount w) = pending AutoRestart w /\
    pending StartScatter (unmount w) = [] /\
    pending AutoRestart (unmount w) = pending AutoRestart w.
Proof.
  intros Hperm evs. cbv zeta.
  set (w := run random sortRandomly (mount random sortRandomly) evs).
  destruct (reachable_timersInvariant random sortRandomly Hperm evs)
    as (_ & H1 & _ & H3 & _ & _). fold w in H1, H3.
  assert (Htm : timers (unmount w) = pending AutoRestart w).
  { unfold unmount.
    destruct (cancelStartTimeout_fields w)
      as (_ & _ & _ & _ & _ & _ & _ & _ & ->).
    unfold pending.
    destruct (startTimeoutRef w) as [[| n] |] eqn:Href.
    - symmetry. apply filter_all. intros t Ht.
      destruct (callback t) eqn:Hcb; [| done].
      apply (H3 t Ht) in Hcb. injection Hcb as Hcb.
      specialize (H1 t Ht). lia.
    - apply filter_iff_in. intros t Ht. specialize (H3 t Ht).
      destruct (callback t) eqn:Hcb.
      + split; [| discriminate]. intros Hne. exfalso. apply Hne.
        assert (Some (S n) = Some (tid t)) by (by apply H3). congruence.
      + split; [done |]. intros _ Hid.
        assert (AutoRestart = StartScatter); [| discriminate].
        apply H3. congruence.
    - symmetry. apply filter_all. intros t Ht.
      destruct (callback t) eqn:Hcb; [| done].
      by apply (H3 t Ht) in Hcb. }
  split; [exact Htm |]. split.
  - unfold pending at 1. rewrite Htm. apply filter_none. intros t Ht.
    apply list_elem_of_filter in Ht as [Hcb _]. congruence.
  - unfold pending at 1. rewrite Htm. apply filter_all. intros t Ht.
    by apply list_elem_of_filter in Ht as [Hcb _].
Qed.

(** Unmounting a second after the mount. *)
Lemma unmount_leaves_restart_pending_witness :
  let w := run fairCoin keepOrder (mount fairCoin keepOrder)
             [Elapse 1000; AnimationFrame 0 16] in
  timers (unmount w) = pending AutoRestart w /\
  pending StartScatter (unmount w) = [].
Proof.
  destruct (unmount_leaves_restart_pending fairCoin keepOrder keepOrder_perm
              [Elapse 1000; AnimationFrame 0 16]) as (H1 & H2 & _).
  split; [exact H1 | exact H2].
Defined.

Section TimerRuns.

Variable random : nat -> R.
Variable sortRandomly : nat -> list Country -> list Country * nat.

Implicit Types (w : World) (t : Timer) (evs : list Event).

(** The timers after a frame: as before, or with the restart added. *)
Lemma frame_timers time delta w :
  timers (frame random time delta w) = timers w \/
  isRunning (physicsRef w) = true /\
  isRunning (physicsRef (frame random time delta w)) = false /\
  ringOpacity (frame random time delta w) = 0 /\
  timers (frame random time delta w)
  = timers w ++ [ {| tid := nextTimer w; due := (clock w + 5000)%N;
                     callback := AutoRestart |} ].
Proof.
  destruct (frame_cases random time delta w)
    as [-> | (Hrun & [-> | (wa & wf & _ & _ & _ & _ & ->)])];
    [by left | by left |].
  right. split; [done |].
  destruct (markWinner (code wf) (heap (physicsPass random w).2)
              (flags (physicsRef (physicsPass random w).2)))
    as [h' r] eqn:Hmw.
  rewrite (declareWinner_fields _ _ _ _ _ Hmw). done.
Qed.

Lemma timers_restart_sub id w t :
  t ∈ timers (initializeGame random sortRandomly (clearTimeout id w)) ->
  t ∈ timers w /\ tid t <> id
  \/ t = {| tid := nextTimer w; due := (clock w + 2000)%N;
            callback := StartScatter |}.
Proof.
  rewrite initializeGame_fields. cbn [timers nextTimer clock clearTimeout
    set_timers]. intros Ht. apply elem_of_app in Ht as [Ht | Ht].
  - left.
    destruct (cancelStartTimeout_fields (clearTimeout id w))
      as (_ & _ & _ & _ & _ & _ & _ & _ & Htm).
    cbv zeta in Htm. rewrite Htm in Ht.
    assert (Hin : t ∈ timers (clearTimeout id w)).
    { destruct (startTimeoutRef (clearTimeout id w)) as [[| n] |];
        try done. by apply list_elem_of_filter in Ht as [_ ?]. }
    unfold clearTimeout in Hin. cbn [timers set_timers] in Hin.
    apply list_elem_of_filter in Hin. tauto.
  - right. by apply list_elem_of_singleton in Ht.
Qed.

Lemma startedAt_step c w ev :
  startedAt c w -> startedAt c (step random sortRandomly w ev).
Proof.
  intros (Hc & Hdue & Hph). destruct ev as [time delta | id | ms]; cbn [step].
  - destruct (frame_ref random time delta w)
      as (_ & Hp & _ & _ & _ & Hck & _).
    unfold startedAt. rewrite Hp, Hck. split; [done |]. split; [| done].
    intros t Ht Hcb.
    destruct (frame_timers time delta w) as [Htm | (_ & _ & _ & Htm)];
      rewrite Htm in Ht; [by apply Hdue |].
    apply elem_of_app in Ht as [Ht | Ht]; [by apply Hdue |].
    apply list_elem_of_singleton in Ht as ->. discriminate.
  - destruct (fireTimer_cases random sortRandomly id w)
      as [-> | (t & Hin & Hid & Hd & _ & ->)]; [done |].
    destruct (callback t) eqn:Hcb.
    + unfold startedAt.
      cbn [runCallback set_physicsRef set_phase physicsRef phase clock
           timers clearTimeout set_timers].
      split; [done |]. split.
      * intros t' Ht' Hcb'. apply list_elem_of_filter in Ht' as [_ Ht'].
        by apply Hdue.
      * intros _. specialize (Hdue t Hin Hcb). lia.
    + unfold startedAt. cbn [runCallback]. split; [| split].
      * rewrite initializeGame_fields. cbn. done.
      * intros t' Ht' Hcb'.
        destruct (timers_restart_sub id w t' Ht') as [[Hin' _] | ->].
        -- by apply Hdue.
        -- cbn. lia.
      * rewrite initializeGame_fields. cbn. discriminate.
  - unfold startedAt. cbn [set_clock clock timers physicsRef].
    split; [lia |]. split; [done |]. intros H. specialize (Hph H). lia.
Qed.

Lemma startedAt_run c evs : forall w,
  startedAt c w -> startedAt c (run random sortRandomly w evs).
Proof.
  induction evs as [| ev evs IH]; intros w Hw; [done |].
  cbn [run foldl]. apply IH. by apply startedAt_step.
Qed.

Lemma wonAt_step c won w ev :
  wonAt c won w -> wonAt c won (step random sortRandomly w ev).
Proof.
  intros Hw. pose proof Hw as (Hc & Hdue & Hkeep). destruct ev as [time delta | id | ms]; cbn [step].
  - destruct (isRunning (physicsRef w)) eqn:Hrun.
    + assert (Hlate : ~ (clock w < c + 5000)%N).
      { intros Hlt. destruct (Hkeep Hlt) as [? _]. congruence. }
      destruct (frame_ref random time delta w)
        as (_ & _ & _ & _ & _ & Hck & _).
      unfold wonAt. rewrite Hck. split; [done |]. split; [| intros; lia].
      intros t Ht Hcb.
      destruct (frame_timers time delta w) as [Htm | (_ & _ & _ & Htm)];
        rewrite Htm in Ht; [by apply Hdue |].
      apply elem_of_app in Ht as [Ht | Ht]; [by apply Hdue |].
      apply list_elem_of_singleton in Ht as ->. cbn. lia.
    + by rewrite frame_stopped.
  - destruct (fireTimer_cases random sortRandomly id w)
      as [-> | (t & Hin & Hid & Hd & _ & ->)]; [done |].
    destruct (callback t) eqn:Hcb.
    + unfold wonAt.
      cbn [runCallback set_physicsRef set_phase physicsRef isRunning clock
           timers clearTimeout set_timers st_winner st_leaderboard st_flags
           heap ringOpacity].
      split; [done |]. split; [| done].
      intros t' Ht' Hcb'. apply list_elem_of_filter in Ht' as [_ Ht'].
      by apply Hdue.
    + pose proof (Hdue t Hin Hcb) as Hlate.
      unfold wonAt. cbn [runCallback]. split; [| split].
      * rewrite initializeGame_fields. cbn. done.
      * intros t' Ht' Hcb'.
        destruct (timers_restart_sub id w t' Ht') as [[Hin' _] | ->].
        -- by apply Hdue.
        -- discriminate.
      * rewrite initializeGame_fields. cbn [clock clearTimeout set_timers].
        intros. lia.
  - unfold wonAt.
    cbn [set_clock clock timers physicsRef st_winner st_leaderboard st_flags
         heap ringOpacity].
    split; [lia |]. split; [done |]. intros H. apply Hkeep. lia.
Qed.

Lemma wonAt_run c won evs : forall w,
  wonAt c won w -> wonAt c won (run random sortRandomly w evs).
Proof.
  induction evs as [| ev evs IH]; intros w Hw; [done |].
  cbn [run foldl]. apply IH. by apply wonAt_step.
Qed.

End TimerRuns.

(** Lines 139-140, 207 with the timer of line 136: when [initializeGame]
    runs in a state where every pending change to scatter is the one the
    ref tracks, the round it starts cannot be in its scatter phase before
    2000 ms have passed on the host's clock, whatever frames, timers and
    restarts come in between.  (From the mount on, the clock starts at 0.) *)
Theorem formation_lasts_two_seconds
    (random : nat -> R)
    (sortRandomly : nat -> list Country -> list Country * nat)
    (w : World) (evs : list Event) :
  (forall t, t ∈ timers w -> callback t = StartScatter ->
     startTimeoutRef w = Some (tid t) /\ tid t <> 0%nat) ->
  let w' := run random sortRandomly (initializeGame random sortRandomly w) evs in
  phase (physicsRef w') = scatter -> (clock w + 2000 <= clock w')%N.
Proof.
  intros Htracked w' Hph.
  assert (Hstart : startedAt (clock w) (initializeGame random sortRandomly w)).
  { rewrite initializeGame_fields. unfold startedAt.
    cbn [clock timers physicsRef phase].
    split; [lia |]. split; [| discriminate].
    intros t Ht Hcb. apply elem_of_app in Ht as [Ht | Ht].
    - exfalso.
      destruct (cancelStartTimeout_fields w)
        as (_ & _ & _ & _ & _ & _ & _ & _ & Htm).
      cbv zeta in Htm. rewrite Htm in Ht.
      destruct (startTimeoutRef w) as [[| n] |] eqn:Href.
      + destruct (Htracked t Ht Hcb) as [Heq Hne]. congruence.
      + apply list_elem_of_filter in Ht as [Hne Hin].
        destruct (Htracked t Hin Hcb) as [Heq _]. congruence.
      + by destruct (Htracked t Ht Hcb) as [Heq _].
    - apply list_elem_of_singleton in Ht as ->. cbn. lia. }
  destruct (startedAt_run random sortRandomly _ evs _ Hstart) as (_ & _ & H).
  by apply H.
Qed.

(** The first round: the timer of line 207 fires at 2000 and the round is
    in its scatter phase then, no sooner. *)
Lemma formation_lasts_two_seconds_witness :
  let w' := run fairCoin keepOrder (mount fairCoin keepOrder)
              [Elapse 2000; TimerFires 1] in
  phase (physicsRef w') = scatter /\ (clock initialWorld + 2000 <= clock w')%N.
Proof.
  assert (Hph : phase (physicsRef
                  (run fairCoin keepOrder (mount fairCoin keepOrder)
                     [Elapse 2000; TimerFires 1])) = scatter)
    by reflexivity.
  split; [exact Hph |].
  apply (formation_lasts_two_seconds fairCoin keepOrder initialWorld
           [Elapse 2000; TimerFires 1]); [| exact Hph].
  intros t Ht. by apply elem_of_nil in Ht.
Defined.

(** Lines 341-370: when a frame of a running round with no restart pending
    stops the round (the winner check fired), then for the 5000 ms that
    follow on the host's clock nothing changes what the win wrote: the round
    stays stopped, the winner, the leaderboard, the displayed flags and
    their objects are as the win left them and the ring stays faded out,
    whatever frames and timers come in between. *)
Theorem winner_shown_five_seconds
    (random : nat -> R)
    (sortRandomly : nat -> list Country -> list Country * nat)
    (time delta : R) (w : World) (evs : list Event) :
  isRunning (physicsRef w) = true ->
  pending AutoRestart w = [] ->
  let won := frame random time delta w in
  isRunning (physicsRef won) = false ->
  let w' := run random sortRandomly won evs in
  (clock w' < clock w + 5000)%N ->
  isRunning (physicsRef w') = false /\
  st_winner w' = st_winner won /\
  st_leaderboard w' = st_leaderboard won /\
  st_flags w' = st_flags won /\
  heap w' = heap won /\
  ringOpacity w' = 0.
Proof.
  intros Hrun Hpend won Hstop w' Hlt.
  assert (Hwon : wonAt (clock w) won won).
  { destruct (frame_ref random time delta w)
      as (_ & _ & _ & _ & _ & Hck & _). fold won in Hck.
    destruct (frame_timers random time delta w)
      as [Htm | (_ & _ & Hop & Htm)]; fold won in Htm.
    - exfalso. subst won.
      destruct (frame_cases random time delta w)
        as [Heq | (_ & [Heq | (wa & wf & _ & _ & _ & _ & Heq)])].
      + rewrite Heq in Hstop. congruence.
      + rewrite Heq in Hstop. unfold physicsPass in Hstop.
        cbn in Hstop. congruence.
      + destruct (markWinner (code wf) (heap (physicsPass random w).2)
                    (flags (physicsRef (physicsPass random w).2)))
          as [h' r] eqn:Hmw.
        rewrite Heq, (declareWinner_fields _ _ _ _ _ Hmw) in Htm.
        cbn [timers] in Htm. unfold physicsPass in Htm. cbn in Htm.
        apply (f_equal length) in Htm. rewrite length_app in Htm.
        cbn in Htm. lia.
    - fold won in Hop. unfold wonAt. rewrite Hck. split; [lia |]. split.
      + intros t Ht Hcb. rewrite Htm in Ht.
        apply elem_of_app in Ht as [Ht | Ht].
        * exfalso.
          assert (Hin : t ∈ pending AutoRestart w)
            by (by apply list_elem_of_filter).
          rewrite Hpend in Hin. by apply elem_of_nil in Hin.
        * apply list_elem_of_singleton in Ht as ->. cbn. lia.
      + intros _. done. }
  destruct (wonAt_run random sortRandomly _ _ evs _ Hwon) as (_ & _ & H).
  by apply H.
Qed.

(** The win of the late round, then 4999 ms, a frame, and an attempt to
    fire the restart (handle 2) ahead of its time. *)
Lemma winner_shown_five_seconds_witness :
  let won := frame fairCoin 0 16 lateRound in
  let w' := run fairCoin keepOrder won
              [Elapse 4999; AnimationFrame 5015 16; TimerFires 2] in
  isRunning (physicsRef w') = false /\
  st_winner w' = st_winner won /\
  st_leaderboard w' = st_leaderboard won /\
  st_flags w' = st_flags won /\
  heap w' = heap won /\
  ringOpacity w' = 0.
Proof.
  assert (Hwon : isRunning (physicsRef (frame fairCoin 0 16 lateRound)) = false
                 /\ clock (run fairCoin keepOrder (frame fairCoin 0 16 lateRound)
                      [Elapse 4999; AnimationFrame 5015 16; TimerFires 2])
                    = 64999%N).
  { destruct (frame_declares fairCoin 0 16 lateRound)
      as (wa & wf & _ & _ & _ & ->);
      [reflexivity | reflexivity | apply NoDup_seq | vm_compute; reflexivity |].
    destruct (markWinner (code wf) (heap (physicsPass fairCoin lateRound).2)
                (flags (physicsRef (physicsPass fairCoin lateRound).2)))
      as [h' r] eqn:Hmw.
    rewrite (declareWinner_fields _ _ _ _ _ Hmw).
    split; reflexivity. }
  destruct Hwon as [Hstop Hck].
  apply (winner_shown_five_seconds fairCoin keepOrder 0 16 lateRound
           [Elapse 4999; AnimationFrame 5015 16; TimerFires 2]).
  - reflexivity.
  - reflexivity.
  - exact Hstop.
  - rewrite Hck. reflexivity.
Defined.

(** ** What a frame leaves alone *)

(** Lines 233-236, 360-362: a frame never removes or moves a flag object;
    it leaves every eliminated flag exactly as it is, and every object that
    is not in the array of the round (the flags of earlier rounds, the
    winner copies); the number of active flags of the round does not grow,
    and in the formation phase it does not change. *)
Theorem frame_spares_eliminated
    (random : nat -> R) (time delta : R) (w : World) :
  NoDup (flags (physicsRef w)) ->
  (forall a, a ∈ flags (physicsRef w) -> (a < length (heap w))%nat) ->
  let w' := frame random time delta w in
  (length (heap w) <= length (heap w'))%nat /\
  (forall b f, heap w !! b = Some f -> status f = eliminated ->
     heap w' !! b = Some f) /\
  (forall b f, heap w !! b = Some f -> b ∉ flags (physicsRef w) ->
     heap w' !! b = Some f) /\
  (countStatus active (heap w') (flags (physicsRef w))
   <= countStatus active (heap w) (flags (physicsRef w)))%nat /\
  (phase (physicsRef w) = formation ->
   countStatus active (heap w') (flags (physicsRef w))
   = countStatus active (heap w) (flags (physicsRef w))).
Proof.
  intros Hnd Hval w'.
  destruct (physicsPass_heap random w Hnd) as (_ & Hlen & Hout & _).
  cbv zeta in Hlen, Hout.
  assert (Hkeep : forall b f, heap w !! b = Some f ->
            exists f', heap w' !! b = Some f' /\
                       forward (status f) (status f')).
  { intros b f Hf.
    destruct (frame_heap_forward random time delta w b f Hnd Hf)
      as (f' & Hf' & _ & _ & Hfw). by exists f'. }
  split; [| split; [| split; [| split]]].
  - subst w'.
    destruct (frame_cases random time delta w)
      as [-> | (Hrun & [-> | (wa & wf & _ & _ & _ & _ & ->)])];
      [done | by rewrite Hlen |].
    destruct (declareWinner_extends wa wf (physicsPass random w).2)
      as [ext ->]. rewrite length_app, Hlen. lia.
  - intros b f Hf He.
    destruct (frame_pointwise random
                (fun f f' => status f = eliminated -> f' = f) time delta w)
      with (b := b) (f := f) as (f' & Hf' & HP); try done.
    + intros ref st a g g' _ Hg Hg' Hel.
      destruct (visit_by_cases random ref st a g g' Hg Hg')
        as [[_ ?] | [(? & _) | [(? & _) | [(? & _) | (? & _)]]]];
        try done; congruence.
    + fold w' in Hf'. rewrite Hf'. f_equal. by apply HP.
  - intros b f Hf Hb. subst w'.
    destruct (frame_cases random time delta w)
      as [-> | (Hrun & [-> | (wa & wf & _ & _ & _ & _ & ->)])]; [done | |].
    + by rewrite Hout.
    + destruct (declareWinner_extends wa wf (physicsPass random w).2)
        as [ext ->].
      apply lookup_app_l_Some. by rewrite Hout.
  - apply countStatus_le. intros b Hb Hs.
    destruct (lookup_lt_is_Some_2 (heap w) b (Hval b Hb)) as [f Hf].
    destruct (Hkeep b f Hf) as (f' & Hf' & Hfw).
    unfold statusAt in *. rewrite Hf' in Hs. rewrite Hf. cbn in *.
    injection Hs as Hs. f_equal.
    destruct Hfw as [Heq | [[_ Heq] | [_ Heq]]]; congruence.
  - intros Hph. apply countStatus_ext. intros b Hb.
    destruct (lookup_lt_is_Some_2 (heap w) b (Hval b Hb)) as [f Hf].
    destruct (frame_pointwise random
                (fun f f' => status f' = status f) time delta w)
      with (b := b) (f := f) as (f' & Hf' & HP); try done.
    + intros ref st a g g' Href Hg Hg'. rewrite Hph in Href.
      destruct (visit_by_cases random ref st a g g' Hg Hg')
        as [[_ ->] | [(_ & _ & ->) | [(_ & ? & _) | [(_ & ? & _) | (_ & ? & _)]]]];
        try done; congruence.
    + fold w' in Hf'. unfold statusAt. rewrite Hf', Hf. cbn. by f_equal.
Qed.

(** The frame of the round with one flag active and one on its way out:
    the third flag of the roster, eliminated, stays as it is. *)
Lemma frame_spares_eliminated_witness :
  let w' := frame fairCoin 0 16 midRound in
  (length (heap midRound) <= length (heap w'))%nat /\
  heap w' !! 2%nat = heap midRound !! 2%nat /\
  (countStatus active (heap w') (flags (physicsRef midRound)) <= 1)%nat.
Proof.
  destruct (frame_spares_eliminated fairCoin 0 16 midRound)
    as (Hlen & Helim & _ & Hcount & _).
  - apply NoDup_seq.
  - intros a Ha. change (flags (physicsRef midRound)) with (seq 0 50) in Ha.
    apply elem_of_seq in Ha. change (length (heap midRound)) with 50%nat. lia.
  - split; [exact Hlen |]. split.
    + assert (H2 : exists f, heap midRound !! 2%nat = Some f
                             /\ status f = eliminated)
        by (eexists; split; reflexivity).
      destruct H2 as (f & Hf & He). rewrite Hf. by apply Helim.
    + etrans; [exact Hcount |]. vm_compute. lia.
Defined.

(** ** The win *)

(** Lines 341-369: the frame of a running round in its scatter phase whose
    array holds exactly one active flag declares that flag the winner, in
    that very frame: the winner state points at the flag, which was active
    before the frame and stays active in the array of the round; the round
    stops and the ring fades out; the leaderboard is updated with it; the
    restart is queued 5000 ms ahead; and the array shown is a new one that
    holds, place by place, the flags of the round, except that each flag
    with the winner's code is replaced by a fresh copy of status winner. *)
Theorem last_flag_wins (random : nat -> R) (time delta : R) (w : World) :
  isRunning (physicsRef w) = true ->
  phase (physicsRef w) = scatter ->
  NoDup (flags (physicsRef w)) ->
  (forall a, a ∈ flags (physicsRef w) -> (a < length (heap w))%nat) ->
  countStatus active (heap w) (flags (physicsRef w)) = 1%nat ->
  let w' := frame random time delta w in
  exists wa wf,
    wa ∈ flags (physicsRef w) /\
    statusAt (heap w) wa = Some active /\
    heap w' !! wa = Some wf /\ status wf = active /\
    st_winner w' = Some wa /\
    isRunning (physicsRef w') = false /\
    ringOpacity w' = 0 /\
    st_leaderboard w' = updateLeaderboard wf (st_leaderboard w) /\
    timers w' = timers w ++ [ {| tid := nextTimer w;
                                 due := (clock w + 5000)%N;
                                 callback := AutoRestart |} ] /\
    flags (physicsRef w') = flags (physicsRef w) /\
    length (st_flags w') = length (flags (physicsRef w)) /\
    forall i a, flags (physicsRef w) !! i = Some a ->
      exists a' f,
        st_flags w' !! i = Some a' /\ heap w' !! a = Some f /\
        ((a' = a /\ code f <> code wf) \/
         (code f = code wf /\ (length (heap w) <= a')%nat /\
          heap w' !! a' = Some (set_status winner f))).
Proof.
  intros Hrun Hph Hnd Hval Hone w'.
  destruct (frame_declares random time delta w Hrun Hph Hnd Hone)
    as (wa & wf & Hwa & Hwf & Hact & Heq).
  destruct (physicsPass_frame random w)
    as (Hfl & _ & _ & _ & _ & _ & _ & Hlb & Htm & Hnt & Hck & _).
  destruct (physicsPass_heap random w Hnd) as (_ & Hlen & _ & Hfwd & _).
  cbv zeta in Hfl, Hlb, Htm, Hnt, Hck, Hlen, Hfwd.
  set (w1 := (physicsPass random w).2) in *.
  destruct (markWinner (code wf) (heap w1) (flags (physicsRef w1)))
    as [h' r] eqn:Hmw.
  assert (Hval1 : forall a, a ∈ flags (physicsRef w1) ->
                            (a < length (heap w1))%nat).
  { intros a Ha. rewrite Hlen. apply Hval. by rewrite <- Hfl. }
  destruct (markWinner_spec _ _ _ _ _ Hval1 Hmw) as ((ext & ->) & Hlr & Hpt).
  subst w'. rewrite Heq, (declareWinner_fields _ _ _ _ _ Hmw).
  cbn [heap st_winner physicsRef set_isRunning isRunning ringOpacity
       st_leaderboard timers flags st_flags].
  exists wa, wf.
  split; [done |]. split.
  { destruct (lookup_lt_is_Some_2 (heap w) wa (Hval wa Hwa)) as [f0 Hf0].
    destruct (Hfwd wa f0 Hf0) as (f' & Hf' & _ & _ & Hfw).
    assert (f' = wf) by congruence. subst f'.
    unfold statusAt. rewrite Hf0. cbn. f_equal.
    destruct Hfw as [? | [[_ ?] | [_ ?]]]; congruence. }
  split; [by apply lookup_app_l_Some |]. split; [done |].
  split; [done |]. split; [done |]. split; [done |].
  split; [by rewrite Hlb |]. split; [by rewrite Htm, Hnt, Hck |].
  split; [done |]. split; [by rewrite Hlr, Hfl |].
  intros i a Hi. rewrite <- Hfl in Hi.
  destruct (Hpt i a Hi) as (a' & f & Hr & Hf & Hcase).
  exists a', f. split; [done |]. split; [by apply lookup_app_l_Some |].
  destruct Hcase as [? | (Hc & Hge & Hcopy)]; [by left |].
  right. split; [done |]. split; [by rewrite <- Hlen | done].
Qed.

(** The late round: its one active flag, the first of the roster, wins. *)
Lemma last_flag_wins_witness :
  let w' := frame fairCoin 0 16 lateRound in
  exists wa wf,
    statusAt (heap lateRound) wa = Some active /\
    heap w' !! wa = Some wf /\ status wf = active /\
    st_winner w' = Some wa /\
    isRunning (physicsRef w') = false /\
    st_leaderboard w' = updateLeaderboard wf [] /\
    timers w' = [ {| tid := 2; due := 65000; callback := AutoRestart |} ].
Proof.
  destruct (last_flag_wins fairCoin 0 16 lateRound)
    as (wa & wf & _ & H1 & H2 & H3 & H4 & H5 & _ & H6 & H7 & _).
  - reflexivity.
  - reflexivity.
  - apply NoDup_seq.
  - exact lateRound_valid.
  - exact lateRound_active.
  - exists wa, wf. repeat (split; [assumption |]). exact H7.
Defined.

(** ** The flags of a new round *)

Lemma initial_speed (t : R) :
  sqrt (cos t * BASE_SPEED * (cos t * BASE_SPEED)
        + sin t * BASE_SPEED * (sin t * BASE_SPEED)) = BASE_SPEED.
Proof.
  replace (cos t * BASE_SPEED * (cos t * BASE_SPEED)
           + sin t * BASE_SPEED * (sin t * BASE_SPEED))
    with (BASE_SPEED * BASE_SPEED * (Rsqr (sin t) + Rsqr (cos t)))
    by (unfold Rsqr; ring).
  rewrite sin2_cos2, Rmult_1_r. apply sqrt_square.
  unfold BASE_SPEED. lra.
Qed.

(** Lines 164-190, 204-205: whatever its random comparator makes of the
    sort, as long as the sort permutes, a new round holds every country of
    the roster exactly once; its flags are new objects, those of earlier
    rounds stay in the store untouched; each starts active and unrotated,
    with the base speed in whatever direction was drawn and a spin in
    [-5, 5); and the round starts with no winner, the ring shown at angle 0
    and the leaderboard kept. *)
Theorem new_round_roster
    (random : nat -> R)
    (sortRandomly : nat -> list Country -> list Country * nat) (w : World) :
  (forall k l, Permutation (sortRandomly k l).1 l) ->
  (forall n, 0 <= random n < 1) ->
  let w' := initializeGame random sortRandomly w in
  let fl := flags (physicsRef w') in
  length fl = length countriesList /\
  Permutation (codeAt (heap w') <$> fl)
              ((fun c => Some (country_code c)) <$> countriesList) /\
  (forall a, a ∈ fl -> (length (heap w) <= a < length (heap w'))%nat) /\
  (forall b f, heap w !! b = Some f -> heap w' !! b = Some f) /\
  (forall a f, a ∈ fl -> heap w' !! a = Some f ->
     status f = active /\ angle (physics f) = 0 /\
     speed (physics f) = BASE_SPEED /\
     -5 <= vAngle (physics f) < 5 /\
     exists c, c ∈ countriesList /\
               code f = country_code c /\ name f = country_name c) /\
  st_winner w' = None /\ ringOpacity w' = 1 /\ ringRotation w' = 0 /\
  st_leaderboard w' = st_leaderboard w.
Proof.
  intros Hperm Hrand w' fl.
  pose proof (initializeGame_flag_at random sortRandomly w) as Hat.
  cbv zeta in Hat. fold w' in Hat. fold fl in Hat.
  subst fl w'. revert Hat. rewrite initializeGame_fields.
  set (sl := (sortRandomly (rng w) countriesList).1).
  set (r0 := (rng w + (sortRandomly (rng w) countriesList).2)%nat).
  assert (Hsl : Permutation sl countriesList) by apply Hperm.
  cbn [heap st_flags physicsRef flags st_winner ringOpacity ringRotation
       st_leaderboard]. intros Hat.
  split; [by rewrite length_seq, (Permutation_length Hsl) |].
  split.
  { rewrite <- Hsl.
    replace (codeAt (heap w ++ imap (initialFlag random (length sl) r0) sl)
               <$> seq (length (heap w)) (length sl))
      with ((fun c => Some (country_code c)) <$> sl); [done |].
    apply list_eq. intros i. rewrite !list_lookup_fmap.
    destruct (decide (i < length sl)%nat) as [Hlt | Hge].
    - rewrite lookup_seq_lt by done.
      destruct (lookup_lt_is_Some_2 sl i Hlt) as [c Hc]. rewrite Hc.
      simpl. unfold codeAt. rewrite lookup_app_r by lia.
      replace (length (heap w) + i - length (heap w))%nat with i by lia.
      by rewrite list_lookup_imap, Hc.
    - rewrite lookup_seq_ge by lia. by rewrite lookup_ge_None_2 by lia. }
  split.
  { intros a Ha. apply elem_of_seq in Ha.
    rewrite length_app, length_imap. lia. }
  split; [intros b f Hf; by apply lookup_app_l_Some |].
  split; [| done].
  intros a f Ha Hf.
  destruct (Hat a Ha) as (i & c & _ & Hc & _ & Hf0).
  rewrite Hf in Hf0. injection Hf0 as ->.
  unfold initialFlag. cbn [status physics angle vAngle code name].
  split; [done |]. split; [done |].
  split; [unfold speed; cbn [vx vy]; apply initial_speed |].
  split; [pose proof (Hrand (r0 + 2 * i + 1)%nat); lra |].
  exists c. split; [| done].
  rewrite <- Hsl. by eapply list_elem_of_lookup_2.
Qed.

(** The first round of the component, with every draw one half and the
    roster kept in order. *)
Lemma new_round_roster_witness :
  let w' := mount fairCoin keepOrder in
  length (flags (physicsRef w')) = 50%nat /\
  Permutation (codeAt (heap w') <$> flags (physicsRef w'))
              ((fun c => Some (country_code c)) <$> countriesList) /\
  st_winner w' = None.
Proof.
  destruct (new_round_roster fairCoin keepOrder initialWorld keepOrder_perm)
    as (H1 & H2 & _ & _ & _ & H3 & _).
  - intros n. unfold fairCoin. lra.
  - split; [exact H1 |]. split; [exact H2 | exact H3].
Defined.

(** ** The leaderboard over the rounds *)

Lemma bump_fields (c : string) (p : LeaderboardEntry) :
  entry_code (bump c p) = entry_code p /\
  entry_name (bump c p) = entry_name p /\
  (wins p <= wins (bump c p))%Z.
Proof. unfold bump. destruct (String.eqb _ _); cbn; repeat split; lia. Qed.

Lemma bump_other (c : string) (p : LeaderboardEntry) :
  entry_code p <> c -> bump c p = p.
Proof.
  intros Hne. unfold bump.
  by destruct (String.eqb_spec (entry_code p) c).
Qed.

Lemma totalWins_perm (l l' : list LeaderboardEntry) :
  Permutation l l' -> totalWins l = totalWins l'.
Proof.
  induction 1 as [| e l l' _ IH | e e' l | l l' l'' _ IH1 _ IH2];
    cbn [totalWins foldr] in *; unfold totalWins in *; lia.
Qed.

Lemma totalWins_app (l l' : list LeaderboardEntry) :
  totalWins (l ++ l') = (totalWins l + totalWins l')%Z.
Proof.
  induction l as [| e l IH]; [reflexivity |].
  unfold totalWins in *. cbn [app foldr]. lia.
Qed.

Lemma map_bump_absent (c : string) (l : list LeaderboardEntry) :
  (forall p, p ∈ l -> entry_code p <> c) -> map (bump c) l = l.
Proof.
  induction l as [| e l IH]; intros Hno; [reflexivity |].
  cbn [map]. rewrite bump_other by (apply Hno; by left).
  f_equal. apply IH. intros p Hp. apply Hno. by right.
Qed.

Lemma totalWins_bump (c : string) (l : list LeaderboardEntry) :
  NoDup (entry_code <$> l) ->
  (exists p, p ∈ l /\ entry_code p = c) ->
  totalWins (map (bump c) l) = (totalWins l + 1)%Z.
Proof.
  induction l as [| e l IH]; intros Hnd (p & Hp & Hc).
  - by apply elem_of_nil in Hp.
  - rewrite fmap_cons in Hnd. apply NoDup_cons in Hnd as [Hnotin Hnd].
    cbn [map]. unfold totalWins in *. cbn [foldr].
    destruct (decide (entry_code e = c)) as [He | Hne].
    + rewrite map_bump_absent.
      * unfold bump. rewrite (proj2 (String.eqb_eq _ _) He). cbn. lia.
      * intros q Hq Hqc. apply Hnotin. rewrite He, <- Hqc.
        by apply list_elem_of_fmap_2.
    + rewrite bump_other by done. rewrite IH; [lia | done |].
      apply elem_of_cons in Hp as [-> | Hp]; [done |]. by exists p.
Qed.

(** The list that line 357 sorts. *)
Lemma updateLeaderboard_perm (w : CountryFlag) (prev : list LeaderboardEntry) :
  ((exists p, p ∈ prev /\ entry_code p = code w) /\
   Permutation (updateLeaderboard w prev) (map (bump (code w)) prev)) \/
  ((forall p, p ∈ prev -> entry_code p <> code w) /\
   Permutation (updateLeaderboard w prev)
     (prev ++ [ {| entry_code := code w; entry_name := name w;
                   wins := 1 |} ])).
Proof.
  unfold updateLeaderboard.
  destruct (List.find _ prev) as [p |] eqn:Hfind.
  - left. split; [| apply sort_perm].
    exists p. by apply find_code_Some.
  - right. split; [| apply sort_perm]. by apply find_code_None.
Qed.

Lemma leaderboardInvariant_update (w : CountryFlag)
    (prev : list LeaderboardEntry) :
  leaderboardInvariant prev ->
  leaderboardInvariant (updateLeaderboard w prev) /\
  totalWins (updateLeaderboard w prev) = (totalWins prev + 1)%Z.
Proof.
  intros (_ & Hnd & Hpos).
  assert (Hsorted : StronglySorted (fun a b => (wins a >= wins b)%Z)
                      (updateLeaderboard w prev)) by apply sort_sorted.
  destruct (updateLeaderboard_perm w prev) as [[Hex Hp] | [Hno Hp]].
  - split; [split; [done | split] |].
    + rewrite Hp. rewrite <- list_fmap_compose.
      replace (entry_code ∘ bump (code w) <$> prev) with (entry_code <$> prev);
        [done |].
      apply list_fmap_ext. intros i p _. cbn.
      by destruct (bump_fields (code w) p) as [-> _].
    + intros e He. rewrite Hp in He.
      apply list_elem_of_fmap in He as (p & -> & Hin).
      destruct (bump_fields (code w) p) as (_ & _ & Hle).
      specialize (Hpos p Hin). lia.
    + rewrite (totalWins_perm _ _ Hp). by apply totalWins_bump.
  - split; [split; [done | split] |].
    + rewrite Hp, fmap_app. apply NoDup_app. split; [done |]. split.
      * intros c Hc Hc'. cbn in Hc'. apply list_elem_of_singleton in Hc'.
        apply list_elem_of_fmap in Hc as (p & -> & Hin).
        by apply (Hno p Hin).
      * cbn. apply NoDup_singleton.
    + intros e He. rewrite Hp in He. apply elem_of_app in He as [He | He].
      * by apply Hpos.
      * apply list_elem_of_singleton in He as ->. cbn. lia.
    + rewrite (totalWins_perm _ _ Hp), totalWins_app.
      unfold totalWins at 2. cbn. lia.
Qed.

(** Lines 348-358: on a leaderboard in descending order, with one entry a
    code and no entry without a win, the update keeps all three, adds
    exactly one win in total, keeps every entry of another country as it
    is, and leaves the winner with one entry, of a win at least; the list
    grows by one entry exactly when the winner was not on it. *)
Theorem leaderboard_update_counts
    (w : CountryFlag) (prev : list LeaderboardEntry) :
  leaderboardInvariant prev ->
  let next := updateLeaderboard w prev in
  leaderboardInvariant next /\
  totalWins next = (totalWins prev + 1)%Z /\
  (forall e, e ∈ prev -> entry_code e <> code w -> e ∈ next) /\
  (exists e, e ∈ next /\ entry_code e = code w /\ (1 <= wins e)%Z) /\
  length next
  = (length prev
     + if decide (code w ∈ entry_code <$> prev) then 0 else 1)%nat.
Proof.
  intros Hinv next.
  destruct (leaderboardInvariant_update w prev Hinv) as [Hnext Htotal].
  split; [done |]. split; [done |].
  destruct Hnext as (_ & _ & Hpos). fold next in Hpos.
  destruct (updateLeaderboard_perm w prev) as [[Hex Hp] | [Hno Hp]];
    fold next in Hp.
  - split; [| split].
    + intros e He Hne. rewrite Hp.
      rewrite <- (bump_other (code w) e Hne).
      by apply (list_elem_of_fmap_2 (bump (code w))).
    + destruct Hex as (p & Hp1 & Hp2).
      assert (Hin : bump (code w) p ∈ next).
      { rewrite Hp. by apply (list_elem_of_fmap_2 (bump (code w))). }
      exists (bump (code w) p). split; [done |].
      split; [| by apply Hpos].
      by destruct (bump_fields (code w) p) as [-> _].
    + rewrite (Permutation_length Hp), length_map.
      rewrite decide_True; [lia |].
      destruct Hex as (p & Hp1 & <-). by apply list_elem_of_fmap_2.
  - split; [| split].
    + intros e He _. rewrite Hp. apply elem_of_app. by left.
    + eexists. split; [rewrite Hp; apply elem_of_app; right;
                       by apply list_elem_of_singleton |].
      cbn. split; [done | lia].
    + rewrite (Permutation_length Hp), length_app. cbn.
      rewrite decide_False; [done |].
      intros Hin. apply list_elem_of_fmap in Hin as (p & Hc & Hin).
      by apply (Hno p Hin).
Qed.

(** A against B, 2 wins to 1, and B wins the round. *)
Lemma leaderboard_update_counts_witness :
  let prev := [ {| entry_code := "A"; entry_name := "A"; wins := 2 |};
                {| entry_code := "B"; entry_name := "B"; wins := 1 |} ] in
  let next := updateLeaderboard (flagOf "B") prev in
  leaderboardInvariant next /\ totalWins next = 4%Z /\ length next = 2%nat.
Proof.
  destruct (leaderboard_update_counts (flagOf "B")
              [ {| entry_code := "A"; entry_name := "A"; wins := 2 |};
                {| entry_code := "B"; entry_name := "B"; wins := 1 |} ])
    as (H1 & H2 & _ & _ & H3).
  - split; [| split].
    + repeat constructor; cbn; lia.
    + apply (bool_decide_unpack _). vm_compute. exact I.
    + intros e He. repeat (apply elem_of_cons in He as [-> | He]; [cbn; lia |]).
      by apply elem_of_nil in He.
  - split; [exact H1 |]. split; [exact H2 | exact H3].
Defined.

Section LeaderboardReachable.

Variable random : nat -> R.
Variable sortRandomly : nat -> list Country -> list Country * nat.

Hypothesis sortRandomly_perm :
  forall k l, Permutation (sortRandomly k l).1 l.

Implicit Types (w : World) (a : addr).

Lemma initializeGame_fromRoster w a f :
  a ∈ flags (physicsRef (initializeGame random sortRandomly w)) ->
  heap (initializeGame random sortRandomly w) !! a = Some f ->
  fromRoster (code f) (name f).
Proof.
  intros Ha Hf.
  destruct (initializeGame_flag_at random sortRandomly w a Ha)
    as (i & c & _ & Hc & _ & Hf0).
  rewrite Hf in Hf0. injection Hf0 as ->.
  exists c. split; [| done].
  rewrite <- (sortRandomly_perm (rng w) countriesList).
  by eapply list_elem_of_lookup_2.
Qed.

Lemma updateLeaderboard_fromRoster (wf : CountryFlag)
    (prev : list LeaderboardEntry) :
  fromRoster (code wf) (name wf) ->
  (forall e, e ∈ prev -> fromRoster (entry_code e) (entry_name e)) ->
  forall e, e ∈ updateLeaderboard wf prev ->
            fromRoster (entry_code e) (entry_name e).
Proof.
  intros Hwf Hprev e He.
  destruct (updateLeaderboard_perm wf prev) as [[_ Hp] | [_ Hp]];
    rewrite Hp in He.
  - apply list_elem_of_fmap in He as (p & -> & Hin).
    destruct (bump_fields (code wf) p) as (-> & -> & _). by apply Hprev.
  - apply elem_of_app in He as [He | He]; [by apply Hprev |].
    by apply list_elem_of_singleton in He as ->.
Qed.

Lemma rosterInvariant_frame time delta w :
  roundInvariant w -> rosterInvariant w ->
  rosterInvariant (frame random time delta w).
Proof.
  intros Hinv (Hlb & Hent & Hfl).
  pose proof Hinv as (Hnd & Hval & _).
  cbv zeta in Hnd, Hval.
  destruct (physicsPass_heap random w Hnd)
    as (_ & _ & _ & Hfwd & _ & _ & Hone).
  destruct (physicsPass_frame random w)
    as (Hflags & _ & _ & _ & _ & _ & _ & Hlb1 & _).
  cbv zeta in Hfwd, Hone, Hflags, Hlb1.
  assert (Hpass : forall a f,
            a ∈ flags (physicsRef w) ->
            heap (physicsPass random w).2 !! a = Some f ->
            fromRoster (code f) (name f)).
  { intros a f Ha Hf.
    destruct (lookup_lt_is_Some_2 (heap w) a (Hval a Ha)) as [f0 Hf0].
    destruct (Hfwd a f0 Hf0) as (f' & Hf' & Hc & Hn & _).
    assert (f' = f) by congruence. subst f'.
    rewrite Hc, Hn. by apply (Hfl a f0). }
  destruct (frame_cases random time delta w)
    as [-> | (Hrun & [-> | (wa & wf & Hpw & Hcnt & _ & Hwf & ->)])].
  - done.
  - unfold rosterInvariant. rewrite Hflags, Hlb1. done.
  - destruct (Hone Hcnt) as (b & Hb & Hbin & _).
    assert (b = wa) by congruence. subst b.
    pose proof (Hpass wa wf Hbin Hwf) as Hroster.
    destruct (markWinner (code wf) (heap (physicsPass random w).2)
                (flags (physicsRef (physicsPass random w).2)))
      as [h' r] eqn:Hmw.
    destruct (markWinner_extends _ _ _ _ _ Hmw) as [ext ->].
    rewrite (declareWinner_fields _ _ _ _ _ Hmw).
    unfold rosterInvariant.
    cbn [st_leaderboard physicsRef set_isRunning flags heap].
    rewrite Hflags, Hlb1.
    split; [by apply leaderboardInvariant_update |].
    split; [by apply updateLeaderboard_fromRoster |].
    intros a f Ha Hf. apply (Hpass a f Ha).
    rewrite lookup_app_l in Hf; [done |].
    destruct (physicsPass_heap random w Hnd) as (_ & -> & _).
    by apply Hval.
Qed.

Lemma mount_rosterInvariant : rosterInvariant (mount random sortRandomly).
Proof.
  split; [| split].
  - unfold mount. rewrite initializeGame_fields. cbn [st_leaderboard].
    split; [constructor |]. split; [constructor |].
    intros e He. by apply elem_of_nil in He.
  - unfold mount. rewrite initializeGame_fields. cbn [st_leaderboard].
    intros e He. by apply elem_of_nil in He.
  - intros a f. apply initializeGame_fromRoster.
Qed.

Lemma rosterInvariant_run evs w :
  roundInvariant w -> rosterInvariant w ->
  rosterInvariant (run random sortRandomly w evs).
Proof.
  revert evs w.
  apply (run_ind random sortRandomly sortRandomly_perm rosterInvariant).
  - intros w time delta. apply rosterInvariant_frame.
  - intros w t _ Hw _ _ _. exact Hw.
  - intros w t _ (Hlb & Hent & _) _ _ _. split; [| split].
    + by rewrite initializeGame_fields.
    + by rewrite initializeGame_fields.
    + intros a f. apply initializeGame_fromRoster.
  - intros w ms Hw. exact Hw.
Qed.

(** What the invariant says of the leaderboard. *)
Lemma rosterInvariant_board w :
  rosterInvariant w ->
  leaderboardInvariant (st_leaderboard w) /\
  (forall e, e ∈ st_leaderboard w ->
     fromRoster (entry_code e) (entry_name e)) /\
  (length (st_leaderboard w) <= length countriesList)%nat.
Proof.
  intros (Hlb & Hent & _). split; [done |]. split; [done |].
  destruct Hlb as (_ & Hnd & _).
  rewrite <- (length_fmap entry_code (st_leaderboard w)),
          <- (length_fmap country_code countriesList).
  apply submseteq_length, NoDup_submseteq; [done |].
  intros c Hc. apply list_elem_of_fmap in Hc as (e & -> & He).
  destruct (Hent e He) as (co & Hco & -> & _).
  by apply list_elem_of_fmap_2.
Qed.

End LeaderboardReachable.

(** The late round is in order, and its flags are those of the roster. *)
Lemma lateRound_roundInvariant : roundInvariant lateRound.
Proof.
  unfold roundInvariant. cbv zeta.
  change (flags (physicsRef lateRound)) with (seq 0 50).
  change (st_flags lateRound) with (seq 0 50).
  split; [apply NoDup_seq |].
  split; [exact lateRound_valid |].
  split; [apply (bool_decide_unpack _); vm_compute; exact I |].
  split.
  { apply Forall_forall. apply (bool_decide_unpack _). vm_compute. exact I. }
  split.
  { pose proof lateRound_active as Hone.
    change (flags (physicsRef lateRound)) with (seq 0 50) in Hone.
    rewrite Hone. lia. }
  split; [done |].
  split; [vm_compute; lia |].
  split; [cbn; lia | done].
Qed.

Lemma lateRound_rosterInvariant : rosterInvariant lateRound.
Proof.
  split; [| split].
  - split; [constructor |]. split; [constructor |].
    intros e He. by apply elem_of_nil in He.
  - intros e He. by apply elem_of_nil in He.
  - intros a f _ Hf. unfold lateRound in Hf. cbn [heap] in Hf.
    rewrite list_lookup_imap in Hf.
    destruct (countriesList !! a) as [c |] eqn:Hc; [| done].
    injection Hf as <-. exists c. split; [| done].
    by eapply list_elem_of_lookup_2.
Qed.

(** Lines 348-358 over the life of the component.  That the leaderboard is
    in descending order of wins, holds one entry a country at most, each
    with one win at least and with the code and name of a country of the
    roster, and that the flags of the round are countries of the roster, is
    so at the mount and is kept by every frame, timer and passing of time,
    from whatever state in which it is so; hence it is so in every state of
    the mounted component, and the leaderboard never has more entries than
    the roster has countries. *)
Theorem leaderboard_always_ranked
    (random : nat -> R)
    (sortRandomly : nat -> list Country -> list Country * nat) :
  (forall k l, Permutation (sortRandomly k l).1 l) ->
  (roundInvariant (mount random sortRandomly) /\
   rosterInvariant (mount random sortRandomly)) /\
  (forall (w : World) (evs : list Event),
     roundInvariant w -> rosterInvariant w ->
     let w' := run random sortRandomly w evs in
     roundInvariant w' /\ rosterInvariant w' /\
     leaderboardInvariant (st_leaderboard w') /\
     (forall e, e ∈ st_leaderboard w' ->
        fromRoster (entry_code e) (entry_name e)) /\
     (length (st_leaderboard w') <= length countriesList)%nat) /\
  (forall evs : list Event,
     let board :=
       st_leaderboard
         (run random sortRandomly (mount random sortRandomly) evs) in
     leaderboardInvariant board /\
     (forall e, e ∈ board -> fromRoster (entry_code e) (entry_name e)) /\
     (length board <= length countriesList)%nat).
Proof.
  intros Hperm.
  pose proof (mount_invariant random sortRandomly Hperm) as Hm.
  pose proof (mount_rosterInvariant random sortRandomly Hperm) as Hr.
  split; [done |]. split.
  - intros w evs Hinv Hros w'.
    split; [by apply run_invariant |].
    pose proof (rosterInvariant_run random sortRandomly Hperm evs w Hinv Hros)
      as Hros'.
    split; [exact Hros' |]. by apply rosterInvariant_board.
  - intros evs board. apply rosterInvariant_board.
    by apply rosterInvariant_run.
Qed.

(** The late round won: the leaderboard has its first entry. *)
Lemma leaderboard_always_ranked_witness :
  let board :=
    st_leaderboard (run fairCoin keepOrder lateRound [AnimationFrame 0 16]) in
  length board = 1%nat /\
  leaderboardInvariant board /\
  (forall e, e ∈ board -> fromRoster (entry_code e) (entry_name e)).
Proof.
  destruct (leaderboard_always_ranked fairCoin keepOrder keepOrder_perm)
    as (_ & Hkept & _).
  destruct (Hkept lateRound [AnimationFrame 0 16]
              lateRound_roundInvariant lateRound_rosterInvariant)
    as (_ & _ & Hlb & Hent & _).
  cbv zeta. split; [| split; [exact Hlb | exact Hent]].
  change (run fairCoin keepOrder lateRound [AnimationFrame 0 16])
    with (frame fairCoin 0 16 lateRound).
  destruct (frame_declares fairCoin 0 16 lateRound)
    as (wa & wf & _ & _ & _ & ->);
    [reflexivity | reflexivity | apply NoDup_seq | exact lateRound_active |].
  destruct (markWinner (code wf) (heap (physicsPass fairCoin lateRound).2)
              (flags (physicsRef (physicsPass fairCoin lateRound).2)))
    as [h' r] eqn:Hmw.
  rewrite (declareWinner_fields _ _ _ _ _ Hmw). reflexivity.
Defined.

(** ** The winner and the stopped round *)

Section WinnerReachable.

Variable random : nat -> R.
Variable sortRandomly : nat -> list Country -> list Country * nat.

Hypothesis sortRandomly_perm :
  forall k l, Permutation (sortRandomly k l).1 l.

Implicit Types (w : World) (a : addr) (t : Timer).

Lemma singleton_both {A} (l : list A) (x y : A) :
  length l = 1%nat -> x ∈ l -> y ∈ l -> x = y.
Proof.
  destruct l as [| z [| z' l]]; try done. intros _ Hx Hy.
  apply list_elem_of_singleton in Hx, Hy. congruence.
Qed.

Lemma winnerInvariant_frame time delta w :
  roundInvariant w -> winnerInvariant w ->
  winnerInvariant (frame random time delta w).
Proof.
  intros Hinv Hw. pose proof Hinv as (Hnd & Hval & _).
  cbv zeta in Hnd, Hval.
  destruct (isRunning (physicsRef w)) eqn:Hrun;
    [| by rewrite frame_stopped].
  unfold winnerInvariant in Hw. rewrite Hrun in Hw.
  destruct Hw as (Hwin & Hop & Hpend).
  destruct (physicsPass_heap random w Hnd)
    as (_ & Hlen & _ & _ & _ & _ & Hone).
  destruct (physicsPass_frame random w)
    as (Hflags & Hrun1 & Hph1 & _ & _ & _ & _ & _ & Htm & _).
  cbv zeta in Hlen, Hone, Hflags, Hrun1, Hph1, Htm.
  destruct (frame_cases random time delta w)
    as [-> | (_ & [-> | (wa & wf & Hpw & Hcnt & Hph & Hwf & ->)])].
  - unfold winnerInvariant. by rewrite Hrun.
  - unfold winnerInvariant, pending. rewrite Hrun1, Hrun, Htm.
    fold (pending AutoRestart w). unfold physicsPass. cbn. done.
  - destruct (Hone Hcnt) as (b & Hb & Hbin & Hbs).
    assert (b = wa) by congruence. subst b.
    assert (Hact : status wf = active).
    { unfold statusAt in Hbs. rewrite Hwf in Hbs. cbn in Hbs. congruence. }
    destruct (markWinner (code wf) (heap (physicsPass random w).2)
                (flags (physicsRef (physicsPass random w).2)))
      as [h' r] eqn:Hmw.
    assert (Hval1 : forall a, a ∈ flags (physicsRef (physicsPass random w).2) ->
                      (a < length (heap (physicsPass random w).2))%nat).
    { intros a Ha. rewrite Hlen. apply Hval. by rewrite <- Hflags. }
    destruct (markWinner_spec _ _ _ _ _ Hval1 Hmw) as ((ext & ->) & _ & Hpt).
    rewrite (declareWinner_fields _ _ _ _ _ Hmw).
    unfold winnerInvariant, pending.
    cbn [physicsRef set_isRunning isRunning phase ringOpacity timers
         st_winner flags heap st_flags].
    split; [by rewrite Hph1 |]. split; [done |]. split.
    { rewrite Htm, filter_app. fold (pending AutoRestart w).
      rewrite Hpend. reflexivity. }
    rewrite <- Hflags in Hbin.
    pose proof Hbin as Hbin'.
    apply list_elem_of_lookup_1 in Hbin' as [i Hi].
    destruct (Hpt i wa Hi) as (a' & f & Hr & Hf & Hcase).
    assert (f = wf) by congruence. subst f.
    exists wa, wf, a'.
    split; [done |]. split; [done |].
    split; [by apply lookup_app_l_Some |]. split; [done |].
    split; [by eapply list_elem_of_lookup_2 |].
    by destruct Hcase as [[_ ?] | (_ & _ & ?)].
Qed.

Lemma mount_winnerInvariant :
  timersInvariant (mount random sortRandomly) /\
  winnerInvariant (mount random sortRandomly).
Proof.
  split; [apply (reachable_timersInvariant random sortRandomly
                   sortRandomly_perm []) |].
  unfold mount. rewrite initializeGame_fields. unfold winnerInvariant.
  cbn. done.
Qed.

Lemma winnerInvariant_run evs w :
  roundInvariant w -> timersInvariant w /\ winnerInvariant w ->
  timersInvariant (run random sortRandomly w evs) /\
  winnerInvariant (run random sortRandomly w evs).
Proof.
  revert evs w.
  apply (run_ind random sortRandomly sortRandomly_perm
           (fun w => timersInvariant w /\ winnerInvariant w)).
  - intros w time delta Hinv [Ht Hw].
    split; [by apply timersInvariant_frame | by apply winnerInvariant_frame].
  - intros w t Hinv [Ht Hw] Hin Hcb _.
    split; [by apply timersInvariant_startScatter |].
    pose proof Ht as (_ & _ & _ & _ & _ & H5).
    assert (Hform : phase (physicsRef w) = formation).
    { apply H5. intros Hnil.
      assert (Hp : t ∈ pending StartScatter w)
        by (by apply list_elem_of_filter).
      rewrite Hnil in Hp. by apply elem_of_nil in Hp. }
    set (w' := runCallback random sortRandomly StartScatter
                 (clearTimeout (tid t) w)).
    assert (E1 : isRunning (physicsRef w') = isRunning (physicsRef w))
      by reflexivity.
    assert (E2 : st_winner w' = st_winner w) by reflexivity.
    assert (E3 : ringOpacity w' = ringOpacity w) by reflexivity.
    assert (E4 : pending AutoRestart w'
                 = pending AutoRestart (clearTimeout (tid t) w))
      by reflexivity.
    unfold winnerInvariant in *. rewrite E1, E2, E3, E4.
    destruct (isRunning (physicsRef w)).
    + destruct Hw as (? & ? & Hpend). split; [done |]. split; [done |].
      by rewrite pending_clearTimeout, Hpend.
    + destruct Hw as [Hsc _]. congruence.
  - intros w t Hinv [Ht Hw] Hin Hcb _.
    split; [by apply timersInvariant_restart |].
    assert (Hp : t ∈ pending AutoRestart w)
      by (by apply list_elem_of_filter).
    unfold winnerInvariant in Hw.
    destruct (isRunning (physicsRef w)).
    { destruct Hw as (_ & _ & Hnil). rewrite Hnil in Hp.
      by apply elem_of_nil in Hp. }
    destruct Hw as (_ & _ & Hone & _).
    unfold winnerInvariant. rewrite initializeGame_fields.
    cbn [physicsRef isRunning st_winner ringOpacity].
    split; [done |]. split; [done |].
    apply filter_none. intros t' Ht' Hcb'.
    pose proof Ht' as Ht''.
    rewrite <- (initializeGame_fields random sortRandomly) in Ht''.
    destruct (timers_restart_sub random sortRandomly (tid t) w t' Ht'')
      as [[Hin' Hne] | ->]; [| done].
    assert (Hp' : t' ∈ pending AutoRestart w)
      by (by apply list_elem_of_filter).
    apply Hne. f_equal. by eapply singleton_both.
  - intros w ms Hw. exact Hw.
Qed.

End WinnerReachable.

Lemma countStatus_unique s h l b b' :
  (countStatus s h l <= 1)%nat -> b ∈ l -> b' ∈ l ->
  statusAt h b = Some s -> statusAt h b' = Some s -> b = b'.
Proof.
  induction l as [| a l IH]; intros Hle Hb Hb' Hs Hs'.
  - by apply elem_of_nil in Hb.
  - rewrite countStatus_cons in Hle.
    apply elem_of_cons in Hb as [-> | Hb], Hb' as [-> | Hb']; [done | | |].
    + pose proof (countStatus_pos s h l b' Hb' Hs').
      rewrite bool_decide_eq_true_2 in Hle by done. lia.
    + pose proof (countStatus_pos s h l b Hb Hs).
      rewrite bool_decide_eq_true_2 in Hle by done. lia.
    + apply IH; try done. lia.
Qed.

(** What line 425-445 return for one flag. *)
Lemma renderFlag_cases (hasMotion : string -> bool) (flag : CountryFlag)
    (e : FlagElement) :
  renderFlag hasMotion flag = Some e ->
  hasMotion (code flag) = true /\
  match e with
  | PhysicsFlagElement f z tint =>
    f = flag /\ z = 10%Z /\ (status flag = active \/ status flag = exiting) /\
    (tint = true <-> status flag = exiting)
  | WinnerFlagElement f => f = flag /\ status flag = winner
  end.
Proof.
  unfold renderFlag, PhysicsFlag.
  destruct (decide (status flag = eliminated)) as [| Hne]; [done |].
  destruct (hasMotion (code flag)); [| done]. cbn [negb].
  destruct (decide (status flag = winner)) as [Hw | Hnw];
    intros [= <-]; [done |].
  split; [done |]. split; [done |]. split; [done |].
  split; [destruct (status flag); tauto |].
  apply bool_decide_eq_true.
Qed.

Lemma winner_elements_le (hasMotion : string -> bool)
    (h : list CountryFlag) (l : list addr) :
  (length (filter (fun e => isWinnerElement e = true)
             (omap (fun a => h !! a ≫= renderFlag hasMotion) l))
   <= countStatus winner h l)%nat.
Proof.
  induction l as [| a l IH]; [cbn; lia |].
  rewrite countStatus_cons. cbn [omap list_omap].
  destruct (h !! a ≫= renderFlag hasMotion) as [e |] eqn:He; [| lia].
  rewrite filter_cons. destruct (decide (isWinnerElement e = true)) as [Hw | Hnw];
    [| lia].
  destruct (h !! a) as [flag |] eqn:Hflag; [| done]. cbn in He.
  destruct (renderFlag_cases hasMotion flag e He) as [_ Hcase].
  destruct e as [f z tint | f]; [done |]. destruct Hcase as [_ Hst].
  rewrite bool_decide_eq_true_2; [cbn; lia |].
  unfold statusAt. rewrite Hflag. cbn. by f_equal.
Qed.

(** What the two invariants say of a state. *)
Lemma winnerInvariant_shown (w : World) :
  roundInvariant w -> winnerInvariant w ->
  (isRunning (physicsRef w) = true ->
   st_winner w = None /\ ringOpacity w = 1 /\
   pending AutoRestart w = [] /\
   countStatus winner (heap w) (st_flags w) = 0%nat /\
   championBanner w = None) /\
  (isRunning (physicsRef w) = false ->
   phase (physicsRef w) = scatter /\ ringOpacity w = 0 /\
   length (pending AutoRestart w) = 1%nat /\
   countStatus winner (heap w) (st_flags w) = 1%nat /\
   exists wa wf,
     st_winner w = Some wa /\ wa ∈ flags (physicsRef w) /\
     heap w !! wa = Some wf /\ status wf = active /\
     championBanner w = Some (name wf)).
Proof.
  intros Hinv Hw.
  destruct Hinv as (_ & _ & _ & Hnw & _ & Hshow & Hone & _).
  cbv zeta in Hnw, Hshow, Hone.
  unfold winnerInvariant in Hw. split; intros Hrun; rewrite Hrun in Hw.
  - destruct Hw as (Hwin & Hop & Hpend).
    split; [done |]. split; [done |]. split; [done |]. split.
    + rewrite (Hshow Hrun). by apply countStatus_none.
    + unfold championBanner. by rewrite Hwin.
  - destruct Hw as (Hph & Hop & Hpend & wa & wf & a' & Hwin & Hin & Hwf & Hact
                    & Hin' & Hcopy).
    split; [done |]. split; [done |]. split; [done |]. split.
    + apply Nat.le_antisymm; [done |].
      apply (countStatus_pos _ _ _ a'); [done |].
      unfold statusAt. by rewrite Hcopy.
    + exists wa, wf. repeat (split; [done |]).
      unfold championBanner. rewrite Hwin. cbn. by rewrite Hwf.
Qed.

(** The late round has its timers and its winner state in order, and the
    frame that follows stops it. *)
Lemma lateRound_timersInvariant : timersInvariant lateRound.
Proof.
  unfold timersInvariant, pending, lateRound.
  cbn [nextTimer timers startTimeoutRef physicsRef scatterRef phase].
  split; [lia |].
  split; [intros t Ht; by apply elem_of_nil in Ht |].
  split; [apply NoDup_nil_2 |].
  split; [intros t Ht; by apply elem_of_nil in Ht |].
  split; [intros id [= <-]; lia |].
  split; [discriminate | done].
Qed.

Lemma lateRound_winnerInvariant : winnerInvariant lateRound.
Proof. unfold winnerInvariant. cbn. done. Qed.

Lemma lateRound_won :
  run fairCoin keepOrder lateRound [AnimationFrame 0 16]
  = frame fairCoin 0 16 lateRound /\
  isRunning (physicsRef (frame fairCoin 0 16 lateRound)) = false.
Proof.
  split; [reflexivity |].
  destruct (frame_declares fairCoin 0 16 lateRound)
    as (wa & wf & _ & _ & _ & ->);
    [reflexivity | reflexivity | apply NoDup_seq | exact lateRound_active |].
  destruct (markWinner (code wf) (heap (physicsPass fairCoin lateRound).2)
              (flags (physicsRef (physicsPass fairCoin lateRound).2)))
    as [h' r] eqn:Hmw.
  rewrite (declareWinner_fields _ _ _ _ _ Hmw). reflexivity.
Qed.

(** Lines 342-343, 364, 367, 450-462 over the life of the component.  The
    following is so at the mount and is kept by every frame, timer and
    passing of time, from whatever state in which the round, its timers and
    its winner state are in order; hence it is so in every state of the
    mounted component.  A running round has no winner set, its ring shown,
    no restart pending, no winner among the flags shown and no banner; a
    stopped round is in its scatter phase with the ring faded out, exactly
    one restart pending (so it will start again), exactly one winner among
    the flags shown, and the banner names the flag the winner state points
    at, a flag of the round that is still active there. *)
Theorem stopped_round_awaits_restart
    (random : nat -> R)
    (sortRandomly : nat -> list Country -> list Country * nat) :
  (forall k l, Permutation (sortRandomly k l).1 l) ->
  (roundInvariant (mount random sortRandomly) /\
   timersInvariant (mount random sortRandomly) /\
   winnerInvariant (mount random sortRandomly)) /\
  (forall (w0 : World) (evs : list Event),
     roundInvariant w0 -> timersInvariant w0 -> winnerInvariant w0 ->
     let w := run random sortRandomly w0 evs in
     (roundInvariant w /\ timersInvariant w /\ winnerInvariant w) /\
     (isRunning (physicsRef w) = true ->
      st_winner w = None /\ ringOpacity w = 1 /\
      pending AutoRestart w = [] /\
      countStatus winner (heap w) (st_flags w) = 0%nat /\
      championBanner w = None) /\
     (isRunning (physicsRef w) = false ->
      phase (physicsRef w) = scatter /\ ringOpacity w = 0 /\
      length (pending AutoRestart w) = 1%nat /\
      countStatus winner (heap w) (st_flags w) = 1%nat /\
      exists wa wf,
        st_winner w = Some wa /\ wa ∈ flags (physicsRef w) /\
        heap w !! wa = Some wf /\ status wf = active /\
        championBanner w = Some (name wf))) /\
  (forall evs : list Event,
     let w := run random sortRandomly (mount random sortRandomly) evs in
     (isRunning (physicsRef w) = true ->
      st_winner w = None /\ ringOpacity w = 1 /\
      pending AutoRestart w = [] /\
      countStatus winner (heap w) (st_flags w) = 0%nat /\
      championBanner w = None) /\
     (isRunning (physicsRef w) = false ->
      phase (physicsRef w) = scatter /\ ringOpacity w = 0 /\
      length (pending AutoRestart w) = 1%nat /\
      countStatus winner (heap w) (st_flags w) = 1%nat /\
      exists wa wf,
        st_winner w = Some wa /\ wa ∈ flags (physicsRef w) /\
        heap w !! wa = Some wf /\ status wf = active /\
        championBanner w = Some (name wf))).
Proof.
  intros Hperm.
  pose proof (mount_invariant random sortRandomly Hperm) as Hm.
  pose proof (mount_winnerInvariant random sortRandomly Hperm) as [Hmt Hmw].
  assert (Hkept : forall w0 evs,
            roundInvariant w0 -> timersInvariant w0 -> winnerInvariant w0 ->
            roundInvariant (run random sortRandomly w0 evs) /\
            timersInvariant (run random sortRandomly w0 evs) /\
            winnerInvariant (run random sortRandomly w0 evs)).
  { intros w0 evs Hinv Ht Hw.
    split; [by apply run_invariant |].
    by apply winnerInvariant_run. }
  split; [done |]. split.
  - intros w0 evs Hinv Ht Hw w.
    destruct (Hkept w0 evs Hinv Ht Hw) as (Hinv' & Ht' & Hw').
    split; [done |]. by apply winnerInvariant_shown.
  - intros evs w.
    destruct (Hkept _ evs Hm Hmt Hmw) as (Hinv' & _ & Hw').
    by apply winnerInvariant_shown.
Qed.

(** The late round won: it is stopped, with its one restart pending, one
    winner shown and the banner up. *)
Lemma stopped_round_awaits_restart_witness :
  let w := run fairCoin keepOrder lateRound [AnimationFrame 0 16] in
  isRunning (physicsRef w) = false /\
  phase (physicsRef w) = scatter /\ ringOpacity w = 0 /\
  length (pending AutoRestart w) = 1%nat /\
  countStatus winner (heap w) (st_flags w) = 1%nat /\
  exists wa wf,
    st_winner w = Some wa /\ heap w !! wa = Some wf /\
    championBanner w = Some (name wf).
Proof.
  destruct (stopped_round_awaits_restart fairCoin keepOrder keepOrder_perm)
    as (_ & Hkept & _).
  destruct (Hkept lateRound [AnimationFrame 0 16] lateRound_roundInvariant
              lateRound_timersInvariant lateRound_winnerInvariant)
    as (_ & _ & Hstopped).
  cbv zeta in Hstopped |- *.
  destruct lateRound_won as [Hrun Hstop]. rewrite Hrun in Hstopped |- *.
  split; [exact Hstop |].
  destruct (Hstopped Hstop) as (H1 & H2 & H3 & H4 & wa & wf & H5 & _ & H6 & _ & H7).
  split; [exact H1 |]. split; [exact H2 |]. split; [exact H3 |].
  split; [exact H4 |]. exists wa, wf.
  split; [exact H5 |]. split; [exact H6 | exact H7].
Defined.

Lemma omap_length_total {A B} (g : A -> option B) (l : list A) :
  (forall a, a ∈ l -> is_Some (g a)) -> length (omap g l) = length l.
Proof.
  induction l as [| a l IH]; intros Hall; [reflexivity |].
  cbn [omap list_omap].
  destruct (Hall a) as [b Hb]; [by left |]. rewrite Hb. cbn [length].
  f_equal. apply IH. intros a' Ha'. apply Hall. by right.
Qed.

(** Lines 81, 93, 425-445, 450-462: what a render returns, for the state
    it is made in.  In any state: an eliminated flag is not rendered; a
    flag handed to [PhysicsFlag] is active or exiting at that moment, so
    its [zIndex] is always 10 (the 100 of line 81 is never used) and it is
    tinted exactly when it is exiting then; a flag handed to [WinnerFlag]
    has status winner.  The render that follows [initializeGame], every
    country having its MotionValues, shows every flag of the roster by
    [PhysicsFlag], untinted, and no banner.  And in every state that comes
    from one in which the round, its timers and its winner state are in
    order, as they are at the mount: at most one flag is rendered by
    [WinnerFlag], only once the round has stopped, and it is the one the
    banner names; in a stopped round there is such a flag, rendered when it
    has its MotionValues. *)
Theorem rendered_flags
    (random : nat -> R)
    (sortRandomly : nat -> list Country -> list Country * nat) :
  (forall k l, Permutation (sortRandomly k l).1 l) ->
  (forall (w : World) (hasMotion : string -> bool),
     let els := renderFlags hasMotion w in
     (forall flag z tint, PhysicsFlagElement flag z tint ∈ els ->
        z = 10%Z /\ (status flag = active \/ status flag = exiting) /\
        (tint = true <-> status flag = exiting) /\
        hasMotion (code flag) = true /\
        exists a, a ∈ st_flags w /\ heap w !! a = Some flag) /\
     (forall flag, WinnerFlagElement flag ∈ els ->
        status flag = winner /\ hasMotion (code flag) = true /\
        exists a, a ∈ st_flags w /\ heap w !! a = Some flag)) /\
  (forall (w : World) (hasMotion : string -> bool),
     (forall c, c ∈ countriesList -> hasMotion (country_code c) = true) ->
     let w' := initializeGame random sortRandomly w in
     let els := renderFlags hasMotion w' in
     length els = length countriesList /\
     (forall e, e ∈ els ->
        exists flag, e = PhysicsFlagElement flag 10 false /\
                     status flag = active) /\
     championBanner w' = None) /\
  (forall (w0 : World) (evs : list Event) (hasMotion : string -> bool),
     roundInvariant w0 -> timersInvariant w0 -> winnerInvariant w0 ->
     let w := run random sortRandomly w0 evs in
     let els := renderFlags hasMotion w in
     (length (filter (fun e => isWinnerElement e = true) els) <= 1)%nat /\
     (forall flag, WinnerFlagElement flag ∈ els ->
        isRunning (physicsRef w) = false /\
        championBanner w = Some (name flag)) /\
     (isRunning (physicsRef w) = false ->
      exists flag,
        status flag = winner /\ championBanner w = Some (name flag) /\
        (hasMotion (code flag) = true ->
         WinnerFlagElement flag ∈ els /\
         length (filter (fun e => isWinnerElement e = true) els) = 1%nat))) /\
  (timersInvariant (mount random sortRandomly) /\
   winnerInvariant (mount random sortRandomly) /\
   roundInvariant (mount random sortRandomly)).
Proof.
  intros Hperm.
  assert (Hel : forall (w : World) hasMotion e,
            e ∈ renderFlags hasMotion w ->
            exists a flag, a ∈ st_flags w /\ heap w !! a = Some flag /\
                           renderFlag hasMotion flag = Some e).
  { intros w hasMotion e He. apply list_elem_of_omap in He as (a & Ha & Hr).
    destruct (heap w !! a) as [flag |] eqn:Hflag; [| done].
    by exists a, flag. }
  split; [| split; [| split]].
  - intros w hasMotion els. split.
    + intros flag z tint He. destruct (Hel _ _ _ He) as (a & fl & Ha & Hfl & Hr).
      destruct (renderFlag_cases hasMotion fl _ Hr)
        as (Hm & Heq & Hz & Hst & Ht).
      subst fl. repeat (split; [done |]). by exists a.
    + intros flag He. destruct (Hel _ _ _ He) as (a & fl & Ha & Hfl & Hr).
      destruct (renderFlag_cases hasMotion fl _ Hr) as (Hm & Heq & Hst).
      subst fl. repeat (split; [done |]). by exists a.
  - intros w hasMotion Hmotion w' els.
    assert (Hrender : forall a, a ∈ st_flags w' ->
              exists flag, status flag = active /\
                heap w' !! a ≫= renderFlag hasMotion
                = Some (PhysicsFlagElement flag 10 false)).
    { intros a Ha.
      assert (Ha' : a ∈ flags (physicsRef w')).
      { subst w'. rewrite initializeGame_fields in Ha |- *. exact Ha. }
      destruct (initializeGame_flag_at random sortRandomly w a Ha')
        as (i & c & _ & Hc & _ & Hf).
      fold w' in Hf. rewrite Hf. eexists. split; [| cbn; unfold renderFlag].
      2: { cbn [status initialFlag code].
           rewrite decide_False by done.
           rewrite Hmotion.
           - cbn [negb]. rewrite decide_False by done. reflexivity.
           - rewrite <- (Hperm (rng w) countriesList).
             by eapply list_elem_of_lookup_2. }
      reflexivity. }
    split; [| split].
    + unfold els, renderFlags. rewrite omap_length_total.
      * subst w'. rewrite initializeGame_fields. cbn [st_flags].
        by rewrite length_seq, (Permutation_length (Hperm _ _)).
      * intros a Ha. destruct (Hrender a Ha) as (flag & _ & ->). by eexists.
    + intros e He. apply list_elem_of_omap in He as (a & Ha & Hr).
      destruct (Hrender a Ha) as (flag & Hact & Hr').
      rewrite Hr' in Hr. injection Hr as <-. by exists flag.
    + subst w'. rewrite initializeGame_fields. reflexivity.
  - intros w0 evs hasMotion Hinv0 Ht0 Hw0 w els.
    pose proof (run_invariant random sortRandomly Hperm evs w0 Hinv0) as Hinv.
    destruct (winnerInvariant_run random sortRandomly Hperm evs w0 Hinv0
                (conj Ht0 Hw0)) as [_ Hw].
    fold w in Hinv, Hw.
    pose proof Hinv as (_ & _ & _ & Hnw & _ & Hshow & Hone & _).
    cbv zeta in Hnw, Hshow, Hone.
    assert (Hle : (length (filter (fun e => isWinnerElement e = true) els)
                   <= 1)%nat)
      by (etrans; [apply winner_elements_le | exact Hone]).
    split; [exact Hle |]. split.
    + intros flag He. destruct (Hel _ _ _ He) as (a & fl & Ha & Hfl & Hr).
      destruct (renderFlag_cases hasMotion fl _ Hr) as (_ & Heq & Hst).
      subst fl.
      assert (Hsa : statusAt (heap w) a = Some winner).
      { unfold statusAt. rewrite Hfl. cbn. by f_equal. }
      unfold winnerInvariant in Hw.
      destruct (isRunning (physicsRef w)) eqn:Hrun.
      * exfalso. rewrite (Hshow eq_refl) in Ha. by apply (Hnw a Ha).
      * split; [done |].
        destruct Hw as (_ & _ & _ & wa & wf & a' & Hwin & _ & Hwf & _
                        & Hin' & Hcopy).
        assert (a = a').
        { apply (countStatus_unique winner (heap w) (st_flags w)); try done.
          unfold statusAt. by rewrite Hcopy. }
        subst a'. assert (flag = set_status winner wf) by congruence.
        subst flag. unfold championBanner. rewrite Hwin. cbn. by rewrite Hwf.
    + intros Hstop. unfold winnerInvariant in Hw. rewrite Hstop in Hw.
      destruct Hw as (_ & _ & _ & wa & wf & a' & Hwin & _ & Hwf & _
                      & Hin' & Hcopy).
      exists (set_status winner wf). split; [reflexivity |]. split.
      { unfold championBanner. rewrite Hwin. cbn. by rewrite Hwf. }
      intros Hmotion.
      assert (Hin : WinnerFlagElement (set_status winner wf) ∈ els).
      { apply list_elem_of_omap. exists a'. split; [done |].
        rewrite Hcopy. cbn. unfold renderFlag.
        cbn [status set_status code] in *.
        rewrite decide_False by done. rewrite Hmotion. cbn [negb].
        by rewrite decide_True. }
      split; [exact Hin |].
      apply Nat.le_antisymm; [exact Hle |].
      assert (Hf : WinnerFlagElement (set_status winner wf)
                   ∈ filter (fun e => isWinnerElement e = true) els)
        by (by apply list_elem_of_filter).
      destruct (filter _ els); [by apply elem_of_nil in Hf | cbn; lia].
  - destruct (mount_winnerInvariant random sortRandomly Hperm) as [? ?].
    split; [done |]. split; [done |]. by apply mount_invariant.
Qed.

(** The render that follows the win of the late round, every flag with its
    MotionValues: one flag is rendered by [WinnerFlag], the one the banner
    names. *)
Lemma rendered_flags_witness :
  let w := run fairCoin keepOrder lateRound [AnimationFrame 0 16] in
  let els := renderFlags (fun _ => true) w in
  exists flag,
    WinnerFlagElement flag ∈ els /\
    status flag = winner /\
    championBanner w = Some (name flag) /\
    length (filter (fun e => isWinnerElement e = true) els) = 1%nat.
Proof.
  destruct (rendered_flags fairCoin keepOrder keepOrder_perm)
    as (_ & _ & Hkept & _).
  destruct (Hkept lateRound [AnimationFrame 0 16] (fun _ => true)
              lateRound_roundInvariant lateRound_timersInvariant
              lateRound_winnerInvariant) as (_ & _ & Hstopped).
  cbv zeta in Hstopped |- *.
  destruct lateRound_won as [Hrun Hstop]. rewrite Hrun in Hstopped |- *.
  destruct (Hstopped Hstop) as (flag & Hst & Hbanner & Hshown).
  destruct (Hshown eq_refl) as [Hin Hone].
  exists flag. split; [exact Hin |]. split; [exact Hst |].
  split; [exact Hbanner | exact Hone].
Defined.

(** ** The nudge of a bounce *)

(** The speed of a velocity moved by [(d1, d2)] differs from the speed
    before by the length of the move at most. *)
Lemma speed_nudge (a b d1 d2 : R) :
  Rsqr (sqrt ((a + d1) * (a + d1) + (b + d2) * (b + d2))
        - sqrt (a * a + b * b))
  <= d1 * d1 + d2 * d2.
Proof.
  set (s := sqrt (a * a + b * b)).
  set (s' := sqrt ((a + d1) * (a + d1) + (b + d2) * (b + d2))).
  assert (Hs : s * s = a * a + b * b) by (apply sqrt_def; nra).
  assert (Hs' : s' * s' = (a + d1) * (a + d1) + (b + d2) * (b + d2)).
  { apply sqrt_def.
    pose proof (Rle_0_sqr (a + d1)). pose proof (Rle_0_sqr (b + d2)).
    unfold Rsqr in *. lra. }
  assert (H0 : 0 <= s) by apply sqrt_pos.
  assert (H0' : 0 <= s') by apply sqrt_pos.
  assert (Hcs : a * (a + d1) + b * (b + d2) <= s * s').
  { destruct (Rle_dec (a * (a + d1) + b * (b + d2)) 0) as [Hneg | Hpos].
    - nra.
    - apply Rnot_le_lt in Hpos.
      assert (Hsq : Rsqr (a * (a + d1) + b * (b + d2)) <= Rsqr (s * s')).
      { unfold Rsqr.
        replace (s * s' * (s * s')) with ((s * s) * (s' * s')) by ring.
        rewrite Hs, Hs'.
        pose proof (Rle_0_sqr (a * (b + d2) - b * (a + d1))) as Hq.
        unfold Rsqr in Hq.
        replace ((a * a + b * b)
                 * ((a + d1) * (a + d1) + (b + d2) * (b + d2)))
          with ((a * (a + d1) + b * (b + d2)) * (a * (a + d1) + b * (b + d2))
                + (a * (b + d2) - b * (a + d1))
                  * (a * (b + d2) - b * (a + d1))) by ring.
        lra. }
      apply Rsqr_incr_0 in Hsq; [done | lra | nra]. }
  unfold Rsqr. nra.
Qed.

(** Lines 306-316, in exact real arithmetic: a bounce puts the flag back
    on the circle of radius 148, keeps its heading and spin, and, with the
    two draws in [0, 1), changes its speed by the length of the nudge at
    most: the square of the change is no more than 1/8 (a change of about
    0.354 at most). *)
Theorem bounce_speed_drift (p : PhysicsState) (r1 r2 : R) :
  distance p + FLAG_RADIUS >= BOUNDARY_RADIUS ->
  0 <= r1 < 1 -> 0 <= r2 < 1 ->
  let p' := bounce (distance p) r1 r2 p in
  distance p' = 148 /\
  angle p' = angle p /\ vAngle p' = vAngle p /\
  Rsqr (speed p' - speed p) <= 1 / 8 /\
  Rabs (vx p' - vx (reflect (distance p) p)) <= 1 / 4 /\
  Rabs (vy p' - vy (reflect (distance p) p)) <= 1 / 4.
Proof.
  intros Hev Hr1 Hr2 p'.
  pose proof (boundary_event_pos p Hev) as Hd.
  split.
  { subst p'. rewrite bounce_distance by done.
    unfold BOUNDARY_RADIUS, FLAG_RADIUS. lra. }
  split; [reflexivity |]. split; [reflexivity |].
  split.
  - rewrite <- (reflect_speed p Hd).
    subst p'. unfold bounce, perturb, pushBack, speed. cbn [vx vy].
    etrans; [apply speed_nudge |]. nra.
  - subst p'. unfold bounce, perturb, pushBack. cbn [vx vy].
    split; apply Rabs_le; lra.
Qed.

(** The flag at the boundary, bounced with draws 0 and 3/4. *)
Lemma bounce_speed_drift_witness :
  let p' := bounce (distance atBoundary) 0 (3 / 4) atBoundary in
  distance p' = 148 /\ Rsqr (speed p' - speed atBoundary) <= 1 / 8.
Proof.
  destruct (bounce_speed_drift atBoundary 0 (3 / 4))
    as (H1 & _ & _ & H2 & _).
  - rewrite atBoundary_distance. unfold FLAG_RADIUS, BOUNDARY_RADIUS. lra.
  - lra.
  - lra.
  - split; [exact H1 | exact H2].
Defined.

(** ** The leaderboard shown *)

Lemma sorted_app_le {A} (Rel : A -> A -> Prop) (l1 l2 : list A) :
  StronglySorted Rel (l1 ++ l2) ->
  forall a b, a ∈ l1 -> b ∈ l2 -> Rel a b.
Proof.
  induction l1 as [| c l1 IH]; intros Hs a b Ha Hb.
  - by apply elem_of_nil in Ha.
  - cbn [app] in Hs. apply StronglySorted_inv in Hs as [Hs Hall].
    apply elem_of_cons in Ha as [-> | Ha]; [| by apply IH].
    rewrite Forall_forall in Hall. apply Hall, elem_of_app. by right.
Qed.

(** Lines 386-411: the panel says it awaits data exactly when the
    leaderboard is empty; otherwise it shows its first five entries at
    most, in the order of the list, ranked from 1, the first one
    highlighted; and when the list is in descending order of wins, as the
    update leaves it, no entry left out has more wins than one shown. *)
Theorem leaderboard_shows_top_five (leaderboard : list LeaderboardEntry) :
  (renderLeaderboard leaderboard = AwaitingData <-> leaderboard = []) /\
  (leaderboard <> [] ->
   exists rows,
     renderLeaderboard leaderboard = Rows rows /\
     length rows = Nat.min 5 (length leaderboard) /\
     (forall i row, rows !! i = Some row ->
        row_rank row = S i /\ (row_first row = true <-> i = 0%nat) /\
        leaderboard !! i = Some (row_entry row)) /\
     (StronglySorted (fun a b => (wins a >= wins b)%Z) leaderboard ->
      forall row j e,
        row ∈ rows -> (length rows <= j)%nat -> leaderboard !! j = Some e ->
        (wins e <= wins (row_entry row))%Z)).
Proof.
  split.
  - unfold renderLeaderboard. destruct leaderboard as [| e l]; cbn; [done |].
    split; discriminate.
  - intros Hne. unfold renderLeaderboard.
    destruct (Nat.eqb_spec (length leaderboard) 0) as [H0 | _].
    { by destruct leaderboard. }
    eexists. split; [reflexivity |].
    split; [by rewrite length_imap, length_take |].
    split.
    + intros i row Hi. rewrite list_lookup_imap in Hi.
      destruct (take 5 leaderboard !! i) as [e |] eqn:He; [| done].
      injection Hi as <-. cbn [row_rank row_first row_entry].
      split; [lia |]. split; [apply Nat.eqb_eq |].
      apply lookup_take_Some in He. tauto.
    + intros Hsorted row j e Hrow Hj He.
      rewrite length_imap, length_take in Hj.
      apply list_elem_of_lookup_1 in Hrow as [i Hi].
      rewrite list_lookup_imap in Hi.
      destruct (take 5 leaderboard !! i) as [e' |] eqn:He'; [| done].
      injection Hi as <-. cbn [row_entry].
      rewrite <- (take_drop 5 leaderboard) in Hsorted.
      assert (wins e' >= wins e)%Z; [| lia].
      apply (sorted_app_le _ _ _ Hsorted).
      * by eapply list_elem_of_lookup_2.
      * apply (list_elem_of_lookup_2 _ (j - 5)%nat).
        rewrite lookup_drop. rewrite <- He. f_equal.
        pose proof (lookup_lt_Some _ _ _ He). lia.
Qed.

(** Seven countries with wins from 7 down to 1: five rows, and the sixth
    entry has no more wins than the one in the first row. *)
Lemma leaderboard_shows_top_five_witness :
  let board :=
    imap (fun i c => {| entry_code := country_code c;
                        entry_name := country_name c;
                        wins := 7 - Z.of_nat i |})
         (take 7 countriesList) in
  exists rows,
    renderLeaderboard board = Rows rows /\ length rows = 5%nat /\
    forall row e, row ∈ rows -> board !! 5%nat = Some e ->
                  (wins e <= wins (row_entry row))%Z.
Proof.
  intros board.
  destruct (leaderboard_shows_top_five board) as [_ Hrows].
  destruct Hrows as (rows & Hr & Hlen & _ & Htop); [discriminate |].
  exists rows. split; [exact Hr |]. split; [exact Hlen |].
  intros row e Hrow He. apply (Htop) with (j := 5%nat); try done.
  - repeat (constructor; [| repeat constructor; cbn; lia]). constructor.
  - rewrite Hlen. cbn. lia.
Defined.

(** ** The way out *)

Section WayOut.

Variable random : nat -> R.

Implicit Types (w : World) (a b : addr) (f : CountryFlag).

Lemma visit_exiting ref st a f :
  phase ref = scatter ->
  pass_heap st !! a = Some f -> status f = exiting ->
  pass_heap (visit random ref st a) !! a = Some (fly f).
Proof.
  intros Hph Hf Hs. pose proof (lookup_lt_Some _ _ _ Hf) as Hlt.
  unfold visit, fly. rewrite Hf, Hph, Hs.
  rewrite decide_False by done. cbn [pass_heap].
  rewrite list_lookup_insert_eq by done. reflexivity.
Qed.

Lemma foldl_visit_other ref l a : forall st,
  a ∉ l ->
  pass_heap (foldl (visit random ref) st l) !! a = pass_heap st !! a.
Proof.
  induction l as [| b l IH]; intros st Ha; [reflexivity |].
  cbn [foldl]. rewrite IH by (intros Hin; apply Ha; by right).
  apply visit_other. intros ->. apply Ha. by left.
Qed.

(** The frame of a running round at an exiting flag of its array. *)
Lemma frame_exiting time delta w a f :
  isRunning (physicsRef w) = true ->
  phase (physicsRef w) = scatter ->
  NoDup (flags (physicsRef w)) ->
  a ∈ flags (physicsRef w) ->
  heap w !! a = Some f -> status f = exiting ->
  heap (frame random time delta w) !! a = Some (fly f).
Proof.
  intros Hrun Hph Hnd Ha Hf Hs.
  assert (Hpass : heap (physicsPass random w).2 !! a = Some (fly f)).
  { unfold physicsPass, pass. cbn [snd heap].
    set (ref := set_ringAngle _ (physicsRef w)).
    change (flags ref) with (flags (physicsRef w)).
    destruct (list_elem_of_split _ _ Ha) as (l1 & l2 & Hl).
    rewrite Hl in Hnd |- *.
    apply NoDup_app in Hnd as (Hnd1 & Hdisj & Hnd2).
    apply NoDup_cons in Hnd2 as [Hnotin2 _].
    assert (Hnotin1 : a ∉ l1).
    { intros Hin. apply (Hdisj a Hin). by left. }
    rewrite foldl_app. cbn [foldl]. rewrite foldl_visit_other by done.
    apply visit_exiting; [done | | done].
    destruct (pass_prefix random ref (heap w) (rng w) l1 Hnd1)
      as (_ & Hout & _).
    cbv zeta in Hout. by rewrite Hout. }
  assert (Hlen : length (flags (physicsRef w)) <> 0%nat).
  { destruct (flags (physicsRef w)); [by apply elem_of_nil in Ha | done]. }
  unfold frame. rewrite Hrun. cbn [negb orb].
  rewrite bool_decide_eq_false_2 by done.
  destruct (physicsPass random w) as [st w1] eqn:Hpp. cbn [snd] in Hpass.
  unfold winnerCheck.
  destruct (potentialWinner st) as [wa |]; [| done].
  destruct (_ && _); [| done].
  destruct (heap w1 !! wa) as [wf |]; [| done].
  destruct (declareWinner_extends wa wf w1) as [ext ->].
  by apply lookup_app_l_Some.
Qed.

Lemma frames_snoc ts td w :
  frames random (ts ++ [td]) w = frame random td.1 td.2 (frames random ts w).
Proof. unfold frames. by rewrite foldl_snoc. Qed.

Lemma frames_ref ts w :
  flags (physicsRef (frames random ts w)) = flags (physicsRef w) /\
  phase (physicsRef (frames random ts w)) = phase (physicsRef w).
Proof.
  induction ts as [| td ts IH] using rev_ind; [done |].
  rewrite frames_snoc.
  destruct (frame_ref random td.1 td.2 (frames random ts w))
    as (-> & -> & _). exact IH.
Qed.

Lemma iter_integrate (k : nat) (p : PhysicsState) :
  x (Nat.iter k integrate p) = x p + INR k * vx p /\
  y (Nat.iter k integrate p) = y p + INR k * vy p /\
  vx (Nat.iter k integrate p) = vx p /\
  vy (Nat.iter k integrate p) = vy p.
Proof.
  induction k as [| k (Hx & Hy & Hvx & Hvy)].
  - cbn. repeat split; lra.
  - rewrite S_INR, Nat.iter_succ.
    set (q := Nat.iter k integrate p) in *.
    change (x (integrate q)) with (x q + vx q).
    change (y (integrate q)) with (y q + vy q).
    change (vx (integrate q)) with (vx q).
    change (vy (integrate q)) with (vy q).
    rewrite Hx, Hy, Hvx, Hvy. repeat split; lra.
Qed.

(** After [k] frames the exiting flag is [k] steps along its line, unless
    it has been eliminated or the round has stopped. *)
Lemma frames_exiting a f : forall ts w,
  phase (physicsRef w) = scatter ->
  NoDup (flags (physicsRef w)) ->
  a ∈ flags (physicsRef w) ->
  heap w !! a = Some f -> status f = exiting ->
  let w' := frames random ts w in
  isRunning (physicsRef w') = false \/
  statusAt (heap w') a = Some eliminated \/
  (heap w' !! a
   = Some (set_physics (Nat.iter (length ts) integrate (physics f)) f) /\
   (forall j, (1 <= j <= length ts)%nat ->
    ~ distance (Nat.iter j integrate (physics f))
      > BOUNDARY_RADIUS * (25 / 10))).
Proof.
  intros ts w Hph Hnd Ha Hf Hs.
  induction ts as [| td ts IH] using rev_ind; cbv zeta.
  - right. right. split; [| cbn; intros j Hj; lia].
    cbn. rewrite Hf. by destruct f.
  - rewrite frames_snoc. cbv zeta in IH.
    destruct (frames_ref ts w) as [Hfl Hp].
    set (wk := frames random ts w) in *.
    destruct (isRunning (physicsRef wk)) eqn:Hrun;
      [| left; by rewrite frame_stopped].
    destruct IH as [Hstop | [Helim | [Hfk Hwithin]]]; [congruence | |].
    + right. left. unfold statusAt in *.
      destruct (heap wk !! a) as [g |] eqn:Hg; [| done].
      destruct (frame_heap_forward random td.1 td.2 wk a g)
        as (g' & Hg' & _ & _ & Hfw); [by rewrite Hfl | done |].
      rewrite Hg'. cbn in *. f_equal.
      destruct Hfw as [? | [[? _] | [_ ?]]]; congruence.
    + pose proof (frame_exiting td.1 td.2 wk a
                    (set_physics (Nat.iter (length ts) integrate (physics f)) f)
                    Hrun) as Hstep.
      rewrite Hp, Hfl in Hstep. specialize (Hstep Hph Hnd Ha Hfk Hs).
      unfold fly in Hstep. cbn [physics set_physics] in Hstep.
      rewrite length_app, Nat.add_comm. cbn [length Nat.add].
      rewrite Nat.iter_succ.
      destruct (decide (distance (integrate
                  (Nat.iter (length ts) integrate (physics f)))
                > BOUNDARY_RADIUS * (25 / 10))) as [Hfar | Hnear].
      * right. left. unfold statusAt. by rewrite Hstep.
      * right. right. split; [by rewrite Hstep |].
        intros j Hj.
        destruct (decide (j = S (length ts))) as [-> | Hne].
        -- by rewrite Nat.iter_succ.
        -- apply Hwithin. lia.
Qed.

(** A flag that moves leaves every disc for good. *)
Lemma escape (p : PhysicsState) (bound : R) :
  vx p <> 0 \/ vy p <> 0 ->
  exists n, forall k, (n <= k)%nat ->
    distance (Nat.iter k integrate p) > bound.
Proof.
  intros Hv.
  assert (Hcoord : forall c v : R, v <> 0 ->
            exists n, forall k, (n <= k)%nat ->
              Rmax bound 0 * Rmax bound 0 < (c + INR k * v) * (c + INR k * v)).
  { intros c v Hne. set (b := Rmax bound 0).
    assert (Hb : 0 <= b) by apply Rmax_r.
    assert (Habs : 0 < Rabs v) by (by apply Rabs_pos_lt).
    set (r := (b + Rabs c) / Rabs v).
    assert (Hr : 0 <= r).
    { unfold r, Rdiv. apply Rmult_le_pos.
      - pose proof (Rabs_pos c). lra.
      - left. by apply Rinv_0_lt_compat. }
    destruct (archimed r) as [Hup _].
    exists (Z.to_nat (up r)). intros k Hk.
    assert (Hn : r < INR k).
    { apply Rlt_le_trans with (IZR (up r)); [lra |].
      rewrite <- (Z2Nat.id (up r)) by (apply le_IZR; lra).
      rewrite <- INR_IZR_INZ. by apply le_INR. }
    assert (Hfar : b + Rabs c < INR k * Rabs v).
    { assert (Heq : b + Rabs c = r * Rabs v) by (unfold r; field; lra).
      rewrite Heq. by apply Rmult_lt_compat_r. }
    pose proof (Rabs_pos c) as Hc0.
    unfold Rabs in Hfar, Hc0, Habs.
    destruct (Rcase_abs c), (Rcase_abs v); nra. }
  assert (Hsq : forall X Y : R,
            Rmax bound 0 * Rmax bound 0 < X * X -> bound < sqrt (X * X + Y * Y)).
  { intros X Y HX.
    apply Rle_lt_trans with (Rmax bound 0); [apply Rmax_l |].
    rewrite <- (sqrt_square (Rmax bound 0)) by apply Rmax_r.
    apply sqrt_lt_1_alt. pose proof (Rmax_r bound 0). nra. }
  destruct Hv as [Hv | Hv].
  - destruct (Hcoord (x p) (vx p) Hv) as [n Hn]. exists n. intros k Hk.
    destruct (iter_integrate k p) as (Hx & Hy & _).
    unfold distance. rewrite Hx, Hy. apply Rlt_gt, Hsq. by apply Hn.
  - destruct (Hcoord (y p) (vy p) Hv) as [n Hn]. exists n. intros k Hk.
    destruct (iter_integrate k p) as (Hx & Hy & _).
    unfold distance. rewrite Hx, Hy. rewrite Rplus_comm.
    apply Rlt_gt, Hsq. by apply Hn.
Qed.

End WayOut.

(** Lines 259-261, 319-335 over the frames, in exact real arithmetic: in
    the scatter phase an exiting flag keeps to its straight line, so once a
    point of that line, one step of its velocity after the other, is
    further out than two and a half boundary radii, the flag is eliminated,
    unless the round has stopped; and a flag that moves at all gets there:
    there is a number of frames after which, whatever their times, either
    the round has stopped or the flag is eliminated. *)
Theorem exiting_flag_is_eliminated
    (random : nat -> R) (w : World) (a : addr) (f : CountryFlag) :
  phase (physicsRef w) = scatter ->
  NoDup (flags (physicsRef w)) ->
  a ∈ flags (physicsRef w) ->
  heap w !! a = Some f -> status f = exiting ->
  (forall (ts : list (R * R)) (j : nat),
     (1 <= j <= length ts)%nat ->
     distance (Nat.iter j integrate (physics f))
     > BOUNDARY_RADIUS * (25 / 10) ->
     let w' := frames random ts w in
     isRunning (physicsRef w') = false \/
     statusAt (heap w') a = Some eliminated) /\
  (vx (physics f) <> 0 \/ vy (physics f) <> 0 ->
   exists n : nat, forall ts : list (R * R),
     (n <= length ts)%nat ->
     let w' := frames random ts w in
     isRunning (physicsRef w') = false \/
     statusAt (heap w') a = Some eliminated).
Proof.
  intros Hph Hnd Ha Hf Hs.
  assert (Hfar : forall (ts : list (R * R)) (j : nat),
            (1 <= j <= length ts)%nat ->
            distance (Nat.iter j integrate (physics f))
            > BOUNDARY_RADIUS * (25 / 10) ->
            isRunning (physicsRef (frames random ts w)) = false \/
            statusAt (heap (frames random ts w)) a = Some eliminated).
  { intros ts j Hj Hout.
    destruct (frames_exiting random a f ts w Hph Hnd Ha Hf Hs)
      as [Hstop | [Helim | [_ Hnear]]]; [by left | by right |].
    exfalso. by apply (Hnear j Hj). }
  split; [exact Hfar |].
  intros Hv.
  destruct (escape (physics f) (BOUNDARY_RADIUS * (25 / 10)) Hv) as [n Hn].
  exists (S n). intros ts Hlen. apply (Hfar ts (S n)); [lia |].
  apply Hn. lia.
Qed.

(** Two flags are active at the centre and stay there, so the round goes
    on; the third is one step short of the limit and the next frame
    eliminates it. *)
Lemma exiting_flag_is_eliminated_witness :
  let w' := frames fairCoin [(0, 16)] busyRound in
  isRunning (physicsRef w') = true /\
  statusAt (heap w') 2%nat = Some eliminated.
Proof.
  cbv zeta.
  assert (Hrun : isRunning (physicsRef (frames fairCoin [(0, 16)] busyRound))
                 = true).
  { change (frames fairCoin [(0, 16)] busyRound)
      with (frame fairCoin 0 16 busyRound).
    destruct (physicsPass_heap fairCoin busyRound (NoDup_seq 0 50))
      as (_ & _ & _ & _ & Hcount & _).
    cbv zeta in Hcount.
    assert (Htwo : countStatus active (heap busyRound)
                     (flags (physicsRef busyRound)) = 2%nat)
      by (vm_compute; reflexivity).
    rewrite Htwo in Hcount.
    destruct (frame_cases fairCoin 0 16 busyRound)
      as [-> | (_ & [-> | (wa & wf & _ & Hone & _)])].
    - reflexivity.
    - reflexivity.
    - cbv zeta in Hone. rewrite Hcount in Hone. discriminate. }
  split; [exact Hrun |].
  destruct (exiting_flag_is_eliminated fairCoin busyRound 2%nat departingFlag)
    as [Hfar _].
  - reflexivity.
  - apply (NoDup_seq 0 50).
  - change (flags (physicsRef busyRound)) with (seq 0 50).
    apply elem_of_seq. lia.
  - reflexivity.
  - reflexivity.
  - destruct (Hfar [(0, 16)] 1%nat) as [Hstop | Helim].
    + cbn. lia.
    + unfold departingFlag, distance, integrate, BOUNDARY_RADIUS.
      cbn [Nat.iter nat_rect physics x y vx vy].
      replace ((399 + 32 / 10) * (399 + 32 / 10) + (0 + 0) * (0 + 0))
        with ((4022 / 10) * (4022 / 10)) by lra.
      rewrite sqrt_square by lra. lra.
    + rewrite Hrun in Hstop. discriminate.
    + exact Helim.
Defined.
